(** * fms.modules.attention: multi-head attention with a key/value cache,
      rotary tables and a tensor-parallel wrapper

    A shallow embedding of [src/fms/modules/attention.py].  Tensors are a
    shape, a dtype and the row-major list of their elements; Python exceptions
    are values of [exn]; code that mutates (the rotary tables, the module
    parameters, the tensor objects handed between calls) is written in a state
    and exception monad.  What torch and the accelerator kernels compute
    numerically is an interface ([Torch]), as is the position encoder. *)

From Stdlib Require Import ZArith QArith Lia List String Ascii Bool Arith.
From stdpp Require Import gmap strings list fin_maps.

Set Default Proof Using "Type".
Open Scope string_scope.
Open Scope list_scope.
Open Scope nat_scope.

(** ** Python results, exceptions and the state monad *)

Inductive exn : Type :=
| AssertionError (msg : option string)
| ZeroDivisionError
| UnboundLocalError (var : string)
| AttributeError (unused : gset string)
| ValueError (msg : string)
| IndexError (msg : string)
| RuntimeError (msg : string).

(** The outcome of a call: a value, an exception, or [OutOfFuel] when the
    model of a [while] loop was given too few iterations. *)
Inductive Res (X : Type) : Type :=
| Ok (x : X)
| Raise (e : exn)
| OutOfFuel.
Arguments Ok {X} x.
Arguments Raise {X} e.
Arguments OutOfFuel {X}.

Definition is_ok {X} (r : Res X) : bool :=
  match r with Ok _ => true | _ => false end.

Definition res_bind {X Y} (r : Res X) (k : X -> Res Y) : Res Y :=
  match r with Ok x => k x | Raise e => Raise e | OutOfFuel => OutOfFuel end.

(** A computation over a state [S]: it returns or raises, and leaves a state
    in both cases (what a Python exception leaves behind is the state at the
    raise). *)
Definition M (S X : Type) : Type := S -> Res X * S.

Definition ret {S X} (x : X) : M S X := fun s => (Ok x, s).
Definition raise {S X} (e : exn) : M S X := fun s => (Raise e, s).
Definition bind {S X Y} (m : M S X) (k : X -> M S Y) : M S Y :=
  fun s => match m s with
           | (Ok x, s') => k x s'
           | (Raise e, s') => (Raise e, s')
           | (OutOfFuel, s') => (OutOfFuel, s')
           end.
Definition lift {S X} (r : Res X) : M S X := fun s => (r, s).
Definition get {S} : M S S := fun s => (Ok s, s).
Definition put {S} (s : S) : M S unit := fun _ => (Ok tt, s).

Declare Scope py_scope.
Delimit Scope py_scope with py.
Notation "x <- m ;; k" := (bind m (fun x => k))
  (at level 100, m at next level, right associativity) : py_scope.
Notation "m ;;; k" := (bind m (fun _ => k))
  (at level 100, right associativity) : py_scope.
Notation "x <~ r ;; k" := (res_bind r (fun x => k))
  (at level 100, r at next level, right associativity) : py_scope.
Open Scope py_scope.

(** Reading a local variable that may not have been assigned. *)
Definition local {S X} (name : string) (x : option X) : M S X :=
  match x with
  | Some l => ret l
  | None => raise (UnboundLocalError name)
  end.

(** Python's [a % b] and [a // b] on non-negative ints. *)
Definition py_mod (a b : nat) : Res nat :=
  if decide (b = 0) then Raise ZeroDivisionError else Ok (a mod b).
Definition py_floordiv (a b : nat) : Res nat :=
  if decide (b = 0) then Raise ZeroDivisionError else Ok (a / b).

(** [assert c, msg] *)
Definition py_assert (c : bool) (msg : option string) : Res unit :=
  if c then Ok tt else Raise (AssertionError msg).

(** ** Tensors *)

Inductive DType : Type := float32 | bfloat16 | float16 | int64.

#[export] Instance DType_eq_dec : EqDecision DType.
Proof. solve_decision. Defined.

Inductive Device : Type := cpu | cuda | hpu.

#[export] Instance Device_eq_dec : EqDecision Device.
Proof. solve_decision. Defined.

Record Tensor (A : Type) : Type := mkTensor {
  shape : list nat;
  dtype : DType;
  data : list A
}.
Arguments mkTensor {A} shape dtype data.
Arguments shape {A} t.
Arguments dtype {A} t.
Arguments data {A} t.

Definition prod_list (l : list nat) : nat := foldr Nat.mul 1 l.

Section TensorOps.
Context {A : Type}.

(** [t.numel()], [len(t.size())] and [t.size(i)] *)
Definition numel (t : Tensor A) : nat := prod_list (shape t).
Definition ndim (t : Tensor A) : nat := length (shape t).
Definition size_dim (t : Tensor A) (i : nat) : Res nat :=
  match shape t !! i with
  | Some n => Ok n
  | None => Raise (IndexError "Dimension out of range")
  end.

(** A tensor is well formed when it holds one element per index. *)
Definition wf_tensor (t : Tensor A) : Prop := length (data t) = numel t.

(** [n] consecutive chunks of [sz] elements, and the [i]-th of them. *)
Fixpoint chunks (sz n : nat) (l : list A) : list (list A) :=
  match n with
  | 0 => []
  | S n' => take sz l :: chunks sz n' (drop sz l)
  end.
Definition block (sz i : nat) (l : list A) : list A := take sz (drop (i * sz) l).

(** [t.view(new)] *)
Definition view (new : list nat) (t : Tensor A) : Res (Tensor A) :=
  if decide (prod_list new = numel t)
  then Ok (mkTensor new (dtype t) (data t))
  else Raise (RuntimeError "shape is invalid for input size").

(** [t.reshape(new)] has the contents of [view]. *)
Definition reshape (new : list nat) (t : Tensor A) : Res (Tensor A) := view new t.

(** [t.unsqueeze(d)] for [d >= 0]: a singleton axis at position [d]. *)
Definition unsqueeze (d : nat) (t : Tensor A) : Res (Tensor A) :=
  if decide (d <= ndim t)
  then Ok (mkTensor (take d (shape t) ++ 1 :: drop d (shape t)) (dtype t) (data t))
  else Raise (IndexError "Dimension out of range").

(** [t.transpose(2, 1)] *)
Definition transpose_2_1 (t : Tensor A) : Res (Tensor A) :=
  match shape t with
  | b :: m :: n :: rest =>
      let inner := prod_list rest in
      Ok (mkTensor (b :: n :: m :: rest) (dtype t)
            (flat_map (fun ib =>
               flat_map (fun jn =>
                 flat_map (fun im => block inner ((ib * m + im) * n + jn) (data t))
                          (seq 0 m))
                        (seq 0 n))
                      (seq 0 b)))
  | _ => Raise (IndexError "Dimension out of range")
  end.

(** [torch.cat((t1, t2), dim=d)] *)
Definition cat (d : nat) (t1 t2 : Tensor A) : Res (Tensor A) :=
  match shape t1 !! d, shape t2 !! d with
  | Some n1, Some n2 =>
      if decide (take d (shape t1) = take d (shape t2)
                 /\ drop (S d) (shape t1) = drop (S d) (shape t2))
      then
        let outer := prod_list (take d (shape t1)) in
        let inner := prod_list (drop (S d) (shape t1)) in
        Ok (mkTensor (take d (shape t1) ++ (n1 + n2) :: drop (S d) (shape t1))
              (dtype t1)
              (concat (zip_with app (chunks (n1 * inner) outer (data t1))
                                    (chunks (n2 * inner) outer (data t2)))))
      else Raise (RuntimeError "Sizes of tensors must match except in the cat dimension")
  | _, _ => Raise (IndexError "Dimension out of range")
  end.

(** [t.expand(sizes)], [None] standing for [-1]: an axis of size 1 is
    repeated to the requested size, any other axis must keep its size. *)
Fixpoint expand_shape (sh : list nat) (sizes : list (option nat)) : Res (list nat) :=
  match sh, sizes with
  | [], [] => Ok []
  | s :: sh', z :: sizes' =>
      rest <~ expand_shape sh' sizes' ;;
      match z with
      | None => Ok (s :: rest)
      | Some n =>
          if decide (s = n) then Ok (s :: rest)
          else if decide (s = 1) then Ok (n :: rest)
          else Raise (RuntimeError "The expanded size of the tensor must match the existing size")
      end
  | _, _ => Raise (RuntimeError "the number of sizes provided must match the number of dimensions")
  end.

Fixpoint expand_data (sh : list nat) (sizes : list (option nat)) (l : list A) : list A :=
  match sh, sizes with
  | s :: sh', z :: sizes' =>
      let sub := concat (map (expand_data sh' sizes') (chunks (prod_list sh') s l)) in
      match z with
      | Some n => if decide (s = 1) then concat (replicate n sub) else sub
      | None => sub
      end
  | _, _ => l
  end.

Definition expand (sizes : list (option nat)) (t : Tensor A) : Res (Tensor A) :=
  sh <~ expand_shape (shape t) sizes ;;
  Ok (mkTensor sh (dtype t) (expand_data (shape t) sizes (data t))).

(** [t.flatten(1, 2)] *)
Definition flatten_1_2 (t : Tensor A) : Res (Tensor A) :=
  match shape t with
  | b :: m :: n :: rest => Ok (mkTensor (b :: m * n :: rest) (dtype t) (data t))
  | _ => Raise (IndexError "Dimension out of range")
  end.

(** [t[:n]], the first [n] entries along axis 0. *)
Definition slice_rows (n : nat) (t : Tensor A) : Res (Tensor A) :=
  match shape t with
  | r :: rest => Ok (mkTensor (Nat.min n r :: rest) (dtype t)
                       (take (Nat.min n r * prod_list rest) (data t)))
  | [] => Raise (IndexError "slice() cannot be applied to a 0-dim tensor")
  end.

(** [t[i]], the [i]-th entry along axis 0. *)
Definition select (i : nat) (t : Tensor A) : Res (Tensor A) :=
  match shape t with
  | r :: rest =>
      if decide (i < r)
      then Ok (mkTensor rest (dtype t) (block (prod_list rest) i (data t)))
      else Raise (IndexError "index out of range")
  | [] => Raise (IndexError "invalid index of a 0-dim tensor")
  end.

End TensorOps.

(** ** What the numeric library provides

    Element arithmetic (floating point in the source), the linear layers, the
    attention kernels and the fused rotary kernel are used by the module and
    not written by it.  [Rng] is the state of torch's random generator, which
    parameter initialisation and dropout consume. *)

Record Linear (A : Type) : Type := mkLinear {
  weight : Tensor A;
  bias : option (Tensor A)
}.
Arguments mkLinear {A} weight bias.
Arguments weight {A} l.
Arguments bias {A} l.

(** [torch.backends.cuda]: which fused kernels are enabled. *)
Record SdpFlags : Type := mkSdpFlags {
  flash_sdp : bool;
  mem_efficient_sdp : bool;
  math_sdp : bool
}.

Class Torch (A : Type) : Type := {
  Rng : Type;
  sc_of_nat : nat -> A;
  sc_mul : A -> A -> A;
  sc_add : A -> A -> A;
  sc_cos : A -> A;
  sc_sin : A -> A;
  (** [x.to(dtype)] on one element *)
  sc_cast : DType -> A -> A;
  (** [1.0 / (base ** (k / dim))] *)
  sc_inv_freq : Q -> nat -> nat -> A;
  (** [nn.Linear(in_features, out_features, bias)] *)
  nn_Linear : nat -> nat -> bool -> Rng -> Linear A * Rng;
  (** [layer(x)] *)
  nn_Linear_call : Linear A -> Tensor A -> Res (Tensor A);
  (** [F.scaled_dot_product_attention(q, k, v, attn_mask, dropout_p, is_causal)] *)
  scaled_dot_product_attention :
    SdpFlags -> Tensor A -> Tensor A -> Tensor A -> option (Tensor A) -> Q -> bool ->
    Rng -> Res (Tensor A) * Rng;
  (** [FusedSDPA.apply(q, k, v, attn_mask, dropout_p, is_causal, None, 'fast')] *)
  FusedSDPA_apply :
    Tensor A -> Tensor A -> Tensor A -> option (Tensor A) -> Q -> bool ->
    Rng -> Res (Tensor A) * Rng;
  (** [FusedRoPE.apply(x, cos, sin, position_ids)] *)
  FusedRoPE_apply : Tensor A -> Tensor A -> Tensor A -> Tensor A -> Res (Tensor A)
}.

(** The position-encoder interface of [fms.modules.positions]. *)
Record PositionEncoder (A : Type) : Type := mkPositionEncoder {
  adjusted_mask :
    option (Tensor A) -> Tensor A -> Tensor A -> option (Tensor A * Tensor A) -> bool ->
    Res (option (Tensor A));
  adjusted_qk :
    Tensor A -> Tensor A -> option (Tensor A) -> option (Tensor A * Tensor A) -> bool ->
    Res (Tensor A * Tensor A)
}.
Arguments adjusted_mask {A} p.
Arguments adjusted_qk {A} p.

Section Elementwise.
Context {A : Type} `{!Torch A}.

Definition tmap (f : A -> A) (t : Tensor A) : Tensor A :=
  mkTensor (shape t) (dtype t) (map f (data t)).

(** [t.to(dtype)]: the tensor itself when it already has the dtype. *)
Definition to (d : DType) (t : Tensor A) : Tensor A :=
  if decide (dtype t = d) then t
  else mkTensor (shape t) d (map (sc_cast d) (data t)).

(** [torch.arange(n, dtype=d)] *)
Definition arange (n : nat) (d : DType) : Tensor A :=
  mkTensor [n] d (map sc_of_nat (seq 0 n)).

(** [torch.outer(t, f)] of two vectors *)
Definition outer (t f : Tensor A) : Tensor A :=
  mkTensor [length (data t); length (data f)] (dtype t)
    (flat_map (fun x => map (sc_mul x) (data f)) (data t)).

End Elementwise.

(** ** GaudiRotaryEmbedding *)

Module GaudiRotaryEmbedding.

(** The attributes of an instance. *)
Record obj (A : Type) : Type := mkRotary {
  scaling_factor : Q;
  dim : nat;
  max_position_embeddings : nat;
  base : Q;
  inv_freq : Tensor A;
  max_seq_len_cached : nat;
  _cos_cached : Tensor A;
  _sin_cached : Tensor A
}.
Arguments mkRotary {A}.
Arguments scaling_factor {A} o.
Arguments dim {A} o.
Arguments max_position_embeddings {A} o.
Arguments base {A} o.
Arguments inv_freq {A} o.
Arguments max_seq_len_cached {A} o.
Arguments _cos_cached {A} o.
Arguments _sin_cached {A} o.

Section Methods.
Context {A : Type} `{!Torch A}.

(** [emb = torch.cat((freqs, freqs), dim=-1)] for
    [freqs = torch.outer(arange(seq_len), inv_freq)] *)
Definition emb (seq_len : nat) (inv : Tensor A) : Res (Tensor A) :=
  let t := arange seq_len (dtype inv) in
  let freqs := outer t inv in
  cat 1 freqs freqs.

(** [_set_cos_sin_cache(self, seq_len, device, dtype)], lines 36-44 *)
Definition _set_cos_sin_cache (seq_len : nat) (dt : DType) :
  M (obj A) unit :=
  self <- get ;;
  e <- lift (emb seq_len (inv_freq self)) ;;
  put (mkRotary (scaling_factor self) (dim self) (max_position_embeddings self)
         (base self) (inv_freq self)
         seq_len
         (to dt (tmap sc_cos e))
         (to dt (tmap sc_sin e))).

(** [forward(self, x, seq_len)], lines 46-54 *)
Definition forward (x : Tensor A) (seq_len : nat) :
  M (obj A) (Tensor A * Tensor A) :=
  self <- get ;;
  (if decide (max_seq_len_cached self < seq_len)
   then _set_cos_sin_cache seq_len (dtype x)
   else ret tt) ;;;
  self <- get ;;
  c <- lift (slice_rows seq_len (_cos_cached self)) ;;
  s <- lift (slice_rows seq_len (_sin_cached self)) ;;
  ret (to (dtype x) c, to (dtype x) s).

(** [__init__(self, dim, max_position_embeddings, base, device, scaling_factor)],
    lines 21-34; [default_dtype] is [torch.get_default_dtype()]. *)
Definition __init__ (dim max_position_embeddings : nat) (base scaling_factor : Q)
  (default_dtype : DType) : Res (obj A) :=
  let inv := mkTensor [(dim + 1) / 2] float32
               (map (fun i => sc_inv_freq base dim (2 * i)) (seq 0 ((dim + 1) / 2))) in
  (* the three cache attributes do not exist yet; the call below sets them *)
  let self := mkRotary scaling_factor dim max_position_embeddings base inv
                0 (mkTensor [0] float32 []) (mkTensor [0] float32 []) in
  match _set_cos_sin_cache max_position_embeddings default_dtype self with
  | (Ok _, self') => Ok self'
  | (Raise e, _) => Raise e
  | (OutOfFuel, _) => OutOfFuel
  end.

End Methods.
End GaudiRotaryEmbedding.

(** ** MultiHeadAttention *)

(** A tensor object is named by its index in the heap of the process. *)
Definition loc : Type := nat.

(** The distributed state a process sees for a group: what
    [distributed.rank_and_world(group)] returns. *)
Record ProcessGroup : Type := mkGroup {
  pg_rank : nat;
  pg_world_size : nat
}.

(** The process outside the module: the tensor objects, torch's random
    generator, the kernel switches of [torch.backends.cuda], the default dtype
    and whether [torch.distributed] is initialised. *)
Record World (A : Type) `{!Torch A} : Type := mkWorld {
  heap : list (Tensor A);
  rng : Rng;
  backends : SdpFlags;
  default_dtype : DType;
  dist_initialized : bool
}.
Arguments mkWorld {A _}.
Arguments heap {A _} w.
Arguments rng {A _} w.
Arguments backends {A _} w.
Arguments default_dtype {A _} w.
Arguments dist_initialized {A _} w.

Module MultiHeadAttention.

(** The attributes [TPMultiHeadAttention.__init__] and [setup_tp] add. *)
Record TPAttrs : Type := mkTPAttrs {
  pre_tp_nheads : nat;
  pre_tp_kvheads : nat;
  rank : nat;
  world_size : nat
}.

(** The attributes of an instance; [tp] is [None] on a plain
    [MultiHeadAttention] and set on a [TPMultiHeadAttention]. *)
Record obj (A : Type) : Type := mkMHA {
  nheads : nat;
  kvheads : nat;
  emb_dim : nat;
  emb_kq_per_head : nat;
  emb_v_per_head : nat;
  p_dropout : Q;
  use_bias : bool;
  query : Linear A;
  key : Linear A;
  value : Linear A;
  dense : Linear A;
  attn_dropout : option Q;
  position_encoder : option (PositionEncoder A);
  previous_flash : bool;
  previous_mem_efficient : bool;
  previous_math : bool;
  rotary_emb : GaudiRotaryEmbedding.obj A;
  training : bool;
  device : Device;
  tp : option TPAttrs
}.
Arguments mkMHA {A}.
Arguments nheads {A} o.
Arguments kvheads {A} o.
Arguments emb_dim {A} o.
Arguments emb_kq_per_head {A} o.
Arguments emb_v_per_head {A} o.
Arguments p_dropout {A} o.
Arguments use_bias {A} o.
Arguments query {A} o.
Arguments key {A} o.
Arguments value {A} o.
Arguments dense {A} o.
Arguments attn_dropout {A} o.
Arguments position_encoder {A} o.
Arguments previous_flash {A} o.
Arguments previous_mem_efficient {A} o.
Arguments previous_math {A} o.
Arguments rotary_emb {A} o.
Arguments training {A} o.
Arguments device {A} o.
Arguments tp {A} o.

(** The arguments of [forward]. *)
Record Args : Type := mkArgs {
  q : loc;
  k : loc;
  v : loc;
  mask : option loc;
  position_ids : option loc;
  attn_algorithm : option string;
  past_key_value_state : option (loc * loc);
  use_cache : bool;
  is_self : bool;
  is_causal_mask : bool
}.

Section Methods.
Context {A : Type} `{!Torch A}.

(** The state [forward] runs in: the instance and the process. *)
Record Proc : Type := mkProc {
  self : obj A;
  world : World A
}.

Definition set_rotary (r : GaudiRotaryEmbedding.obj A) (o : obj A) : obj A :=
  mkMHA (nheads o) (kvheads o) (emb_dim o) (emb_kq_per_head o) (emb_v_per_head o)
    (p_dropout o) (use_bias o) (query o) (key o) (value o) (dense o) (attn_dropout o)
    (position_encoder o) (previous_flash o) (previous_mem_efficient o) (previous_math o)
    r (training o) (device o) (tp o).

Definition set_heap (h : list (Tensor A)) (w : World A) : World A :=
  mkWorld h (rng w) (backends w) (default_dtype w) (dist_initialized w).
Definition set_rng (g : Rng) (w : World A) : World A :=
  mkWorld (heap w) g (backends w) (default_dtype w) (dist_initialized w).
Definition set_backends (f : SdpFlags) (w : World A) : World A :=
  mkWorld (heap w) (rng w) f (default_dtype w) (dist_initialized w).

(** *** Tensor objects *)

Definition alloc (t : Tensor A) : M Proc loc :=
  fun p => (Ok (length (heap (world p))),
            mkProc (self p) (set_heap (heap (world p) ++ [t]) (world p))).

Definition deref (l : loc) : M Proc (Tensor A) :=
  fun p => match heap (world p) !! l with
           | Some t => (Ok t, p)
           | None => (Raise (RuntimeError "no such tensor object"), p)
           end.

(** A torch operation on one tensor: it reads its argument and returns a new
    tensor object. *)
Definition tensor_op (f : Tensor A -> Res (Tensor A)) (l : loc) : M Proc loc :=
  t <- deref l ;;
  r <- lift (f t) ;;
  alloc r.

Definition deref_opt (l : option loc) : M Proc (option (Tensor A)) :=
  match l with
  | Some l => t <- deref l ;; ret (Some t)
  | None => ret None
  end.

Definition deref_pair (l : option (loc * loc)) : M Proc (option (Tensor A * Tensor A)) :=
  match l with
  | Some (a, b) => ta <- deref a ;; tb <- deref b ;; ret (Some (ta, tb))
  | None => ret None
  end.

(** [self.rotary_emb(x, seq_len)] *)
Definition call_rotary_emb (x : loc) (seq_len : nat) : M Proc (loc * loc) :=
  tx <- deref x ;;
  cs <- (fun p =>
           let '(r, rot) := GaudiRotaryEmbedding.forward tx seq_len (rotary_emb (self p)) in
           (r, mkProc (set_rotary rot (self p)) (world p))) ;;
  c <- alloc (fst cs) ;;
  s <- alloc (snd cs) ;;
  ret (c, s).

(** [apply_gaudi_rope(q, k, cos, sin, position_ids)], lines 56-63 *)
Definition apply_gaudi_rope (q k cos sin position_ids : loc) : M Proc (loc * loc) :=
  tq <- deref q ;;
  tk <- deref k ;;
  tcos <- deref cos ;;
  tsin <- deref sin ;;
  tpos <- deref position_ids ;;
  let lead (t : Tensor A) := (u <~ unsqueeze 0 t ;; unsqueeze 0 u) in
  q' <- lift (c <~ lead tcos ;; s <~ lead tsin ;; FusedRoPE_apply tq c s tpos) ;;
  q' <- alloc q' ;;
  k' <- lift (c <~ lead tcos ;; s <~ lead tsin ;; FusedRoPE_apply tk c s tpos) ;;
  k' <- alloc k' ;;
  ret (q', k').

(** [layer(x).view(new_shape)] *)
Definition project (layer : Linear A) (x : loc) (new_shape : list nat) : M Proc loc :=
  tensor_op (fun t => y <~ nn_Linear_call layer t ;; view new_shape y) x.

(** Lines 248-258: merging with the cache handed in. *)
Definition merge_cache (a : Args) (keys values : option loc) :
  M Proc (option loc * option loc) :=
  match past_key_value_state a with
  | Some (pk, pv) =>
      if use_cache a then
        tpk <- deref pk ;;
        if decide (0 < numel tpk) then
          if is_self a then
            keys <- local "keys" keys ;;
            tkeys <- deref keys ;;
            keys <- lift (cat 2 tpk tkeys) ;;
            keys <- alloc keys ;;
            values <- local "values" values ;;
            tpv <- deref pv ;;
            tvalues <- deref values ;;
            values <- lift (cat 2 tpv tvalues) ;;
            values <- alloc values ;;
            ret (Some keys, Some values)
          else ret (Some pk, Some pv)
        else ret (keys, values)
      else ret (keys, values)
  | None => ret (keys, values)
  end.

(** Lines 264-265: [while len(mask.size()) != 4: mask = mask.unsqueeze(1)] *)
Fixpoint normalize_mask (fuel : nat) (mask : loc) : M Proc loc :=
  t <- deref mask ;;
  if decide (ndim t = 4) then ret mask
  else match fuel with
       | 0 => lift OutOfFuel
       | S fuel' =>
           mask <- tensor_op (unsqueeze 1) mask ;;
           normalize_mask fuel' mask
       end.

(** Lines 278-281: [t.unsqueeze(2).expand(-1, -1, expansion, -1, -1).flatten(1, 2)] *)
Definition expand_kv (expansion : nat) (t : Tensor A) : Res (Tensor A) :=
  u <~ unsqueeze 2 t ;;
  e <~ expand [None; None; Some expansion; None; None] u ;;
  flatten_1_2 e.

(** Python's truth value of [attn_algorithm]. *)
Definition truthy (s : option string) : bool :=
  match s with
  | Some EmptyString | None => false
  | Some _ => true
  end.

Definition str_eq (s : option string) (lit : string) : bool :=
  match s with
  | Some x => bool_decide (x = lit)
  | None => false
  end.

Definition put_backends (f : SdpFlags) : M Proc unit :=
  fun p => (Ok tt, mkProc (self p) (set_backends f (world p))).

(** A kernel call: it may consume random numbers (dropout). *)
Definition call_kernel
  (kernel : Tensor A -> Tensor A -> Tensor A -> option (Tensor A) -> Q -> bool ->
            Rng -> Res (Tensor A) * Rng)
  (queries keys_e values_e : loc) (attn_mask : option loc) (p : Q) (c : bool) : M Proc loc :=
  tq <- deref queries ;;
  tk <- deref keys_e ;;
  tv <- deref values_e ;;
  tm <- deref_opt attn_mask ;;
  r <- (fun s =>
          let '(r, g) := kernel tq tk tv tm p c (rng (world s)) in
          (r, mkProc (self s) (set_rng g (world s)))) ;;
  alloc r.

(** [nn.Linear(...)] draws the initial parameters from the generator. *)
Definition new_linear (in_features out_features : nat) (with_bias : bool) :
  M (World A) (Linear A) :=
  fun w => let '(l, g) := nn_Linear in_features out_features with_bias (rng w) in
           (Ok l, set_rng g w).

(** [nn.Dropout(p)] checks its argument. *)
Definition new_dropout (p : Q) : Res Q :=
  if Qle_bool 0 p && Qle_bool p 1 then Ok p
  else Raise (ValueError "dropout probability has to be between 0 and 1").

(** [__init__], lines 89-133.  A new module is in training mode and on the
    default device. *)
Definition __init__ (emb_dim emb_kq emb_v nheads kvheads : nat) (p_dropout : option Q)
  (use_bias : bool) (position_encoder : option (PositionEncoder A)) :
  M (World A) (obj A) :=
  let p := match p_dropout with Some p => p | None => 0%Q end in
  query <- new_linear emb_dim (nheads * emb_kq) use_bias ;;
  key <- new_linear emb_dim (kvheads * emb_kq) use_bias ;;
  value <- new_linear emb_dim (kvheads * emb_v) use_bias ;;
  dense <- new_linear (nheads * emb_v) emb_dim use_bias ;;
  attn_dropout <- lift (if Qeq_bool p 0 then Ok None
                        else (d <~ new_dropout p ;; Ok (Some d))) ;;
  w <- get ;;
  d <- lift (py_floordiv emb_dim nheads) ;;
  rot <- lift (GaudiRotaryEmbedding.__init__ d emb_dim 10000 1 (default_dtype w)) ;;
  ret (mkMHA nheads kvheads emb_dim emb_kq emb_v p use_bias query key value dense
         attn_dropout position_encoder
         (flash_sdp (backends w)) (mem_efficient_sdp (backends w)) (math_sdp (backends w))
         rot true cpu None).

(** Lines 188-244: the projections, on the fused path and on the other. *)
Definition project_qkv (a : Args) (batch_size q_len kv_len : nat) (queries : loc) :
  M Proc (loc * option loc * option loc) :=
  p <- get ;;
  let self := self p in
  if decide (device self = hpu) then
    queries <- tensor_op transpose_2_1 queries ;;
    if is_self a || bool_decide (past_key_value_state a = None) then
      keys <- project (key self) (k a)
                [batch_size; kv_len; kvheads self; emb_kq_per_head self] ;;
      values <- project (value self) (v a)
                  [batch_size; kv_len; kvheads self; emb_v_per_head self] ;;
      keys <- tensor_op transpose_2_1 keys ;;
      values <- tensor_op transpose_2_1 values ;;
      match position_encoder self with
      | Some _ =>
          tkeys <- deref keys ;;
          n <- lift (size_dim tkeys 2) ;;
          position_ids <- match position_ids a with
                          | Some ids => ret ids
                          | None =>
                              ids <- alloc (arange n int64) ;;
                              tensor_op (reshape [1; n]) ids
                          end ;;
          cs <- call_rotary_emb values n ;;
          qk <- apply_gaudi_rope queries keys (fst cs) (snd cs) position_ids ;;
          ret (fst qk, Some (snd qk), Some values)
      | None => ret (queries, Some keys, Some values)
      end
    else ret (queries, None, None)
  else
    qkv <- (if is_self a || bool_decide (past_key_value_state a = None) then
              keys <- project (key self) (k a)
                        [batch_size; kv_len; kvheads self; emb_kq_per_head self] ;;
              values <- project (value self) (v a)
                          [batch_size; kv_len; kvheads self; emb_v_per_head self] ;;
              match position_encoder self with
              | Some pe =>
                  tq <- deref queries ;;
                  tk <- deref keys ;;
                  tpos <- deref_opt (position_ids a) ;;
                  tpast <- deref_pair (past_key_value_state a) ;;
                  qk <- lift (adjusted_qk pe tq tk tpos tpast (use_cache a)) ;;
                  queries <- alloc (fst qk) ;;
                  keys <- alloc (snd qk) ;;
                  ret (queries, Some keys, Some values)
              | None => ret (queries, Some keys, Some values)
              end
            else ret (queries, None, None)) ;;
    let '(queries, keys, values) := qkv in
    queries <- tensor_op transpose_2_1 queries ;;
    keys <- local "keys" keys ;;
    keys <- tensor_op transpose_2_1 keys ;;
    values <- local "values" values ;;
    values <- tensor_op transpose_2_1 values ;;
    ret (queries, Some keys, Some values).

(** Lines 274-284: the keys and values handed to the kernel. *)
Definition expand_heads (keys values : option loc) : M Proc (loc * loc) :=
  p <- get ;;
  let self := self p in
  expansion <- lift (py_floordiv (nheads self) (kvheads self)) ;;
  if decide (expansion <> 1) then
    keys <- local "keys" keys ;;
    keys_e <- tensor_op (expand_kv expansion) keys ;;
    values <- local "values" values ;;
    values_e <- tensor_op (expand_kv expansion) values ;;
    ret (keys_e, values_e)
  else
    keys_e <- local "keys" keys ;;
    values_e <- local "values" values ;;
    ret (keys_e, values_e).

(** Lines 286-326: the kernel call. *)
Definition attend (a : Args) (queries keys_e values_e : loc) (attn_mask : option loc) :
  M Proc loc :=
  p <- get ;;
  let self := self p in
  let dropout := if training self then p_dropout self else 0%Q in
  if decide (device self = hpu) then
    call_kernel FusedSDPA_apply queries keys_e values_e attn_mask dropout (is_causal_mask a)
  else
    (if truthy (attn_algorithm a)
     then put_backends (mkSdpFlags (str_eq (attn_algorithm a) "flash")
                                   (str_eq (attn_algorithm a) "mem")
                                   (str_eq (attn_algorithm a) "math"))
     else ret tt) ;;;
    p <- get ;;
    attn <- call_kernel (scaled_dot_product_attention (backends (world p)))
              queries keys_e values_e attn_mask dropout (is_causal_mask a) ;;
    (if truthy (attn_algorithm a)
     then put_backends (mkSdpFlags (previous_flash self) (previous_mem_efficient self)
                                   (previous_math self))
     else ret tt) ;;;
    ret attn.

(** [forward], lines 145-344.  [fuel] bounds the iterations of the mask loop.
    The result is [(out, None)] for [return out] and [(out, Some (keys, values))]
    for [return out, (keys, values)]. *)
Definition forward (fuel : nat) (a : Args) : M Proc (loc * option (loc * loc)) :=
  p <- get ;;
  let self := self p in
  tq <- deref (q a) ;;
  bq <- lift (match shape tq with
              | [b; ql; _] => Ok (b, ql)
              | _ => Raise (ValueError "wrong number of values to unpack")
              end) ;;
  let batch_size := fst bq in
  let q_len := snd bq in
  tk <- deref (k a) ;;
  kv_len <- lift (size_dim tk 1) ;;
  queries <- project (query self) (q a)
               [batch_size; q_len; nheads self; emb_kq_per_head self] ;;
  qkv <- project_qkv a batch_size q_len kv_len queries ;;
  let '(queries, keys, values) := qkv in
  kv <- merge_cache a keys values ;;
  let '(keys, values) := kv in
  mask <- match mask a with
          | Some m => m <- normalize_mask fuel m ;; ret (Some m)
          | None => ret None
          end ;;
  attn_mask <- match position_encoder self with
               | Some pe =>
                   tm <- deref_opt mask ;;
                   tq <- deref queries ;;
                   keys <- local "keys" keys ;;
                   tk <- deref keys ;;
                   tpast <- deref_pair (past_key_value_state a) ;;
                   r <- lift (adjusted_mask pe tm tq tk tpast (use_cache a)) ;;
                   match r with
                   | Some t => m <- alloc t ;; ret (Some m)
                   | None => ret None
                   end
               | None => ret mask
               end ;;
  kve <- expand_heads keys values ;;
  attn <- attend a queries (fst kve) (snd kve) attn_mask ;;
  attn <- tensor_op (fun t => u <~ transpose_2_1 t ;;
                              view [batch_size; q_len; nheads self * emb_v_per_head self] u)
            attn ;;
  out <- tensor_op (nn_Linear_call (dense self)) attn ;;
  if use_cache a then
    keys <- local "keys" keys ;;
    values <- local "values" values ;;
    ret (out, Some (keys, values))
  else ret (out, None).

End Methods.
End MultiHeadAttention.

(** ** TPMultiHeadAttention *)

(** [TPModule.sharded_copy] of [fms.modules.tp], which [TPMultiHeadAttention]
    inherits: [self.sharded_copy(param, tensor_value, dim, max_partition_sizes,
    is_sharded)] gives the new contents of [param] on this worker. *)
Class TPModule (A : Type) : Type := {
  sharded_copy :
    MultiHeadAttention.TPAttrs -> Tensor A -> Tensor A -> nat -> list nat -> bool ->
    Res (Tensor A)
}.

(** [reduce_from_tensor_model_parallel_region] of
    [fms.distributed.tensorparallel], as one worker sees it: what the
    collective hands back for the tensor the worker contributes. *)
Class Collective (A : Type) : Type := {
  reduce_from_tensor_model_parallel_region : Tensor A -> Res (Tensor A)
}.

(** [nn.init.trunc_normal_(tensor, mean, std)]: the new contents of the
    tensor, drawn from the generator. *)
Class TorchInit (A : Type) `{!Torch A} : Type := {
  trunc_normal_ : Tensor A -> Q -> Q -> Rng -> Tensor A * Rng
}.

Module TPMultiHeadAttention.
Import MultiHeadAttention.

Section Methods.
Context {A : Type} `{!Torch A}.

(** Modelled from the spec: [distributed.rank_and_world] of [fms.distributed]
    is not among the sources; the partition descriptor it returns is the rank
    index and the total worker count of the group. *)
Definition rank_and_world (group : ProcessGroup) : nat * nat :=
  (pg_rank group, pg_world_size group).

(** Modelled from the spec: [TPModule.setup_tp] is not among the sources; it
    records the rank and the worker count on the instance. *)
Definition setup_tp (pre_nheads pre_kvheads rank world_size : nat) (o : obj A) : obj A :=
  mkMHA (nheads o) (kvheads o) (emb_dim o) (emb_kq_per_head o) (emb_v_per_head o)
    (p_dropout o) (use_bias o) (query o) (key o) (value o) (dense o) (attn_dropout o)
    (position_encoder o) (previous_flash o) (previous_mem_efficient o) (previous_math o)
    (rotary_emb o) (training o) (device o)
    (Some (mkTPAttrs pre_nheads pre_kvheads rank world_size)).

(** The condition of the second head-count assertion, lines 380-382, with
    Python's short-circuit evaluation. *)
Definition kv_divisible (kvheads world_size : nat) : Res bool :=
  c <~ (if bool_decide (world_size <= kvheads)
        then (r <~ py_mod kvheads world_size ;; Ok (bool_decide (r = 0)))
        else Ok false) ;;
  if c : bool then Ok true
  else if bool_decide (kvheads < world_size)
       then (r <~ py_mod world_size kvheads ;; Ok (bool_decide (r = 0)))
       else Ok false.

(** [__init__], lines 362-396 *)
Definition __init__ (emb_dim emb_kq emb_v nheads kvheads : nat) (p_dropout : option Q)
  (use_bias : bool) (position_encoder : option (PositionEncoder A))
  (group : ProcessGroup) : M (World A) (obj A) :=
  w <- get ;;
  lift (py_assert (dist_initialized w) None) ;;;
  let '(rank, world_size) := rank_and_world group in
  r <- lift (py_mod nheads world_size) ;;
  lift (py_assert (bool_decide (r = 0))
          (Some "The number of heads must be divisible by world size")) ;;;
  c <- lift (kv_divisible kvheads world_size) ;;
  lift (py_assert c
          (Some "the kv heads must be divisible by the world size or the world size must be divisible by kv heads")) ;;;
  local_nheads <- lift (py_floordiv nheads world_size) ;;
  local_kvheads <- (if bool_decide (world_size <= kvheads)
                    then lift (py_floordiv kvheads world_size)
                    else ret 1) ;;
  o <- MultiHeadAttention.__init__ emb_dim emb_kq emb_v local_nheads local_kvheads
         p_dropout use_bias position_encoder ;;
  ret (setup_tp nheads kvheads rank world_size o).

(** [import_module(mha, group)], lines 445-460: a new instance from the
    attributes of [mha]. *)
Definition import_module (mha : obj A) (group : ProcessGroup) : M (World A) (obj A) :=
  __init__ (emb_dim mha) (emb_kq_per_head mha) (emb_v_per_head mha) (nheads mha)
    (kvheads mha) (Some (p_dropout mha)) (use_bias mha) (position_encoder mha) group.

(** [MultiHeadAttention.to_tp(self, group)], lines 142-143 *)
Definition to_tp (self : obj A) (group : ProcessGroup) : M (World A) (obj A) :=
  import_module self group.

Definition set_linears (q k v d : Linear A) (o : obj A) : obj A :=
  mkMHA (nheads o) (kvheads o) (emb_dim o) (emb_kq_per_head o) (emb_v_per_head o)
    (p_dropout o) (use_bias o) q k v d (attn_dropout o)
    (position_encoder o) (previous_flash o) (previous_mem_efficient o) (previous_math o)
    (rotary_emb o) (training o) (device o) (tp o).

Definition tp_attrs : M (obj A) TPAttrs :=
  o <- get ;;
  match tp o with
  | Some t => ret t
  | None => raise (RuntimeError "the instance has no tensor-parallel attributes")
  end.

(** [k.endswith(sfx)] *)
Definition ends_with (k sfx : string) : Prop :=
  list_ascii_of_string sfx `suffix_of` list_ascii_of_string k.

#[export] Instance ends_with_dec k sfx : Decision (ends_with k sfx).
Proof. unfold ends_with. apply _. Defined.

(** [".".join(names)] *)
Definition param_name (names : list string) : string := String.concat "." names.

(** Modelled from the spec: [TPModule._get_sd_weight] is not among the
    sources.  The spec has the projection weights extracted by name suffix,
    from keys of the form [<component>.<weight|bias>]: the lookup returns the
    tensor of the entry whose key ends in the dotted name and adds that key to
    [used_keys].  The spec does not say what a lookup does when no entry, or
    more than one, carries the suffix; it is taken to raise. *)
Definition _get_sd_weight (state_dict : gmap string (Tensor A)) (used_keys : gset string)
  (names : list string) : Res (Tensor A * gset string) :=
  match map_to_list (filter (fun kt => ends_with (fst kt) (param_name names)) state_dict) with
  | [(k, t)] => Ok (t, {[k]} ∪ used_keys)
  | [] => Raise (ValueError "Weight not found")
  | _ => Raise (ValueError "Conflicting weights were found")
  end.

Section LoadWeights.
Context `{!TPModule A}.

(** [self.sharded_copy(self.<layer>.weight, value, dim, sizes)]: the copy
    writes the parameter of the instance in place. *)
Definition copy_weight (get_layer : obj A -> Linear A)
  (set_layer : Linear A -> obj A -> obj A)
  (value : Tensor A) (dim : nat) (sizes : list nat) : M (obj A) unit :=
  t <- tp_attrs ;;
  o <- get ;;
  w <- lift (sharded_copy t (weight (get_layer o)) value dim sizes true) ;;
  put (set_layer (mkLinear w (bias (get_layer o))) o).

Definition copy_bias (get_layer : obj A -> Linear A)
  (set_layer : Linear A -> obj A -> obj A)
  (value : Tensor A) (dim : nat) (sizes : list nat) (is_sharded : bool) : M (obj A) unit :=
  t <- tp_attrs ;;
  o <- get ;;
  match bias (get_layer o) with
  | Some b =>
      b <- lift (sharded_copy t b value dim sizes is_sharded) ;;
      put (set_layer (mkLinear (weight (get_layer o)) (Some b)) o)
  | None => raise (RuntimeError "the layer has no bias")
  end.

Definition set_query (l : Linear A) (o : obj A) := set_linears l (key o) (value o) (dense o) o.
Definition set_key (l : Linear A) (o : obj A) := set_linears (query o) l (value o) (dense o) o.
Definition set_value (l : Linear A) (o : obj A) := set_linears (query o) (key o) l (dense o) o.
Definition set_dense (l : Linear A) (o : obj A) := set_linears (query o) (key o) (value o) l o.

(** Lines 402-424: the lookups, in order, threading [used_keys]. *)
Definition grab_weights (use_bias : bool) (tensor_values : gmap string (Tensor A)) :
  Res ((Tensor A * Tensor A * Tensor A * Tensor A)
       * option (Tensor A * Tensor A * Tensor A * Tensor A) * gset string) :=
  let used_keys : gset string := ∅ in
  qw <~ _get_sd_weight tensor_values used_keys ["query"; "weight"] ;;
  kw <~ _get_sd_weight tensor_values (snd qw) ["key"; "weight"] ;;
  vw <~ _get_sd_weight tensor_values (snd kw) ["value"; "weight"] ;;
  dw <~ _get_sd_weight tensor_values (snd vw) ["dense"; "weight"] ;;
  if use_bias then
    qb <~ _get_sd_weight tensor_values (snd dw) ["query"; "bias"] ;;
    kb <~ _get_sd_weight tensor_values (snd qb) ["key"; "bias"] ;;
    vb <~ _get_sd_weight tensor_values (snd kb) ["value"; "bias"] ;;
    db <~ _get_sd_weight tensor_values (snd vb) ["dense"; "bias"] ;;
    Ok ((fst qw, fst kw, fst vw, fst dw), Some (fst qb, fst kb, fst vb, fst db), snd db)
  else Ok ((fst qw, fst kw, fst vw, fst dw), None, snd dw).

(** [load_weights], lines 398-443 *)
Definition load_weights (tensor_values : gmap string (Tensor A)) : M (obj A) unit :=
  self <- get ;;
  (* 1. Grab the weights from tensor_values *)
  g <- lift (grab_weights (use_bias self) tensor_values) ;;
  let '(weights, biases, used_keys) := g in
  (* 2. Raise exceptions *)
  (if bool_decide ((if use_bias self then 8 else 4) < size tensor_values)
   then raise (AttributeError (dom tensor_values ∖ used_keys))
   else ret tt) ;;;
  (* 3. Load and shard the weights *)
  t <- tp_attrs ;;
  let '(query_weight, key_weight, value_weight, dense_weight) := weights in
  copy_weight query set_query query_weight 0 [pre_tp_nheads t] ;;;
  copy_weight key set_key key_weight 0 [pre_tp_kvheads t] ;;;
  copy_weight value set_value value_weight 0 [pre_tp_kvheads t] ;;;
  copy_weight dense set_dense dense_weight 1 [world_size t] ;;;
  if use_bias self then
    b <- local "query_bias" biases ;;
    let '(query_bias, key_bias, value_bias, dense_bias) := b in
    copy_bias query set_query query_bias 0 [pre_tp_nheads t] true ;;;
    copy_bias key set_key key_bias 0 [pre_tp_kvheads t] true ;;;
    copy_bias value set_value value_bias 0 [pre_tp_kvheads t] true ;;;
    copy_bias dense set_dense dense_bias 1 [world_size t] false
  else ret tt.

End LoadWeights.

Section ResetParameters.
Context `{!TorchInit A}.

(** [t.data.zero_()] *)
Definition zero_ (t : Tensor A) : Tensor A :=
  mkTensor (shape t) (dtype t) (map (fun _ => sc_of_nat 0) (data t)).

(** The body of the loop of [reset_parameters] on one [nn.Linear]: the
    weight is drawn anew, then the bias is zeroed when the instance has bias
    terms.  Reading [.data] of a bias that is [None] raises
    [AttributeError] (here without names of unused weights). *)
Definition reset_linear (get_layer : obj A -> Linear A)
  (set_layer : Linear A -> obj A -> obj A) : M Proc unit :=
  p <- get ;;
  let m := get_layer (self p) in
  let '(wt, g) := trunc_normal_ (weight m) 0 (2 # 100) (rng (world p)) in
  put (mkProc (set_layer (mkLinear wt (bias m)) (self p)) (set_rng g (world p))) ;;;
  if use_bias (self p) then
    match bias m with
    | Some b =>
        p <- get ;;
        put (mkProc (set_layer (mkLinear wt (Some (zero_ b))) (self p)) (world p))
    | None => raise (AttributeError ∅)
    end
  else ret tt.

(** [MultiHeadAttention.reset_parameters], lines 135-140, which the wrapper
    inherits.  [self.modules()] yields the submodules in the order they were
    assigned in [__init__]; the [nn.Linear] among them are query, key, value
    and dense (the dropout layer and the rotary embedding are not, and the
    position encoders of [fms.modules.positions] hold none). *)
Definition reset_parameters : M Proc unit :=
  reset_linear query set_query ;;;
  reset_linear key set_key ;;;
  reset_linear value set_value ;;;
  reset_linear dense set_dense.

End ResetParameters.

(** Modelled from the spec: [copy_to_tensor_model_parallel_region] of
    [fms.distributed.tensorparallel] is not among the sources; each worker
    receives the full tensor value. *)
Definition copy_to_tensor_model_parallel_region (t : Tensor A) : Res (Tensor A) := Ok t.

(** Lines 479-496 of [forward]: the copies and the call of
    [MultiHeadAttention.forward]. *)
Definition forward_par (fuel : nat) (a : Args) : M Proc (loc * option (loc * loc)) :=
  q_par <- tensor_op copy_to_tensor_model_parallel_region (q a) ;;
  k_par <- tensor_op copy_to_tensor_model_parallel_region (k a) ;;
  v_par <- tensor_op copy_to_tensor_model_parallel_region (v a) ;;
  MultiHeadAttention.forward fuel
    (mkArgs q_par k_par v_par (mask a) (position_ids a) (attn_algorithm a)
       (past_key_value_state a) (use_cache a) (is_self a) (is_causal_mask a)).

Section Forward.
Context `{!Collective A}.

(** [forward], lines 462-505 *)
Definition forward (fuel : nat) (a : Args) : M Proc (loc * option (loc * loc)) :=
  out_par <- forward_par fuel a ;;
  if use_cache a then
    out <- tensor_op reduce_from_tensor_model_parallel_region (fst out_par) ;;
    ret (out, snd out_par)
  else
    out <- tensor_op reduce_from_tensor_model_parallel_region (fst out_par) ;;
    ret (out, None).

End Forward.

(** *** The workers of a group

    Every worker runs the same [forward] in its own process. *)

Definition tensor_add (a b : Tensor A) : Res (Tensor A) :=
  if decide (shape a = shape b)
  then Ok (mkTensor (shape a) (dtype a) (zip_with sc_add (data a) (data b)))
  else Raise (RuntimeError "The size of the tensors must match").

(** Modelled from the spec: [reduce_from_tensor_model_parallel_region] of
    [fms.distributed.tensorparallel] is not among the sources; the spec has it
    as a blocking sum across all workers of the group, so every worker gets
    the element-wise sum of what the workers contributed. *)
Definition all_reduce_sum (ts : list (Tensor A)) : Res (Tensor A) :=
  match ts with
  | [] => Raise (RuntimeError "empty group")
  | t :: rest => foldl (fun acc u => a <~ acc ;; tensor_add a u) (Ok t) rest
  end.

(** Modelled from the spec: the collective of worker [r], given what every
    worker contributes; the library function is not among the sources. *)
Definition group_collective (r : nat) (contributed : list (Tensor A)) : Collective A :=
  {| reduce_from_tensor_model_parallel_region :=
       fun own => all_reduce_sum (<[r:=own]> contributed) |}.

(** What a worker contributes to the reduction: its local output. *)
Definition contribution (fuel : nat) (pa : Proc * Args) : Res (Tensor A) :=
  match forward_par fuel (snd pa) (fst pa) with
  | (Ok out_par, p') =>
      match heap (world p') !! fst out_par with
      | Some t => Ok t
      | None => Raise (RuntimeError "no such tensor object")
      end
  | (Raise e, _) => Raise e
  | (OutOfFuel, _) => OutOfFuel
  end.

Fixpoint all_ok {X} (rs : list (Res X)) : Res (list X) :=
  match rs with
  | [] => Ok []
  | r :: rs' => x <~ r ;; xs <~ all_ok rs' ;; Ok (x :: xs)
  end.

(** The group's run of [forward]: when every worker reaches the reduction,
    each worker's result and final state. *)
Definition group_forward (fuel : nat) (workers : list (Proc * Args)) :
  Res (list (Res (loc * option (loc * loc)) * Proc)) :=
  contributed <~ all_ok (map (contribution fuel) workers) ;;
  Ok (imap (fun r pa =>
              @forward (group_collective r contributed) fuel (snd pa) (fst pa))
           workers).

End Methods.
End TPMultiHeadAttention.

(** ** An instance over the integers

    Integer stand-ins for the numeric library, used to run the model on
    concrete inputs: a linear layer that multiplies by its weight matrix, and
    kernels that check the shapes they are given. *)

Module IntTorch.

Definition dot (x w : list Z) : Z := foldr Z.add 0%Z (zip_with Z.mul x w).

Definition linear_call (l : Linear Z) (x : Tensor Z) : Res (Tensor Z) :=
  match shape (weight l), reverse (shape x) with
  | [out_f; in_f], last :: lead =>
      if decide (last = in_f) then
        let rows := chunks in_f (prod_list lead) (data x) in
        let wrows := chunks in_f out_f (data (weight l)) in
        let b := match bias l with
                 | Some b => data b
                 | None => replicate out_f 0%Z
                 end in
        Ok (mkTensor (reverse (out_f :: lead)) (dtype x)
              (flat_map (fun r => zip_with Z.add (map (dot r) wrows) b) rows))
      else Raise (RuntimeError "mat1 and mat2 shapes cannot be multiplied")
  | _, _ => Raise (RuntimeError "linear: bad shapes")
  end.

Definition new_linear (in_f out_f : nat) (with_bias : bool) (g : nat) : Linear Z * nat :=
  (mkLinear
     (mkTensor [out_f; in_f] float32
        (map (fun i => Z.of_nat ((i + g) mod 3)) (seq 0 (out_f * in_f))))
     (if with_bias then Some (mkTensor [out_f] float32 (replicate out_f 1%Z)) else None),
   S g).

Definition kernel (q k v : Tensor Z) (m : option (Tensor Z)) (p : Q) (c : bool) (g : nat) :
  Res (Tensor Z) * nat :=
  match shape q, shape k, shape v with
  | [b; h; ql; d], [b1; h1; kl; d1], [b2; h2; kl2; dv] =>
      if decide (b = b1 /\ b = b2 /\ h = h1 /\ h = h2 /\ d = d1 /\ kl = kl2)
      then (Ok (mkTensor [b; h; ql; dv] (dtype q)
                  (replicate (b * h * ql * dv) (foldr Z.add 0%Z (data v)))), S g)
      else (Raise (RuntimeError "attention: shapes do not match"), g)
  | _, _, _ => (Raise (RuntimeError "attention: expected 4-D tensors"), g)
  end.

Definition cast (d : DType) (x : Z) : Z :=
  match d with
  | bfloat16 => (x / 256 * 256)%Z
  | float16 => (x / 16 * 16)%Z
  | _ => x
  end.

#[export] Instance torch : Torch Z := {|
  Rng := nat;
  sc_of_nat := Z.of_nat;
  sc_mul := Z.mul;
  sc_add := Z.add;
  sc_cos := fun x => (1000 - x)%Z;
  sc_sin := fun x => x;
  sc_cast := cast;
  sc_inv_freq := fun _ _ k => Z.of_nat (S k);
  nn_Linear := new_linear;
  nn_Linear_call := linear_call;
  scaled_dot_product_attention := fun _ => kernel;
  FusedSDPA_apply := kernel;
  FusedRoPE_apply := fun x _ _ _ => Ok x
|}.

(** A position encoder that leaves queries, keys and mask as they are. *)
Definition identity_encoder : PositionEncoder Z :=
  mkPositionEncoder Z (fun m _ _ _ _ => Ok m) (fun q k _ _ _ => Ok (q, k)).

(** A worker copies the whole tensor it is given. *)
#[export] Instance tp_module : TPModule Z := {|
  sharded_copy := fun _ _ value _ _ _ => Ok value
|}.

Definition world0 : World Z :=
  mkWorld [] 0 (mkSdpFlags true true true) float32 true.

End IntTorch.

(** * Properties *)

(** ** Running computations *)

Section MonadFacts.
Context {S X Y : Type}.
Implicit Types (m : M S X) (k : X -> M S Y).

Lemma bind_run m k s x s' : m s = (Ok x, s') -> bind m k s = k x s'.
Proof. intros H. unfold bind. by rewrite H. Qed.

Lemma bind_raise m k s e s' : m s = (Raise e, s') -> bind m k s = (Raise e, s').
Proof. intros H. unfold bind. by rewrite H. Qed.

Lemma bind_out_of_fuel m k s s' : m s = (OutOfFuel, s') -> bind m k s = (OutOfFuel, s').
Proof. intros H. unfold bind. by rewrite H. Qed.

Lemma bind_inv_ok m k s y s'' :
  bind m k s = (Ok y, s'') -> exists x s', m s = (Ok x, s') /\ k x s' = (Ok y, s'').
Proof.
  unfold bind. destruct (m s) as [[x| |] s'] eqn:E; intros H; try done. eauto.
Qed.

Lemma bind_lift_ok (r : Res X) k s x : r = Ok x -> bind (lift r) k s = k x s.
Proof. intros ->. done. Qed.

Lemma bind_lift_raise (r : Res X) k s e : r = Raise e -> bind (lift r) k s = (Raise e, s).
Proof. intros ->. done. Qed.

End MonadFacts.

(** ** Lists cut into blocks *)

Section Blocks.
Context {A : Type}.
Implicit Types l : list A.

Lemma length_flat_map_uniform {B} (f : B -> list A) (sz : nat) (xs : list B) :
  (forall x, length (f x) = sz) -> length (flat_map f xs) = length xs * sz.
Proof.
  intros Hf. induction xs as [|x xs IH]; simpl; [done|].
  rewrite length_app, Hf, IH. lia.
Qed.

Lemma chunks_flat_map {B} (f : B -> list A) (sz : nat) (xs : list B) :
  (forall x, length (f x) = sz) ->
  chunks sz (length xs) (flat_map f xs) = map f xs.
Proof.
  intros Hf. induction xs as [|x xs IH]; simpl; [done|].
  rewrite take_app_length' by (symmetry; apply Hf).
  rewrite drop_app_length' by (symmetry; apply Hf).
  by rewrite IH.
Qed.

Lemma take_flat_map {B} (f : B -> list A) (sz : nat) (xs ys : list B) :
  (forall x, length (f x) = sz) ->
  take (length xs * sz) (flat_map f (xs ++ ys)) = flat_map f xs.
Proof.
  intros Hf. rewrite flat_map_app.
  apply take_app_length'. symmetry. by apply length_flat_map_uniform.
Qed.

Lemma zip_with_app_map {B} (f g : B -> list A) (xs : list B) :
  zip_with app (map f xs) (map g xs) = map (fun x => f x ++ g x) xs.
Proof. induction xs as [|x xs IH]; simpl; [done|]. by rewrite IH. Qed.

Lemma concat_map_flat_map {B} (f : B -> list A) (xs : list B) :
  concat (map f xs) = flat_map f xs.
Proof. induction xs as [|x xs IH]; simpl; [done|]. by rewrite IH. Qed.

Lemma length_chunks (sz n : nat) l : length (chunks sz n l) = n.
Proof. revert l. induction n as [|n IH]; intros l; simpl; [done|]. by rewrite IH. Qed.

Lemma concat_chunks (sz n : nat) l :
  length l = n * sz -> concat (chunks sz n l) = l.
Proof.
  revert l. induction n as [|n IH]; intros l Hl; simpl.
  - by destruct l.
  - rewrite IH; [apply take_drop|]. rewrite length_drop. lia.
Qed.

Lemma chunks_lookup (sz n i : nat) l :
  i < n -> chunks sz n l !! i = Some (block sz i l).
Proof.
  revert i l. induction n as [|n IH]; intros i l Hi; [lia|].
  destruct i as [|i]; simpl.
  - unfold block. by rewrite drop_0.
  - rewrite IH by lia. unfold block. rewrite drop_drop. do 2 f_equal.
Qed.

End Blocks.

(** ** The rotary tables *)

Section RotaryFacts.
Context {A : Type} `{!Torch A}.
Import GaudiRotaryEmbedding.

(** The tables of an instance are generated: they are what
    [_set_cos_sin_cache] stores for the cached length and some dtype.
    [__init__] establishes this and [forward] keeps it. *)
Definition generated (s : obj A) : Prop :=
  exists dt, _set_cos_sin_cache (max_seq_len_cached s) dt s = (Ok tt, s).

(** Row [i] of [emb]: the frequencies of position [i], twice. *)
Definition emb_row (inv : Tensor A) (i : nat) : list A :=
  map (sc_mul (sc_of_nat i)) (data inv) ++ map (sc_mul (sc_of_nat i)) (data inv).

Definition emb_table (n : nat) (inv : Tensor A) : Tensor A :=
  mkTensor [n; length (data inv) + length (data inv)] (dtype inv)
    (flat_map (emb_row inv) (seq 0 n)).

Lemma length_emb_row inv i :
  length (emb_row inv i) = length (data inv) + length (data inv).
Proof. unfold emb_row. by rewrite length_app, !length_map. Qed.

Lemma emb_closed_form n inv : emb n inv = Ok (emb_table n inv).
Proof.
  unfold emb, emb_table, cat, outer, arange. simpl.
  rewrite length_map, length_seq.
  destruct (decide _) as [_|Hn]; [|by destruct Hn].
  simpl. rewrite !Nat.mul_1_r. f_equal. f_equal.
  rewrite flat_map_concat_map, map_map, <- flat_map_concat_map.
  pose proof (chunks_flat_map
    (fun i => map (sc_mul (sc_of_nat i)) (data inv)) (length (data inv)) (seq 0 n)) as Hc.
  rewrite length_seq in Hc. rewrite Hc by (intros; apply length_map).
  rewrite zip_with_app_map. apply concat_map_flat_map.
Qed.

Lemma to_idem d (t : Tensor A) : to d (to d t) = to d t.
Proof.
  unfold to. destruct (decide (dtype t = d)) as [Hd|Hd].
  - by rewrite decide_True.
  - simpl. by rewrite decide_True.
Qed.

Lemma dtype_to d (t : Tensor A) : dtype (to d t) = d.
Proof. unfold to. by destruct (decide _). Qed.


Lemma slice_rows_to n d (t : Tensor A) :
  slice_rows n (to d t) = res_bind (slice_rows n t) (fun u => Ok (to d u)).
Proof.
  unfold to, slice_rows. destruct (decide (dtype t = d)) as [Hd|Hd]; simpl.
  - destruct (shape t); simpl; [done|]. by rewrite decide_True.
  - destruct (shape t) eqn:Hs; simpl; [done|]. rewrite decide_False by done.
    by rewrite firstn_map.
Qed.

Lemma slice_rows_tmap n f (t : Tensor A) :
  slice_rows n (tmap f t) = res_bind (slice_rows n t) (fun u => Ok (tmap f u)).
Proof.
  unfold tmap, slice_rows. simpl. destruct (shape t); simpl; [done|].
  by rewrite firstn_map.
Qed.

(** The first rows of a generated table are the table generated for fewer
    positions. *)
Lemma slice_rows_emb_table n m inv :
  slice_rows n (emb_table m inv) = Ok (emb_table (Nat.min n m) inv).
Proof.
  unfold slice_rows, emb_table. simpl. f_equal. f_equal.
  rewrite Nat.mul_1_r.
  assert (seq 0 m = seq 0 (Nat.min n m) ++ seq (Nat.min n m) (m - Nat.min n m)) as ->.
  { rewrite <- seq_app. f_equal. lia. }
  pose proof (take_flat_map (emb_row inv) (length (data inv) + length (data inv))
                (seq 0 (Nat.min n m)) (seq (Nat.min n m) (m - Nat.min n m))) as Ht.
  rewrite length_seq in Ht. apply Ht. apply length_emb_row.
Qed.

(** The table [_set_cos_sin_cache] stores for [n] positions in dtype [dt]. *)
Definition table (f : A -> A) (dt : DType) (n : nat) (inv : Tensor A) : Tensor A :=
  to dt (tmap f (emb_table n inv)).

Lemma slice_rows_table k f dt n inv :
  slice_rows k (table f dt n inv) = Ok (table f dt (Nat.min k n) inv).
Proof.
  unfold table. rewrite slice_rows_to, slice_rows_tmap, slice_rows_emb_table. done.
Qed.

Lemma set_cache_run n dt (s : obj A) :
  _set_cos_sin_cache n dt s =
  (Ok tt, mkRotary (scaling_factor s) (dim s) (max_position_embeddings s) (base s)
            (inv_freq s) n (table sc_cos dt n (inv_freq s)) (table sc_sin dt n (inv_freq s))).
Proof.
  unfold _set_cos_sin_cache, bind, get, lift, put. by rewrite emb_closed_form.
Qed.

Lemma set_cache_generated n dt (s s' : obj A) :
  _set_cos_sin_cache n dt s = (Ok tt, s') -> generated s'.
Proof.
  rewrite set_cache_run. intros [= <-]. exists dt. by rewrite set_cache_run.
Qed.

Lemma generated_tables (s : obj A) :
  generated s ->
  exists dt, _cos_cached s = table sc_cos dt (max_seq_len_cached s) (inv_freq s)
          /\ _sin_cached s = table sc_sin dt (max_seq_len_cached s) (inv_freq s).
Proof.
  intros [dt Hs]. exists dt. rewrite set_cache_run in Hs.
  injection Hs as Hs. split; rewrite <- Hs at 1; done.
Qed.

Lemma rotary_init_generated d mpe b sf dt (s : obj A) :
  __init__ d mpe b sf dt = Ok s -> generated s.
Proof.
  unfold __init__. rewrite set_cache_run. intros [= <-].
  exists dt. by rewrite set_cache_run.
Qed.

Lemma rotary_init_returns d mpe b sf dt : exists s : obj A, __init__ d mpe b sf dt = Ok s.
Proof. unfold __init__. rewrite set_cache_run. eauto. Qed.

(** A request for a length the tables cover: no regeneration. *)
Lemma forward_covered (s : obj A) x n :
  generated s -> n <= max_seq_len_cached s ->
  exists dt,
    _cos_cached s = table sc_cos dt (max_seq_len_cached s) (inv_freq s) /\
    _sin_cached s = table sc_sin dt (max_seq_len_cached s) (inv_freq s) /\
    forward x n s =
    (Ok (to (dtype x) (table sc_cos dt n (inv_freq s)),
         to (dtype x) (table sc_sin dt n (inv_freq s))), s).
Proof.
  intros Hg Hn. destruct (generated_tables s Hg) as (dt & Hc & Hs).
  exists dt. split; [done|]. split; [done|].
  unfold forward, bind, get, lift, ret.
  rewrite decide_False by lia.
  rewrite Hc, Hs, !slice_rows_table.
  by replace (Nat.min n (max_seq_len_cached s)) with n by lia.
Qed.

(** A request beyond what the tables cover: they are generated anew, for the
    requested length and in the dtype of the request. *)
Lemma forward_regenerates (s : obj A) x n :
  max_seq_len_cached s < n ->
  exists s',
    _set_cos_sin_cache n (dtype x) s = (Ok tt, s') /\
    max_seq_len_cached s' = n /\
    inv_freq s' = inv_freq s /\
    _cos_cached s' = table sc_cos (dtype x) n (inv_freq s) /\
    _sin_cached s' = table sc_sin (dtype x) n (inv_freq s) /\
    forward x n s = (Ok (_cos_cached s', _sin_cached s'), s').
Proof.
  intros Hn. eexists. split; [apply set_cache_run|]. simpl.
  repeat split.
  unfold forward, bind, get, lift, ret. rewrite decide_True by done.
  rewrite set_cache_run. simpl. rewrite !slice_rows_table.
  rewrite Nat.min_id. unfold table. by rewrite !to_idem.
Qed.

(** What one request does, covered or not. *)
Lemma forward_spec (s : obj A) x n :
  generated s ->
  exists dt s',
    forward x n s =
      (Ok (to (dtype x) (table sc_cos dt n (inv_freq s)),
           to (dtype x) (table sc_sin dt n (inv_freq s))), s') /\
    generated s' /\
    inv_freq s' = inv_freq s /\
    _cos_cached s' = table sc_cos dt (max_seq_len_cached s') (inv_freq s) /\
    _sin_cached s' = table sc_sin dt (max_seq_len_cached s') (inv_freq s) /\
    max_seq_len_cached s' = Nat.max n (max_seq_len_cached s) /\
    (n <= max_seq_len_cached s -> s' = s) /\
    (max_seq_len_cached s < n ->
       dt = dtype x /\ _set_cos_sin_cache n (dtype x) s = (Ok tt, s')).
Proof.
  intros Hg. destruct (decide (n <= max_seq_len_cached s)) as [Hn|Hn].
  - destruct (forward_covered s x n Hg Hn) as (dt & Hc & Hs & Hf).
    exists dt, s. repeat split; try done; lia.
  - destruct (forward_regenerates s x n) as (s' & Hset & Hm & Hi & Hc & Hs & Hf); [lia|].
    exists (dtype x), s'. rewrite Hf, Hc, Hs, Hm.
    repeat split; try done; try lia.
    + unfold table. by rewrite !to_idem.
    + by eapply set_cache_generated.
Qed.


End RotaryFacts.

(** ** Constructing the parallel wrapper *)

Section InitFacts.
Context {A : Type} `{!Torch A}.
Import MultiHeadAttention.

(** The head-count invariant of the partition: the worker count divides the
    query heads, and it divides the KV heads or is divided by them. *)
Definition divisibility_invariant (nheads kvheads world_size : nat) : Prop :=
  Nat.divide world_size nheads /\
  (Nat.divide world_size kvheads \/ Nat.divide kvheads world_size).

(** The two head-count assertions of [TPMultiHeadAttention.__init__]. *)
Definition head_count_error (e : exn) : Prop :=
  e = AssertionError (Some "The number of heads must be divisible by world size") \/
  e = AssertionError
        (Some "the kv heads must be divisible by the world size or the world size must be divisible by kv heads").

(** [p_dropout] is [None] or a probability. *)
Definition dropout_ok (p : option Q) : Prop :=
  match p with
  | Some p => (0 <= p)%Q /\ (p <= 1)%Q
  | None => True
  end.

(** The workers of a group of [world_size], each in its own process,
    construct the wrapper with the same arguments. *)
Definition group_init (emb_dim emb_kq emb_v nheads kvheads : nat) (p_dropout : option Q)
  (use_bias : bool) (position_encoder : option (PositionEncoder A))
  (world_size : nat) (worlds : list (World A)) : list (Res (obj A)) :=
  imap (fun r w =>
          fst (TPMultiHeadAttention.__init__ emb_dim emb_kq emb_v nheads kvheads p_dropout
                 use_bias position_encoder (mkGroup r world_size) w))
       worlds.

Definition local_nheads (rs : list (Res (obj A))) : list nat :=
  map (fun r => match r with Ok o => nheads o | _ => 0 end) rs.
Definition local_kvheads (rs : list (Res (obj A))) : list nat :=
  map (fun r => match r with Ok o => kvheads o | _ => 0 end) rs.

Lemma new_linear_returns i o b (w : World A) :
  exists l w', new_linear i o b w = (Ok l, w') /\
               default_dtype w' = default_dtype w /\ heap w' = heap w.
Proof.
  unfold new_linear. destruct (nn_Linear i o b (rng w)) as [l g]. by eexists _, _.
Qed.

Lemma dropout_returns (p : option Q) :
  dropout_ok p ->
  exists d, (if Qeq_bool (match p with Some p => p | None => 0%Q end) 0 then Ok None
             else (d <~ new_dropout (match p with Some p => p | None => 0%Q end) ;;
                   Ok (Some d))) = Ok d.
Proof.
  intros Hp. destruct (Qeq_bool _ 0); [by eexists|].
  unfold new_dropout. destruct p as [p|]; simpl in *.
  - destruct Hp as [H0 H1]. apply Qle_bool_iff in H0, H1. rewrite H0, H1. by eexists.
  - by eexists.
Qed.

Lemma base_init_returns emb_dim emb_kq emb_v nh kvh p ub pe (w : World A) :
  0 < nh -> dropout_ok p ->
  exists o w',
    MultiHeadAttention.__init__ emb_dim emb_kq emb_v nh kvh p ub pe w = (Ok o, w') /\
    nheads o = nh /\ kvheads o = kvh /\ tp o = None.
Proof.
  intros Hnh Hp. unfold MultiHeadAttention.__init__.
  destruct (new_linear_returns emb_dim (nh * emb_kq) ub w) as (l1 & w1 & H1 & D1 & _).
  erewrite bind_run by exact H1.
  destruct (new_linear_returns emb_dim (kvh * emb_kq) ub w1) as (l2 & w2 & H2 & D2 & _).
  erewrite bind_run by exact H2.
  destruct (new_linear_returns emb_dim (kvh * emb_v) ub w2) as (l3 & w3 & H3 & D3 & _).
  erewrite bind_run by exact H3.
  destruct (new_linear_returns (nh * emb_v) emb_dim ub w3) as (l4 & w4 & H4 & D4 & _).
  erewrite bind_run by exact H4.
  destruct (dropout_returns p Hp) as [d Hd].
  erewrite bind_lift_ok by exact Hd.
  erewrite bind_run by reflexivity.
  assert (py_floordiv emb_dim nh = Ok (emb_dim / nh)) as Hdiv.
  { unfold py_floordiv. rewrite decide_False by lia. done. }
  erewrite bind_lift_ok by exact Hdiv.
  destruct (rotary_init_returns (emb_dim / nh) emb_dim 10000 1
              (default_dtype w4)) as [rot Hrot].
  erewrite bind_lift_ok by exact Hrot.
  by eexists _, _.
Qed.

Lemma py_mod_run a b : 0 < b -> py_mod a b = Ok (a mod b).
Proof. intros. unfold py_mod. by rewrite decide_False by lia. Qed.

Lemma py_floordiv_run a b : 0 < b -> py_floordiv a b = Ok (a / b).
Proof. intros. unfold py_floordiv. by rewrite decide_False by lia. Qed.

Lemma mod_0_divide a b : 0 < b -> a mod b = 0 <-> Nat.divide b a.
Proof. intros. apply Nat.Lcm0.mod_divide. Qed.

Lemma kv_divisible_run kvheads ws :
  0 < ws -> 0 < kvheads ->
  exists c, TPMultiHeadAttention.kv_divisible kvheads ws = Ok c /\
            (c = true <-> Nat.divide ws kvheads \/ Nat.divide kvheads ws).
Proof.
  intros Hws Hkv. unfold TPMultiHeadAttention.kv_divisible.
  case_bool_decide as Hle.
  - rewrite py_mod_run by done. simpl. case_bool_decide as Hm.
    + exists true. split; [done|]. split; [|done]. intros _. left. by apply mod_0_divide.
    + rewrite bool_decide_false by lia. exists false. split; [done|].
      split; [done|]. intros [Hd|Hd].
      * by apply mod_0_divide in Hd.
      * apply Nat.divide_pos_le in Hd; [|lia].
        assert (kvheads = ws) as -> by lia. destruct Hm. by apply Nat.Div0.mod_same.
  - simpl. rewrite bool_decide_true by lia. rewrite py_mod_run by done. simpl.
    eexists. split; [done|]. rewrite bool_decide_eq_true, mod_0_divide by done.
    split; [by right|]. intros [Hd|Hd]; [|done].
    apply Nat.divide_pos_le in Hd; lia.
Qed.

(** The three ways [TPMultiHeadAttention.__init__] ends in an initialised
    process, for positive head counts. *)
Lemma tp_init_run emb_dim emb_kq emb_v nh kvh p ub pe group (w : World A) :
  dist_initialized w = true -> 0 < pg_world_size group -> 0 < nh -> 0 < kvh ->
  dropout_ok p ->
  let run := TPMultiHeadAttention.__init__ emb_dim emb_kq emb_v nh kvh p ub pe group w in
  (~ Nat.divide (pg_world_size group) nh /\
   run = (Raise (AssertionError
                   (Some "The number of heads must be divisible by world size")), w)) \/
  (Nat.divide (pg_world_size group) nh /\
   ~ (Nat.divide (pg_world_size group) kvh \/ Nat.divide kvh (pg_world_size group)) /\
   run = (Raise (AssertionError
                   (Some "the kv heads must be divisible by the world size or the world size must be divisible by kv heads")), w)) \/
  (divisibility_invariant nh kvh (pg_world_size group) /\
   exists o w', run = (Ok o, w') /\
     nheads o = nh / pg_world_size group /\
     kvheads o = (if decide (pg_world_size group <= kvh)
                  then kvh / pg_world_size group else 1) /\
     tp o = Some (mkTPAttrs nh kvh (pg_rank group) (pg_world_size group))).
Proof.
  intros Hi Hws Hnh Hkv Hp run. subst run.
  destruct group as [r ws]. simpl in *.
  unfold TPMultiHeadAttention.__init__, TPMultiHeadAttention.rank_and_world. simpl.
  erewrite bind_run by reflexivity.
  rewrite Hi. erewrite bind_lift_ok by reflexivity.
  erewrite bind_lift_ok by (by apply py_mod_run).
  destruct (decide (nh mod ws = 0)) as [Hm|Hm]; cycle 1.
  { left. split; [by rewrite <- mod_0_divide|].
    rewrite bool_decide_false by done. done. }
  right. rewrite bool_decide_true by done.
  erewrite bind_lift_ok by reflexivity.
  apply mod_0_divide in Hm; [|done].
  destruct (kv_divisible_run kvh ws Hws Hkv) as (c & Hc & Hiff).
  erewrite bind_lift_ok by exact Hc.
  destruct c.
  2:{ left. split; [done|]. split; [|done]. intros Hd. apply Hiff in Hd. done. }
  right. split; [split; [done|by apply Hiff]|].
  erewrite bind_lift_ok by reflexivity.
  erewrite bind_lift_ok by (by apply py_floordiv_run).
  assert (0 < nh / ws) as Hloc.
  { destruct Hm as [k ->]. rewrite Nat.div_mul by lia. destruct k; lia. }
  assert (exists kv, (if bool_decide (ws <= kvh)
                      then lift (py_floordiv kvh ws) else ret 1) =
                     (ret kv : M (World A) nat)
                     /\ kv = (if decide (ws <= kvh) then kvh / ws else 1)) as (kv & -> & Hkvl).
  { case_bool_decide.
    - rewrite py_floordiv_run by done. rewrite decide_True by done. by eexists.
    - rewrite decide_False by done. by eexists. }
  erewrite bind_run by reflexivity.
  destruct (base_init_returns emb_dim emb_kq emb_v (nh / ws) kv p ub pe w Hloc Hp)
    as (o & w' & Ho & Hn & Hk & _).
  erewrite bind_run by exact Ho.
  eexists _, _. split; [done|]. simpl. by subst.
Qed.

(** C5. In an initialised process, for positive head counts and worker
    count, constructing the parallel wrapper raises one of the two head-count
    assertion errors if and only if the divisibility invariant is violated;
    whenever it raises, nothing of the process has changed (the assertions
    come before any other initialisation step); otherwise construction
    succeeds. *)
Theorem tp_init_raises_iff emb_dim emb_kq emb_v nh kvh p ub pe group (w : World A) :
  dist_initialized w = true -> 0 < pg_world_size group -> 0 < nh -> 0 < kvh ->
  dropout_ok p ->
  let run := TPMultiHeadAttention.__init__ emb_dim emb_kq emb_v nh kvh p ub pe group w in
  ((exists e, fst run = Raise e /\ head_count_error e) <->
   ~ divisibility_invariant nh kvh (pg_world_size group)) /\
  (forall e, fst run = Raise e -> head_count_error e /\ snd run = w) /\
  (divisibility_invariant nh kvh (pg_world_size group) -> exists o, fst run = Ok o).
Proof.
  intros Hi Hws Hnh Hkv Hp run.
  destruct (tp_init_run emb_dim emb_kq emb_v nh kvh p ub pe group w Hi Hws Hnh Hkv Hp)
    as [[Hn Hr]|[(Hd & Hn & Hr)|(Hinv & o & w' & Hr & _)]];
    fold run in Hr; rewrite Hr; simpl.
  - split; [split|split].
    + intros _ [Hd _]. done.
    + intros _. eexists. split; [done|]. by left.
    + intros e [= <-]. split; [by left|done].
    + intros [Hd _]. done.
  - split; [split|split].
    + intros _ [_ Hd']. done.
    + intros _. eexists. split; [done|]. by right.
    + intros e [= <-]. split; [by right|done].
    + intros [_ Hd']. done.
  - split; [split|split].
    + intros (e & He & _). done.
    + intros Hn. done.
    + intros e He. done.
    + intros _. by eexists.
Qed.

Lemma sum_list_const (l : list nat) (c : nat) :
  Forall (fun x => x = c) l -> sum_list l = length l * c.
Proof. induction 1 as [|x l -> _ IH]; simpl; [done|]. by rewrite IH. Qed.

(** C4, amended. For positive head counts satisfying the divisibility
    invariant, every worker of the group constructs the wrapper; the local
    query head counts sum to [nheads]; the local KV head counts sum to
    [kvheads] when the worker count does not exceed [kvheads], and otherwise
    every worker holds one KV head, so they sum to the worker count. *)
Theorem tp_local_heads_sum emb_dim emb_kq emb_v nh kvh p ub pe ws (worlds : list (World A)) :
  0 < nh -> 0 < kvh -> dropout_ok p ->
  divisibility_invariant nh kvh ws ->
  length worlds = ws ->
  Forall (fun w => dist_initialized w = true) worlds ->
  let rs := group_init emb_dim emb_kq emb_v nh kvh p ub pe ws worlds in
  Forall (fun r => is_ok r = true) rs /\
  sum_list (local_nheads rs) = nh /\
  sum_list (local_kvheads rs) = (if decide (ws <= kvh) then kvh else ws).
Proof.
  intros Hnh Hkv Hp Hinv Hlen Hall rs.
  assert (0 < ws) as Hws.
  { destruct Hinv as [[k Hk] _]. destruct ws; [lia|lia]. }
  assert (forall i r, rs !! i = Some r ->
            exists o, r = Ok o /\ nheads o = nh / ws /\
                      kvheads o = (if decide (ws <= kvh) then kvh / ws else 1)) as Hrs.
  { intros i r Hr. subst rs. unfold group_init in Hr.
    rewrite list_lookup_imap in Hr.
    destruct (worlds !! i) as [w|] eqn:Hw; [|done]. simpl in Hr.
    injection Hr as <-.
    assert (dist_initialized w = true) as Hi.
    { eapply Forall_lookup_1 in Hall; eauto. }
    destruct (tp_init_run emb_dim emb_kq emb_v nh kvh p ub pe (mkGroup i ws) w
                Hi Hws Hnh Hkv Hp)
      as [[Hn _]|[(_ & Hn & _)|(_ & o & w' & Hr & Ho)]]; simpl in *.
    - by destruct Hinv.
    - by destruct Hinv.
    - rewrite Hr. simpl. exists o. split; [done|]. by destruct Ho as (? & ? & _). }
  assert (length rs = ws) as Hlrs.
  { subst rs. unfold group_init. by rewrite length_imap. }
  split; [|split].
  - apply Forall_lookup_2. intros i r Hr. by destruct (Hrs i r Hr) as (o & -> & _).
  - rewrite (sum_list_const _ (nh / ws)).
    + unfold local_nheads. rewrite length_map, Hlrs.
      destruct Hinv as [[k ->] _]. rewrite Nat.div_mul by lia. lia.
    + unfold local_nheads. apply Forall_lookup_2. intros i x Hx.
      rewrite list_lookup_fmap in Hx.
      destruct (rs !! i) as [r|] eqn:Hr; [|done]. injection Hx as <-.
      by destruct (Hrs i r Hr) as (o & -> & ? & _).
  - rewrite (sum_list_const _ (if decide (ws <= kvh) then kvh / ws else 1)).
    + unfold local_kvheads. rewrite length_map, Hlrs.
      destruct (decide (ws <= kvh)) as [Hle|Hle]; [|lia].
      destruct Hinv as [_ [[k ->]|Hd]].
      * rewrite Nat.div_mul by lia. lia.
      * apply Nat.divide_pos_le in Hd; [|done].
        assert (kvh = ws) as -> by lia. rewrite Nat.div_same by lia. lia.
    + unfold local_kvheads. apply Forall_lookup_2. intros i x Hx.
      rewrite list_lookup_fmap in Hx.
      destruct (rs !! i) as [r|] eqn:Hr; [|done]. injection Hx as <-.
      by destruct (Hrs i r Hr) as (o & -> & _ & ?).
Qed.

End InitFacts.

(** ** Tensor objects of a process *)

Section HeapFacts.
Context {A : Type} `{!Torch A}.
Import MultiHeadAttention.

(** The process after one more tensor object was created. *)
Definition push (t : Tensor A) (p : Proc) : Proc :=
  mkProc (self p) (set_heap (heap (world p) ++ [t]) (world p)).

Lemma alloc_run t (p : Proc) : alloc t p = (Ok (length (heap (world p))), push t p).
Proof. done. Qed.

Lemma deref_run l t (p : Proc) : heap (world p) !! l = Some t -> deref l p = (Ok t, p).
Proof. intros H. unfold deref. by rewrite H. Qed.

Lemma tensor_op_run f l t r (p : Proc) :
  heap (world p) !! l = Some t -> f t = Ok r ->
  tensor_op f l p = (Ok (length (heap (world p))), push r p).
Proof.
  intros Hl Hf. unfold tensor_op.
  erewrite bind_run by (by apply deref_run).
  erewrite bind_lift_ok by exact Hf. done.
Qed.

Lemma tensor_op_raise f l t e (p : Proc) :
  heap (world p) !! l = Some t -> f t = Raise e -> tensor_op f l p = (Raise e, p).
Proof.
  intros Hl Hf. unfold tensor_op.
  erewrite bind_run by (by apply deref_run).
  by erewrite bind_lift_raise by exact Hf.
Qed.

Lemma heap_push t (p : Proc) : heap (world (push t p)) = heap (world p) ++ [t].
Proof. done. Qed.

Lemma self_push t (p : Proc) : self (push t p) = self p.
Proof. done. Qed.

Lemma lookup_push_new t (p : Proc) :
  heap (world (push t p)) !! length (heap (world p)) = Some t.
Proof. rewrite heap_push. apply list_lookup_middle. done. Qed.

Lemma lookup_push_at t l (p : Proc) :
  l = length (heap (world p)) -> heap (world (push t p)) !! l = Some t.
Proof. intros ->. apply lookup_push_new. Qed.

Lemma lookup_push_old t l u (p : Proc) :
  heap (world p) !! l = Some u -> heap (world (push t p)) !! l = Some u.
Proof. intros H. rewrite heap_push. by apply lookup_app_l_Some. Qed.

Lemma prefix_push t (p : Proc) : heap (world p) `prefix_of` heap (world (push t p)).
Proof. rewrite heap_push. by apply prefix_app_r. Qed.

(** Runs that returned, read backwards. *)

Lemma lift_inv_ok {S X} (r : Res X) (s s' : S) x :
  lift r s = (Ok x, s') -> r = Ok x /\ s' = s.
Proof. by intros [= -> <-]. Qed.

Lemma get_inv_ok {S} (s s' x : S) : get s = (Ok x, s') -> x = s /\ s' = s.
Proof. by intros [= <- <-]. Qed.

Lemma ret_inv_ok {S X} (x y : X) (s s' : S) : ret x s = (Ok y, s') -> x = y /\ s' = s.
Proof. by intros [= <- <-]. Qed.

Lemma local_inv_ok {S X} name (x : option X) (s s' : S) y :
  local name x s = (Ok y, s') -> x = Some y /\ s' = s.
Proof. destruct x; [by intros [= <- <-]|done]. Qed.

Lemma deref_inv_ok l t (p p' : Proc) :
  deref l p = (Ok t, p') -> heap (world p) !! l = Some t /\ p' = p.
Proof. unfold deref. destruct (_ !! _); [by intros [= <- <-]|done]. Qed.

Lemma alloc_inv_ok t l (p p' : Proc) :
  alloc t p = (Ok l, p') -> l = length (heap (world p)) /\ p' = push t p.
Proof. by intros [= <- <-]. Qed.

Lemma tensor_op_inv_ok f l l' (p p' : Proc) :
  tensor_op f l p = (Ok l', p') ->
  exists t r, heap (world p) !! l = Some t /\ f t = Ok r /\
              l' = length (heap (world p)) /\ p' = push r p.
Proof.
  unfold tensor_op. intros H0.
  apply bind_inv_ok in H0 as (t & p1 & Hd & H0). apply deref_inv_ok in Hd as [Hl ->].
  apply bind_inv_ok in H0 as (r & p2 & Hf & H0). apply lift_inv_ok in Hf as [Hf ->].
  apply alloc_inv_ok in H0 as [-> ->]. by exists t, r.
Qed.

End HeapFacts.

(** Inverting a run that returned: one [bind] at a time. *)
Ltac inv_bind H x s Hx :=
  apply bind_inv_ok in H as (x & s & Hx & H); cbv beta in H.

Ltac inv_leaf H :=
  lazymatch type of H with
  | MultiHeadAttention.deref _ _ = _ => apply deref_inv_ok in H as [H ->]
  | get _ = _ => apply get_inv_ok in H as [-> ->]
  | lift _ _ = _ => apply lift_inv_ok in H as [H ->]
  | local _ _ _ = _ => apply local_inv_ok in H as [H ->]; simplify_eq
  | ret _ _ = _ => apply ret_inv_ok in H as [H ->]
  end.


(** ** Normalising the mask *)

Section MaskFacts.
Context {A : Type} `{!Torch A}.
Import MultiHeadAttention.

(** A mask of shape [sh] can stand for one of shape [target]: every axis
    has size 1 or the size of the target. *)
Definition broadcastable_to (sh target : list nat) : Prop :=
  Forall2 (fun s t => s = 1 \/ s = t) sh target.

Lemma unsqueeze_1_run (t : Tensor A) :
  1 <= ndim t ->
  unsqueeze 1 t = Ok (mkTensor (take 1 (shape t) ++ 1 :: drop 1 (shape t)) (dtype t) (data t)).
Proof. intros H. unfold unsqueeze. by rewrite decide_True. Qed.

Lemma normalize_mask_run (n : nat) :
  forall (p : Proc) (m : loc) (t : Tensor A) (fuel : nat),
    heap (world p) !! m = Some t -> 1 <= ndim t -> ndim t + n = 4 -> n <= fuel ->
    exists m' p' t',
      normalize_mask fuel m p = (Ok m', p') /\
      heap (world p') !! m' = Some t' /\
      shape t' = take 1 (shape t) ++ replicate n 1 ++ drop 1 (shape t) /\
      data t' = data t /\ dtype t' = dtype t /\
      heap (world p) `prefix_of` heap (world p') /\ self p' = self p.
Proof.
  induction n as [|n IH]; intros p m t fuel Hm H1 Hn Hf.
  - exists m, p, t.
    assert (normalize_mask fuel m p = (Ok m, p)) as ->.
    { destruct fuel; simpl; (erewrite bind_run by (by apply deref_run));
        by rewrite decide_True by lia. }
    simpl. by rewrite take_drop.
  - destruct fuel as [|fuel]; [lia|]. simpl.
    erewrite bind_run by (by apply deref_run).
    rewrite decide_False by lia.
    erewrite bind_run by (eapply tensor_op_run; [exact Hm|by apply unsqueeze_1_run]).
    set (t1 := mkTensor (take 1 (shape t) ++ 1 :: drop 1 (shape t)) (dtype t) (data t)).
    assert (ndim t1 = S (ndim t)) as Hd1.
    { unfold ndim, t1 in *. cbn [shape].
      rewrite length_app, length_take, length_cons, length_drop. lia. }
    destruct (IH (push t1 p) (length (heap (world p))) t1 fuel)
      as (m' & p' & t' & Hrun & Hl & Hsh & Hda & Hdt & Hpre & Hself);
      [apply lookup_push_new|lia|lia|lia|].
    exists m', p', t'. split; [done|]. split; [done|].
    split; [|split; [done|split; [done|split]]].
    + rewrite Hsh. unfold t1, ndim in *. simpl.
      destruct (shape t) as [|a rest]; simpl in *; [lia|].
      f_equal. generalize (drop 0 rest). intros tl.
      clear. induction n as [|n IHn]; simpl; [done|]. by rewrite IHn.
    + etrans; [apply (prefix_push t1)|done].
    + by rewrite Hself.
Qed.

(** The loop on a mask of one to four dimensions: given at least
    [4 - ndim] iterations, the loop ends with a mask of four dimensions that
    holds the elements of the input mask unchanged and whose shape is the
    input shape with singleton axes inserted at position 1; it creates tensor
    objects and changes no existing one.  A mask of shape [[b; q; k]] becomes
    one of shape [[b; 1; q; k]], which stands for any batch x heads x
    query-length x key-length mask. *)
Lemma normalize_mask_spec (p : Proc) (m : loc) (t : Tensor A) (fuel : nat) :
  heap (world p) !! m = Some t -> 1 <= ndim t <= 4 -> 4 - ndim t <= fuel ->
  exists m' p' t',
    normalize_mask fuel m p = (Ok m', p') /\
    heap (world p') !! m' = Some t' /\
    ndim t' = 4 /\
    shape t' = take 1 (shape t) ++ replicate (4 - ndim t) 1 ++ drop 1 (shape t) /\
    data t' = data t /\ dtype t' = dtype t /\
    heap (world p) `prefix_of` heap (world p') /\ self p' = self p /\
    (forall b ql kl h, shape t = [b; ql; kl] -> broadcastable_to (shape t') [b; h; ql; kl]).
Proof.
  intros Hm [H1 H4] Hf.
  destruct (normalize_mask_run (4 - ndim t) p m t fuel)
    as (m' & p' & t' & Hrun & Hl & Hsh & Hda & Hdt & Hpre & Hself); [done|done|lia|done|].
  exists m', p', t'. split_and!; try done.
  - unfold ndim in *. rewrite Hsh, !length_app, length_replicate, length_take, length_drop.
    lia.
  - intros b ql kl h Hs. rewrite Hsh. unfold ndim. rewrite Hs. simpl.
    unfold broadcastable_to.
    repeat (apply List.Forall2_cons; [by auto|]). apply List.Forall2_nil.
Qed.

(** A mask of more than four dimensions never leaves the loop. *)
Lemma normalize_mask_diverges (fuel : nat) :
  forall (p : Proc) (m : loc) (t : Tensor A),
    heap (world p) !! m = Some t -> 4 < ndim t ->
    fst (normalize_mask fuel m p) = OutOfFuel.
Proof.
  induction fuel as [|fuel IH]; intros p m t Hm Hn; simpl.
  - erewrite bind_run by (by apply deref_run). by rewrite decide_False by lia.
  - erewrite bind_run by (by apply deref_run). rewrite decide_False by lia.
    erewrite bind_run by (eapply tensor_op_run; [exact Hm|apply unsqueeze_1_run; lia]).
    eapply IH; [apply lookup_push_new|].
    unfold ndim in *. cbn [shape].
    rewrite length_app, length_take, length_cons, length_drop. lia.
Qed.

End MaskFacts.

(** ** Expanding the KV heads *)

Section ExpandFacts.
Context {A : Type} `{!Torch A}.
Import MultiHeadAttention.

Lemma chunks_lengths (sz n : nat) (l : list A) :
  length l = n * sz -> Forall (fun c => length c = sz) (chunks sz n l).
Proof.
  revert l. induction n as [|n IH]; intros l Hl; simpl; [done|].
  constructor.
  - rewrite length_take. lia.
  - apply IH. rewrite length_drop. lia.
Qed.

Lemma length_concat_uniform (sz : nat) (cs : list (list A)) :
  Forall (fun c => length c = sz) cs -> length (concat cs) = length cs * sz.
Proof.
  induction 1 as [|c cs Hc _ IH]; simpl; [done|]. rewrite length_app, Hc, IH. done.
Qed.

(** The [i]-th block of a concatenation of blocks of one size. *)
Lemma block_concat (sz i : nat) (cs : list (list A)) (c : list A) :
  Forall (fun c => length c = sz) cs -> cs !! i = Some c ->
  block sz i (concat cs) = c.
Proof.
  intros Hall. revert i. induction Hall as [|c0 cs Hc _ IH]; intros i Hi; [done|].
  unfold block in *. destruct i as [|i]; simpl in *.
  - injection Hi as <-. by apply take_app_length'.
  - rewrite drop_app_ge by lia. rewrite Hc.
    replace (sz + i * sz - sz) with (i * sz) by lia. by apply IH.
Qed.

Lemma block_length_le (sz i : nat) (l : list A) :
  (S i) * sz <= length l -> length (block sz i l) = sz.
Proof. intros. unfold block. rewrite length_take, length_drop. lia. Qed.

(** Each element repeated [e] times: position [j] holds element [j / e]. *)
Lemma lookup_repeat_each {B} (e j : nat) (cs : list B) :
  0 < e -> flat_map (fun c => replicate e c) cs !! j = cs !! (j / e).
Proof.
  intros He. revert j. induction cs as [|c cs IH]; intros j; simpl; [done|].
  destruct (decide (j < e)) as [Hj|Hj].
  - rewrite lookup_app_l by (by rewrite length_replicate).
    rewrite Nat.div_small by done. simpl. by apply lookup_replicate_2.
  - rewrite lookup_app_r by (rewrite length_replicate; lia).
    rewrite length_replicate, IH.
    replace j with ((j - e) + 1 * e) at 2 by lia.
    rewrite Nat.div_add by lia. by rewrite Nat.add_1_r.
Qed.

Lemma length_repeat_each {B} (e : nat) (cs : list B) :
  length (flat_map (fun c => replicate e c) cs) = length cs * e.
Proof.
  induction cs as [|c cs IH]; simpl; [done|].
  rewrite length_app, length_replicate, IH. done.
Qed.

(** Expanding no axis changes nothing. *)
Lemma expand_data_keep (sh : list nat) :
  forall l : list A,
    length l = prod_list sh -> expand_data sh (replicate (length sh) None) l = l.
Proof.
  induction sh as [|s sh IH]; intros l Hl; simpl; [done|].
  simpl in Hl.
  assert (map (expand_data sh (replicate (length sh) None)) (chunks (prod_list sh) s l)
          = chunks (prod_list sh) s l) as ->.
  { rewrite <- (map_id (chunks (prod_list sh) s l)) at 2.
    apply map_ext_Forall. eapply Forall_impl; [by apply chunks_lengths|].
    intros c Hc. by apply IH. }
  by apply concat_chunks.
Qed.

Lemma concat_concat_repeat (e : nat) (cs : list (list A)) :
  concat (map (fun c => concat (replicate e c)) cs)
  = concat (flat_map (fun c => replicate e c) cs).
Proof.
  induction cs as [|c cs IH]; simpl; [done|]. by rewrite concat_app, IH.
Qed.

Lemma chunks_take (sz n k : nat) (l : list A) :
  n * sz <= k -> chunks sz n (take k l) = chunks sz n l.
Proof.
  revert k l. induction n as [|n IH]; intros k l Hk; simpl; [done|].
  rewrite take_take. replace (Nat.min sz k) with sz by lia. f_equal.
  rewrite <- (IH (k - sz) (drop sz l)) by lia.
  f_equal. rewrite take_drop_commute. by replace (sz + (k - sz)) with k by lia.
Qed.

Lemma chunks_add (sz n m : nat) (l : list A) :
  chunks sz (n + m) l = chunks sz n l ++ chunks sz m (drop (n * sz) l).
Proof.
  revert l. induction n as [|n IH]; intros l; simpl; [done|].
  f_equal. rewrite IH, drop_drop. done.
Qed.

(** Cutting into [n] blocks of [m] chunks, then each block into its chunks. *)
Lemma chunks_chunks (sz n m : nat) (l : list A) :
  chunks sz (n * m) l = flat_map (chunks sz m) (chunks (m * sz) n l).
Proof.
  revert l. induction n as [|n IH]; intros l; simpl; [done|].
  rewrite chunks_add, IH. f_equal. by rewrite chunks_take.
Qed.

Lemma expand_one_head (l d e : nat) (x : list A) :
  length x = prod_list [l; d] ->
  expand_data [1; l; d] [Some e; None; None] x = concat (replicate e x).
Proof.
  intros Hx. change (expand_data [1; l; d] [Some e; None; None] x)
    with (concat (replicate e
            (expand_data [l; d] (replicate (length [l; d]) None)
               (take (prod_list [l; d]) x) ++ []))).
  rewrite app_nil_r, expand_data_keep.
  - by rewrite take_ge by lia.
  - rewrite length_take. lia.
Qed.

(** The data of an expanded [b; h; 1; l; d] tensor: every block of one
    head, [e] times in a row. *)
Lemma expand_data_heads (b h l d e : nat) (dat : list A) :
  length dat = prod_list [b; h; l; d] ->
  expand_data [b; h; 1; l; d] [None; None; Some e; None; None] dat =
  concat (flat_map (fun c => replicate e c) (chunks (prod_list [l; d]) (b * h) dat)).
Proof.
  intros Hd.
  set (L := prod_list [l; d]) in *.
  assert (prod_list [b; h; l; d] = b * (h * L)) as Hb by done.
  change (expand_data [b; h; 1; l; d] [None; None; Some e; None; None] dat)
    with (concat (map (fun blk =>
            concat (map (expand_data [1; l; d] [Some e; None; None])
                        (chunks (prod_list [1; l; d]) h blk)))
            (chunks (prod_list [h; 1; l; d]) b dat))).
  assert (prod_list [1; l; d] = L) as -> by (unfold L; simpl; lia).
  assert (prod_list [h; 1; l; d] = h * L) as -> by (unfold L; simpl; lia).
  rewrite chunks_chunks.
  assert (Forall (fun blk => length blk = h * L) (chunks (h * L) b dat)) as Hall.
  { apply chunks_lengths. lia. }
  set (F := fun blk => concat (map (expand_data [1; l; d] [Some e; None; None])
                                   (chunks L h blk))).
  induction Hall as [|blk bs Hblk _ IH]; [done|].
  cbn [map concat flat_map].
  rewrite flat_map_app, concat_app, IH. f_equal.
  unfold F. rewrite <- concat_concat_repeat. f_equal.
  apply map_ext_Forall. eapply Forall_impl; [apply chunks_lengths; lia|].
  intros c Hc. by apply expand_one_head.
Qed.

Lemma block_block (sz n i j : nat) (l : list A) :
  j < n -> block sz j (block (n * sz) i l) = block sz (i * n + j) l.
Proof.
  intros Hj. unfold block.
  replace (n * sz) with (j * sz + (n * sz - j * sz)) at 1 by nia.
  rewrite <- take_drop_commute, take_take, drop_drop.
  replace (Nat.min sz (n * sz - j * sz)) with sz by nia.
  f_equal. f_equal. nia.
Qed.

Lemma Forall_repeat_each {B} (P : B -> Prop) (e : nat) (cs : list B) :
  Forall P cs -> Forall P (flat_map (fun c => replicate e c) cs).
Proof.
  induction 1 as [|c cs Hc _ IH]; simpl; [done|].
  apply Forall_app. split; [|done]. by apply Forall_replicate.
Qed.

(** What [expand_kv] returns on a 4-D tensor. *)
Lemma expand_kv_run (e b h l d : nat) (t : Tensor A) :
  shape t = [b; h; l; d] -> wf_tensor t ->
  expand_kv e t =
  Ok (mkTensor [b; h * e; l; d] (dtype t)
        (concat (flat_map (fun c => replicate e c)
                   (chunks (prod_list [l; d]) (b * h) (data t))))).
Proof.
  intros Hs Hwf. unfold wf_tensor, numel in Hwf. rewrite Hs in Hwf.
  unfold expand_kv, unsqueeze, ndim. rewrite Hs. simpl length.
  destruct (decide (2 <= 4)) as [_|?]; [|lia]. cbn [res_bind take drop app].
  unfold expand. cbn [shape data dtype].
  assert (expand_shape [b; h; 1; l; d] [None; None; Some e; None; None]
          = Ok [b; h; e; l; d]) as ->.
  { simpl. by destruct (decide (1 = e)) as [<-|]. }
  cbn [res_bind]. unfold flatten_1_2. cbn [shape data dtype].
  by rewrite expand_data_heads.
Qed.

(** Expanded head [j] of every batch entry is KV head [j / e]. *)
Lemma expand_kv_head (e b h l d : nat) (t te : Tensor A) :
  0 < e -> shape t = [b; h; l; d] -> wf_tensor t -> expand_kv e t = Ok te ->
  shape te = [b; h * e; l; d] /\ wf_tensor te /\
  forall bi j, bi < b -> j < h * e ->
    res_bind (select bi te) (select j) = res_bind (select bi t) (select (j / e)) /\
    exists head, res_bind (select bi te) (select j) = Ok head /\ shape head = [l; d].
Proof.
  intros He Hs Hwf Hrun. rewrite (expand_kv_run e b h l d t Hs Hwf) in Hrun.
  injection Hrun as <-. cbn [shape].
  unfold wf_tensor, numel in *. rewrite Hs in Hwf. cbn [shape data] in *.
  set (L := prod_list [l; d]) in *.
  assert (prod_list [b; h; l; d] = b * h * L) as Hb by (unfold L; simpl; lia).
  assert (prod_list [b; h * e; l; d] = b * h * e * L) as Hbe by (unfold L; simpl; lia).
  set (cs := chunks L (b * h) (data t)).
  assert (Forall (fun c => length c = L) cs) as Hcs by (apply chunks_lengths; lia).
  assert (Forall (fun c => length c = L) (flat_map (fun c => replicate e c) cs)) as Hcs'
    by (by apply Forall_repeat_each).
  split; [done|]. split.
  { rewrite (length_concat_uniform L) by done.
    rewrite length_repeat_each. unfold cs. rewrite length_chunks. lia. }
  intros bi j Hbi Hj.
  assert (j / e < h) as Hje by (apply Nat.Div0.div_lt_upper_bound; lia).
  unfold select. cbn [shape data dtype res_bind]. rewrite Hs.
  rewrite !decide_True by done. cbn [shape data dtype res_bind].
  rewrite !decide_True by done.
  change (chunks (l * (d * 1)) (b * h) (data t)) with cs.
  assert (block (prod_list [l; d]) j
            (block (prod_list [h * e; l; d]) bi
               (concat (flat_map (fun c => replicate e c) cs)))
          = block (prod_list [l; d]) (j / e) (block (prod_list [h; l; d]) bi (data t)))
    as ->; [|split; [done|by eexists]].
  fold L. change (prod_list [h * e; l; d]) with (h * e * L).
  change (prod_list [h; l; d]) with (h * L).
  rewrite !block_block by done.
  apply block_concat; [done|].
  rewrite lookup_repeat_each by done.
  replace ((bi * (h * e) + j) / e) with (bi * h + j / e).
  - unfold cs. apply chunks_lookup. nia.
  - replace (bi * (h * e) + j) with (bi * h * e + j) by lia.
    by rewrite Nat.div_add_l by lia.
Qed.

(** The expansion on well-formed keys and values of four axes, in a module
    with more query heads than KV heads and [e = nheads // kvheads]: it
    returns, and expanded head [j] of each batch entry is KV head [j / e]. *)
Lemma expand_heads_repeats (p : Proc) (keys values : loc) (tk tv : Tensor A)
  (b h l d dv : nat) :
  0 < kvheads (self p) -> kvheads (self p) < nheads (self p) ->
  heap (world p) !! keys = Some tk -> heap (world p) !! values = Some tv ->
  shape tk = [b; h; l; d] -> wf_tensor tk ->
  shape tv = [b; h; l; dv] -> wf_tensor tv ->
  let e := nheads (self p) / kvheads (self p) in
  exists keys_e values_e p' tke tve,
    expand_heads (Some keys) (Some values) p = (Ok (keys_e, values_e), p') /\
    heap (world p') !! keys_e = Some tke /\
    heap (world p') !! values_e = Some tve /\
    shape tke = [b; h * e; l; d] /\ shape tve = [b; h * e; l; dv] /\
    forall bi j, bi < b -> j < h * e ->
      res_bind (select bi tke) (select j) = res_bind (select bi tk) (select (j / e)) /\
      res_bind (select bi tve) (select j) = res_bind (select bi tv) (select (j / e)).
Proof.
  intros Hkv Hnh Hk Hv Hsk Hwk Hsv Hwv e.
  assert (0 < e) as He.
  { unfold e. apply Nat.div_str_pos. lia. }
  unfold expand_heads.
  erewrite bind_run by reflexivity.
  erewrite bind_lift_ok by (by apply py_floordiv_run).
  fold e. destruct (decide (e <> 1)) as [Hne|Heq].
  - destruct (expand_kv e tk) as [tke| |] eqn:Ek;
      try (rewrite (expand_kv_run e b h l d tk Hsk Hwk) in Ek; discriminate).
    destruct (expand_kv e tv) as [tve| |] eqn:Ev;
      try (rewrite (expand_kv_run e b h l dv tv Hsv Hwv) in Ev; discriminate).
    destruct (expand_kv_head e b h l d tk tke He Hsk Hwk Ek) as (Hske & _ & Hhk).
    destruct (expand_kv_head e b h l dv tv tve He Hsv Hwv Ev) as (Hsve & _ & Hhv).
    unfold local.
    erewrite bind_run by reflexivity.
    erewrite bind_run by (by eapply tensor_op_run).
    erewrite bind_run by reflexivity.
    erewrite bind_run by (eapply tensor_op_run; [by apply lookup_push_old|done]).
    eexists _, _, _, tke, tve. split; [reflexivity|].
    split; [apply lookup_push_old, lookup_push_new|].
    split; [rewrite heap_push; apply (lookup_push_new tve (push tke p))|].
    split; [done|]. split; [done|].
    intros bi j Hbi Hj. split; [by apply Hhk|by apply Hhv].
  - assert (e = 1) as -> by lia.
    unfold local.
    erewrite bind_run by reflexivity.
    erewrite bind_run by reflexivity.
    exists keys, values, p, tk, tv. rewrite Nat.mul_1_r.
    split; [done|]. split; [done|]. split; [done|]. split; [done|]. split; [done|].
    intros bi j _ _. by rewrite Nat.div_1_r.
Qed.

End ExpandFacts.

(** ** What a call leaves of the process

    No step of [forward] writes into an existing tensor object or changes an
    attribute of the instance other than the rotary tables: the heap only
    grows, and the instance keeps its configuration. *)

Section ForwardFacts.
Context {A : Type} `{!Torch A}.
Import MultiHeadAttention.

Definition frame_step (p p' : Proc) : Prop :=
  heap (world p) `prefix_of` heap (world p') /\
  exists r, self p' = set_rotary r (self p).

Definition framed {X} (m : M Proc X) : Prop :=
  forall p r p', m p = (r, p') -> frame_step p p'.

Lemma set_rotary_id (o : obj A) : set_rotary (rotary_emb o) o = o.
Proof. by destruct o. Qed.

Lemma set_rotary_twice r r' (o : obj A) : set_rotary r (set_rotary r' o) = set_rotary r o.
Proof. done. Qed.

Lemma frame_step_refl p : frame_step p p.
Proof. split; [done|]. exists (rotary_emb (self p)). by rewrite set_rotary_id. Qed.

Lemma frame_step_trans p1 p2 p3 : frame_step p1 p2 -> frame_step p2 p3 -> frame_step p1 p3.
Proof.
  intros [H1 [r1 E1]] [H2 [r2 E2]]. split; [by etrans|].
  exists r2. by rewrite E2, E1.
Qed.

Lemma prefix_push_step t p : frame_step p (push t p).
Proof.
  split; [apply prefix_push|]. exists (rotary_emb (self p)). simpl. by rewrite set_rotary_id.
Qed.

Lemma frame_step_lookup p p' l t :
  frame_step p p' -> heap (world p) !! l = Some t -> heap (world p') !! l = Some t.
Proof. intros [Hpre _] Hl. by eapply prefix_lookup_Some. Qed.

Lemma frame_step_length p p' :
  frame_step p p' -> length (heap (world p)) <= length (heap (world p')).
Proof. intros [Hpre _]. by apply prefix_length. Qed.

Lemma framed_ret {X} (x : X) : framed (ret x).
Proof. intros p r p' [= _ <-]. apply frame_step_refl. Qed.

Lemma framed_raise {X} e : framed (raise e : M Proc X).
Proof. intros p r p' [= _ <-]. apply frame_step_refl. Qed.

Lemma framed_lift {X} (x : Res X) : framed (lift x).
Proof. intros p r p' [= _ <-]. apply frame_step_refl. Qed.

Lemma framed_get : framed (get : M Proc Proc).
Proof. intros p r p' [= _ <-]. apply frame_step_refl. Qed.

Lemma framed_bind {X Y} (m : M Proc X) (k : X -> M Proc Y) :
  framed m -> (forall x, framed (k x)) -> framed (bind m k).
Proof.
  intros Hm Hk p r p'. unfold bind.
  destruct (m p) as [[x|e|] p1] eqn:E; intros Hr.
  - eapply frame_step_trans; [by eapply Hm|by eapply Hk].
  - injection Hr as _ <-. by eapply Hm.
  - injection Hr as _ <-. by eapply Hm.
Qed.

Lemma framed_alloc t : framed (alloc t).
Proof.
  intros p r p' [= _ <-]. split; [apply prefix_push|].
  exists (rotary_emb (self p)). simpl. by rewrite set_rotary_id.
Qed.

Lemma framed_deref l : framed (deref l).
Proof.
  intros p r p'. unfold deref. destruct (_ !! _); intros [= _ <-]; apply frame_step_refl.
Qed.

Lemma framed_local {X} name (x : option X) : framed (local name x).
Proof. destruct x; [apply framed_ret|apply framed_raise]. Qed.

Lemma framed_put_backends f : framed (put_backends f).
Proof.
  intros p r p' [= _ <-]. split; [done|].
  exists (rotary_emb (self p)). simpl. by rewrite set_rotary_id.
Qed.

Create HintDb framed.
#[local] Hint Resolve framed_ret framed_raise framed_lift framed_get framed_alloc
  framed_deref framed_local framed_put_backends : framed.

(** One step of a proof that a computation is framed. *)
Ltac framed_step :=
  match goal with
  | |- framed (bind _ _) => apply framed_bind; [|intros ?]
  | |- framed (if ?c then _ else _) => destruct c
  | |- framed (match ?x with _ => _ end) => destruct x
  | |- framed _ => solve [eauto with framed]
  end.
Ltac framed_auto := repeat framed_step.

Lemma framed_tensor_op f l : framed (tensor_op f l).
Proof. unfold tensor_op. framed_auto. Qed.

Lemma framed_deref_opt l : framed (deref_opt l).
Proof. unfold deref_opt. framed_auto. Qed.

Lemma framed_deref_pair l : framed (deref_pair l).
Proof. unfold deref_pair. framed_auto. Qed.

Lemma framed_project layer x sh : framed (project layer x sh).
Proof. apply framed_tensor_op. Qed.

#[local] Hint Resolve framed_tensor_op framed_deref_opt framed_deref_pair
  framed_project : framed.

Lemma framed_call_rotary_emb x n : framed (call_rotary_emb x n).
Proof.
  unfold call_rotary_emb. framed_auto.
  intros p r p'. destruct (GaudiRotaryEmbedding.forward _ _ _) as [r0 rot].
  intros [= _ <-]. split; [done|]. by exists rot.
Qed.

Lemma framed_apply_gaudi_rope q k c s ids : framed (apply_gaudi_rope q k c s ids).
Proof. unfold apply_gaudi_rope. framed_auto. Qed.

Lemma framed_call_kernel kernel q k v m pd c : framed (call_kernel kernel q k v m pd c).
Proof.
  unfold call_kernel. framed_auto.
  intros p r p'. destruct (kernel _ _ _ _ _ _ _) as [r0 g].
  intros [= _ <-]. split; [done|].
  exists (rotary_emb (self p)). simpl. by rewrite set_rotary_id.
Qed.

#[local] Hint Resolve framed_call_rotary_emb framed_apply_gaudi_rope
  framed_call_kernel : framed.

Lemma framed_merge_cache a keys values : framed (merge_cache a keys values).
Proof. unfold merge_cache. framed_auto. Qed.

Lemma framed_normalize_mask fuel : forall m, framed (normalize_mask fuel m).
Proof.
  induction fuel as [|fuel IH]; intros m; simpl; framed_auto; try apply IH.
Qed.

Lemma framed_expand_heads keys values : framed (expand_heads keys values).
Proof. unfold expand_heads. framed_auto. Qed.

Lemma framed_attend a q k v m : framed (attend a q k v m).
Proof. unfold attend. framed_auto. Qed.

Lemma framed_project_qkv a b ql kl queries : framed (project_qkv a b ql kl queries).
Proof. unfold project_qkv. framed_auto. Qed.

#[local] Hint Resolve framed_merge_cache framed_normalize_mask framed_expand_heads
  framed_attend framed_project_qkv : framed.

Lemma framed_forward fuel a : framed (forward fuel a).
Proof. unfold forward. framed_auto. Qed.

(** *** The key/value cache across calls *)

(** The merge of a self-attention call that is handed a non-empty cache:
    two new tensor objects, the concatenations along axis 2. *)
Lemma merge_cache_self (a : Args) (keys values : option loc) (p p' : Proc)
  (pk pv : loc) (tpk : Tensor A) (keys' values' : option loc) :
  is_self a = true -> use_cache a = true -> past_key_value_state a = Some (pk, pv) ->
  heap (world p) !! pk = Some tpk -> 0 < numel tpk ->
  merge_cache a keys values p = (Ok (keys', values'), p') ->
  exists k0 v0 tk0 tv0 tpv tk tv,
    keys = Some k0 /\ values = Some v0 /\
    heap (world p) !! k0 = Some tk0 /\
    heap (world p') !! v0 = Some tv0 /\
    heap (world p') !! pv = Some tpv /\
    cat 2 tpk tk0 = Ok tk /\ cat 2 tpv tv0 = Ok tv /\
    keys' = Some (length (heap (world p))) /\
    values' = Some (S (length (heap (world p)))) /\
    p' = push tv (push tk p).
Proof.
  intros Hself Hcache Hpast Hpk Hnum Hrun.
  unfold merge_cache in Hrun. rewrite Hpast, Hcache, Hself in Hrun.
  inv_bind Hrun t s Ht. inv_leaf Ht. rewrite Hpk in Ht. injection Ht as <-.
  rewrite decide_True in Hrun by done.
  inv_bind Hrun k0 s Hk. inv_leaf Hk.
  inv_bind Hrun tk0 s Htk. inv_leaf Htk.
  inv_bind Hrun tk s Hc. inv_leaf Hc.
  inv_bind Hrun lk s Ha. apply alloc_inv_ok in Ha as [-> ->].
  inv_bind Hrun v0 s Hv. inv_leaf Hv.
  inv_bind Hrun tpv s Htpv. inv_leaf Htpv.
  inv_bind Hrun tv0 s Htv. inv_leaf Htv.
  inv_bind Hrun tv s Hcv. inv_leaf Hcv.
  inv_bind Hrun lv s Hav. apply alloc_inv_ok in Hav as [-> ->].
  inv_leaf Hrun. injection Hrun as <- <-.
  exists k0, v0, tk0, tv0, tpv, tk, tv. split_and!; try done.
  - by apply lookup_push_old.
  - by apply lookup_push_old.
  - f_equal. unfold push. simpl. rewrite length_app. simpl. lia.
Qed.

(** A call that returned, taken apart at the projections and the merge. *)
Lemma forward_inv_ok fuel (a : Args) (p p' : Proc) out kv :
  forward fuel a p = (Ok (out, kv), p') ->
  exists tq b ql x tk kv_len queries0 p0 queries keys values p1 keys' values' p2,
    heap (world p) !! q a = Some tq /\ shape tq = [b; ql; x] /\
    heap (world p) !! k a = Some tk /\ size_dim tk 1 = Ok kv_len /\
    project (query (self p)) (q a)
      [b; ql; nheads (self p); emb_kq_per_head (self p)] p = (Ok queries0, p0) /\
    project_qkv a b ql kv_len queries0 p0 = (Ok (queries, keys, values), p1) /\
    merge_cache a keys values p1 = (Ok (keys', values'), p2) /\
    frame_step p2 p' /\
    (use_cache a = true ->
       exists kl vl, keys' = Some kl /\ values' = Some vl /\ kv = Some (kl, vl)) /\
    (use_cache a = false -> kv = None).
Proof.
  intros Hrun. unfold forward in Hrun.
  inv_bind Hrun p_ s Hg. inv_leaf Hg.
  inv_bind Hrun tq s Hq. inv_leaf Hq.
  inv_bind Hrun bq s Hbq. inv_leaf Hbq.
  destruct (shape tq) as [|b [|ql [|x [|? ?]]]] eqn:Hs; try discriminate.
  injection Hbq as <-. cbn [fst snd] in Hrun.
  inv_bind Hrun tk s Hk. inv_leaf Hk.
  inv_bind Hrun kv_len s Hkl. inv_leaf Hkl.
  inv_bind Hrun queries0 p0 Hq0.
  inv_bind Hrun qkv p1 Hqkv. destruct qkv as [[queries keys] values].
  inv_bind Hrun kv' p2 Hm. destruct kv' as [keys' values'].
  exists tq, b, ql, x, tk, kv_len, queries0, p0, queries, keys, values, p1, keys', values', p2.
  split_and!; try done.
  - match type of Hrun with
    | ?m p2 = _ => assert (framed m) as Hfr by framed_auto
    end.
    by eapply Hfr.
  - intros Hc.
    inv_bind Hrun m_ s1 H1. inv_bind Hrun am s2 H2. inv_bind Hrun kve s3 H3.
    inv_bind Hrun at1 s4 H4. inv_bind Hrun at2 s5 H5. inv_bind Hrun o s6 H6.
    rewrite Hc in Hrun.
    inv_bind Hrun kl s7 H7. inv_leaf H7.
    inv_bind Hrun vl s8 H8. inv_leaf H8.
    inv_leaf Hrun. injection Hrun as <- <-. by eexists _, _.
  - intros Hc.
    inv_bind Hrun m_ s1 H1. inv_bind Hrun am s2 H2. inv_bind Hrun kve s3 H3.
    inv_bind Hrun at1 s4 H4. inv_bind Hrun at2 s5 H5. inv_bind Hrun o s6 H6.
    rewrite Hc in Hrun. inv_leaf Hrun. by injection Hrun as <- <-.
Qed.

(** The fused rotary kernel and the position encoder rotate keys: they
    return keys of the shape they were given. *)
Definition rope_keeps_shape : Prop :=
  forall x c s ids y, FusedRoPE_apply x c s ids = Ok y -> shape y = shape x.

Definition encoder_keeps_shape (pe : option (PositionEncoder A)) : Prop :=
  match pe with
  | Some pe =>
      forall tq tk ids past uc tq' tk',
        adjusted_qk pe tq tk ids past uc = Ok (tq', tk') -> shape tk' = shape tk
  | None => True
  end.

Lemma tensor_op_inv f l l' (p p' : Proc) :
  tensor_op f l p = (Ok l', p') ->
  exists t r, heap (world p) !! l = Some t /\ f t = Ok r /\
              heap (world p') !! l' = Some r /\ frame_step p p' /\ self p' = self p.
Proof.
  intros Hrun. pose proof (framed_tensor_op f l _ _ _ Hrun) as Hfr.
  apply tensor_op_inv_ok in Hrun as (t & r & Hl & Hf & -> & ->).
  exists t, r. split_and!; try done. apply lookup_push_new.
Qed.

Lemma lookup_frame_eq (p p' : Proc) l (t t' : Tensor A) :
  frame_step p p' -> heap (world p) !! l = Some t -> heap (world p') !! l = Some t' ->
  t' = t.
Proof. intros Hfr Hl Hl'. eapply frame_step_lookup in Hl; [|done]. congruence. Qed.

Lemma view_shape sh (t r : Tensor A) : view sh t = Ok r -> shape r = sh.
Proof. unfold view. destruct (decide _); [by intros [= <-]|done]. Qed.

Lemma project_shape layer x sh l (p p' : Proc) :
  project layer x sh p = (Ok l, p') ->
  exists r, heap (world p') !! l = Some r /\ shape r = sh /\
            frame_step p p' /\ self p' = self p.
Proof.
  intros Hrun. apply tensor_op_inv in Hrun as (t & r & _ & Hf & Hl & Hfr & Hs).
  exists r. split_and!; try done.
  destruct (nn_Linear_call layer t); simpl in Hf; try done. by eapply view_shape.
Qed.

Lemma transpose_2_1_shape (t r : Tensor A) b m n d :
  shape t = [b; m; n; d] -> transpose_2_1 t = Ok r -> shape r = [b; n; m; d].
Proof. unfold transpose_2_1. intros ->. by intros [= <-]. Qed.

Lemma apply_gaudi_rope_inv q0 k0 c s ids q' k' (p p' : Proc) :
  rope_keeps_shape ->
  apply_gaudi_rope q0 k0 c s ids p = (Ok (q', k'), p') ->
  exists tk y, heap (world p) !! k0 = Some tk /\ heap (world p') !! k' = Some y /\
               shape y = shape tk.
Proof.
  intros Hrope Hrun. unfold apply_gaudi_rope in Hrun.
  inv_bind Hrun tq s0 H0. inv_leaf H0.
  inv_bind Hrun tk s0 H1. inv_leaf H1.
  inv_bind Hrun tcs s0 H2. inv_leaf H2.
  inv_bind Hrun tsn s0 H3. inv_leaf H3.
  inv_bind Hrun tps s0 H4. inv_leaf H4.
  inv_bind Hrun rq s0 H5. inv_leaf H5.
  inv_bind Hrun lq s0 H6. apply alloc_inv_ok in H6 as [-> ->].
  inv_bind Hrun rk s0 H7. inv_leaf H7.
  inv_bind Hrun lk s0 H8. apply alloc_inv_ok in H8 as [-> ->].
  inv_leaf Hrun. injection Hrun as <- <-.
  exists tk, rk. split; [done|]. split; [by apply lookup_push_at|].
  destruct (res_bind (unsqueeze 0 tcs) (unsqueeze 0)); simpl in H7; try done.
  destruct (res_bind (unsqueeze 0 tsn) (unsqueeze 0)); simpl in H7; try done.
  by eapply Hrope.
Qed.


Lemma merge_cache_none (a : Args) keys values (p : Proc) :
  past_key_value_state a = None -> merge_cache a keys values p = (Ok (keys, values), p).
Proof. intros Hp. unfold merge_cache. by rewrite Hp. Qed.

Lemma merge_cache_empty (a : Args) keys values (p : Proc) pk pv (tpk : Tensor A) :
  past_key_value_state a = Some (pk, pv) -> heap (world p) !! pk = Some tpk ->
  numel tpk = 0 -> merge_cache a keys values p = (Ok (keys, values), p).
Proof.
  intros Hp Hl Hn. unfold merge_cache. rewrite Hp. destruct (use_cache a); [|done].
  erewrite bind_run by (by apply deref_run). by rewrite decide_False by lia.
Qed.

Lemma merge_cache_cross (a : Args) keys values (p p' : Proc) pk pv (tpk : Tensor A)
  keys' values' :
  is_self a = false -> use_cache a = true -> past_key_value_state a = Some (pk, pv) ->
  heap (world p) !! pk = Some tpk -> 0 < numel tpk ->
  merge_cache a keys values p = (Ok (keys', values'), p') ->
  keys' = Some pk /\ values' = Some pv /\ p' = p.
Proof.
  intros Hs Hc Hp Hl Hn. unfold merge_cache. rewrite Hp, Hc, Hs.
  erewrite bind_run by (by apply deref_run). rewrite decide_True by done.
  by intros [= <- <- <-].
Qed.


Lemma frame_step_config (p p' : Proc) :
  frame_step p p' ->
  kvheads (self p') = kvheads (self p) /\
  emb_kq_per_head (self p') = emb_kq_per_head (self p) /\
  position_encoder (self p') = position_encoder (self p).
Proof. intros [_ [r ->]]. done. Qed.

(** C10. A self-attention call with [use_cache=True] that is handed a
    non-empty cache leaves the two tensors of that cache as they were,
    however the call ends; when it returns, the keys and values it returns
    are tensor objects created during the call (the concatenations of the
    cached tensors with the new ones), not the objects handed in. *)
Theorem forward_keeps_prior_cache fuel (a : Args) (p p' : Proc) r
  (pk pv : loc) (tpk tpv : Tensor A) :
  is_self a = true -> use_cache a = true -> past_key_value_state a = Some (pk, pv) ->
  heap (world p) !! pk = Some tpk -> heap (world p) !! pv = Some tpv ->
  0 < numel tpk ->
  forward fuel a p = (r, p') ->
  heap (world p') !! pk = Some tpk /\ heap (world p') !! pv = Some tpv /\
  forall out kv, r = Ok (out, kv) ->
    exists keys values tk0 tv0 tk tv,
      kv = Some (keys, values) /\
      length (heap (world p)) <= keys /\ length (heap (world p)) <= values /\
      keys <> pk /\ values <> pv /\
      heap (world p') !! keys = Some tk /\ heap (world p') !! values = Some tv /\
      cat 2 tpk tk0 = Ok tk /\ cat 2 tpv tv0 = Ok tv.
Proof.
  intros Hself Hcache Hpast Hpk Hpv Hnum Hrun.
  pose proof (framed_forward fuel a _ _ _ Hrun) as Hfr.
  split; [by eapply frame_step_lookup|]. split; [by eapply frame_step_lookup|].
  intros out kv ->.
  apply forward_inv_ok in Hrun
    as (tq & b & ql & x & tk & kl & q0 & p0 & qs & keys & values & p1 & keys' & values'
        & p2 & _ & _ & _ & _ & Hq0 & Hqkv & Hm & Hf2 & Hkv & _).
  pose proof (framed_project _ _ _ _ _ _ Hq0) as Hf0.
  pose proof (framed_project_qkv _ _ _ _ _ _ _ _ Hqkv) as Hf1.
  assert (frame_step p p1) as Hf01 by (by eapply frame_step_trans).
  eapply merge_cache_self in Hm
    as (k0 & v0 & tk0 & tv0 & tpv' & tkn & tvn & -> & -> & Hk0 & Hv0 & Hpv' & Hck & Hcv
        & -> & -> & ->); [|done|done|done|by eapply frame_step_lookup|done].
  destruct (Hkv Hcache) as (kl' & vl' & Hkk & Hvv & ->).
  injection Hkk as <-. injection Hvv as <-.
  assert (tpv' = tpv) as ->.
  { eapply lookup_frame_eq; [|exact Hpv|exact Hpv'].
    eapply frame_step_trans; [exact Hf01|]. eapply frame_step_trans; apply prefix_push_step. }
  pose proof (frame_step_length _ _ Hf01) as Hlen.
  pose proof (lookup_lt_Some _ _ _ Hpk) as Hlk.
  pose proof (lookup_lt_Some _ _ _ Hpv) as Hlv.
  exists (length (heap (world p1))), (S (length (heap (world p1)))), tk0, tv0, tkn, tvn.
  split_and!; try done; try lia.
  - eapply frame_step_lookup; [exact Hf2|]. apply lookup_push_old, lookup_push_new.
  - eapply frame_step_lookup; [exact Hf2|]. apply lookup_push_at.
    rewrite heap_push, length_app. simpl. lia.
Qed.



(** Cross-attention that is handed a cache, off the fused path: the
    projections are skipped, and the transposition that follows reads
    [keys], which was never assigned. *)
Lemma project_qkv_cross_cached (a : Args) b ql kl q0 (p : Proc) c (tq tq' : Tensor A) :
  device (self p) <> hpu -> is_self a = false -> past_key_value_state a = Some c ->
  heap (world p) !! q0 = Some tq -> transpose_2_1 tq = Ok tq' ->
  fst (project_qkv a b ql kl q0 p) = Raise (UnboundLocalError "keys").
Proof.
  intros Hdev Hself Hpast Hq Htr. unfold project_qkv.
  erewrite bind_run by reflexivity.
  rewrite decide_False by done. rewrite Hself, Hpast. cbn [orb].
  rewrite bool_decide_false by done.
  erewrite bind_run by reflexivity. cbv beta iota.
  erewrite bind_run by (by eapply tensor_op_run).
  done.
Qed.

(** C1 on the path of every device but the fused one: a cross-attention call
    that is handed a cache never returns. *)
Theorem cross_attention_cached_never_returns fuel (a : Args) (p p' : Proc) c r :
  device (self p) <> hpu -> is_self a = false -> past_key_value_state a = Some c ->
  forward fuel a p = (r, p') -> is_ok r = false.
Proof.
  intros Hdev Hself Hpast Hrun. destruct r as [[out kv]| |]; [|done|done].
  apply forward_inv_ok in Hrun
    as (tq & b & ql & x & tk & kl & q0 & p0 & qs & keys & values & p1 & keys' & values'
        & p2 & _ & _ & _ & _ & Hq0 & Hqkv & _).
  pose proof (framed_project _ _ _ _ _ _ Hq0) as Hf0.
  assert (device (self p0) <> hpu) as Hdev0.
  { destruct Hf0 as [_ [rot ->]]. done. }
  unfold project_qkv in Hqkv.
  inv_bind Hqkv p_ s Hg. inv_leaf Hg.
  rewrite decide_False in Hqkv by done.
  rewrite Hself, Hpast in Hqkv. cbn [orb] in Hqkv.
  rewrite bool_decide_false in Hqkv by done.
  inv_bind Hqkv qkv s1 H1. inv_leaf H1. subst qkv. cbv beta iota in Hqkv.
  inv_bind Hqkv q2 s2 H2. inv_bind Hqkv k2 s3 H3. done.
Qed.

(** X10. On the fused path the same call reuses the cache: the pair it
    returns is the pair it was handed, with its contents unchanged. *)
Lemma cross_attention_cached_hpu fuel (a : Args) (p p' : Proc) out kv
  (pk pv : loc) (tpk tpv : Tensor A) :
  device (self p) = hpu -> is_self a = false -> use_cache a = true ->
  past_key_value_state a = Some (pk, pv) ->
  heap (world p) !! pk = Some tpk -> heap (world p) !! pv = Some tpv ->
  0 < numel tpk ->
  forward fuel a p = (Ok (out, kv), p') ->
  kv = Some (pk, pv) /\
  heap (world p') !! pk = Some tpk /\ heap (world p') !! pv = Some tpv.
Proof.
  intros Hdev Hself Hcache Hpast Hpk Hpv Hnum Hrun.
  pose proof (framed_forward fuel a _ _ _ Hrun) as Hfr.
  split; [|split; by eapply frame_step_lookup].
  apply forward_inv_ok in Hrun
    as (tq & b & ql & x & tk & kl & q0 & p0 & qs & keys & values & p1 & keys' & values'
        & p2 & _ & _ & _ & _ & Hq0 & Hqkv & Hm & Hf2 & Hkv & _).
  pose proof (framed_project _ _ _ _ _ _ Hq0) as Hf0.
  pose proof (framed_project_qkv _ _ _ _ _ _ _ _ Hqkv) as Hf1.
  eapply merge_cache_cross in Hm as (Ek' & Ev' & Ep); try done.
  - destruct (Hkv Hcache) as (kl' & vl' & Ek & Ev & ->). by simplify_eq.
  - eapply frame_step_lookup; [|exact Hpk]. by eapply frame_step_trans.
Qed.

End ForwardFacts.

(** ** Loading weights *)

Section LoadFacts.
Context {A : Type} `{!Torch A} `{!TPModule A}.
Import MultiHeadAttention TPMultiHeadAttention.

(** The names [load_weights] looks up, in order. *)
Definition recognized_names (use_bias : bool) : list (list string) :=
  [["query"; "weight"]; ["key"; "weight"]; ["value"; "weight"]; ["dense"; "weight"]]
  ++ (if use_bias
      then [["query"; "bias"]; ["key"; "bias"]; ["value"; "bias"]; ["dense"; "bias"]]
      else []).

(** A key that carries the suffix of a recognized name. *)
Definition recognized (use_bias : bool) (k : string) : Prop :=
  Exists (fun n => ends_with k (param_name n)) (recognized_names use_bias).

#[export] Instance recognized_dec ub k : Decision (recognized ub k).
Proof. unfold recognized. apply _. Defined.

Lemma get_sd_weight_inv (tv : gmap string (Tensor A)) used names t used' :
  _get_sd_weight tv used names = Ok (t, used') ->
  exists k, used' = {[k]} ∪ used /\ tv !! k = Some t /\ ends_with k (param_name names).
Proof.
  unfold _get_sd_weight.
  destruct (map_to_list _) as [|[k t0] [|? ?]] eqn:E; try done.
  intros [= <- <-]. exists k. split; [done|].
  assert ((k, t0) ∈ map_to_list
            (filter (fun kt => ends_with (fst kt) (param_name names)) tv)) as Hin
    by (rewrite E; left).
  apply elem_of_map_to_list in Hin. by apply map_lookup_filter_Some in Hin.
Qed.

(** What the lookups consumed: one key of the mapping per recognized name. *)
Lemma grab_weights_inv ub (tv : gmap string (Tensor A)) ws bs used :
  grab_weights ub tv = Ok (ws, bs, used) ->
  exists ks,
    used = list_to_set ks /\
    Forall2 (fun k n => k ∈ dom tv /\ ends_with k (param_name n)) ks
      (reverse (recognized_names ub)).
Proof.
  unfold grab_weights. intros Hg.
  destruct (_get_sd_weight tv ∅ _) as [[t1 u1]| |] eqn:E1; try done.
  apply get_sd_weight_inv in E1 as (k1 & -> & Hk1 & He1).
  cbn [res_bind snd] in Hg.
  destruct (_get_sd_weight tv _ ["key"; "weight"]) as [[t2 u2]| |] eqn:E2; try done.
  apply get_sd_weight_inv in E2 as (k2 & -> & Hk2 & He2).
  cbn [res_bind snd] in Hg.
  destruct (_get_sd_weight tv _ ["value"; "weight"]) as [[t3 u3]| |] eqn:E3; try done.
  apply get_sd_weight_inv in E3 as (k3 & -> & Hk3 & He3).
  cbn [res_bind snd] in Hg.
  destruct (_get_sd_weight tv _ ["dense"; "weight"]) as [[t4 u4]| |] eqn:E4; try done.
  apply get_sd_weight_inv in E4 as (k4 & -> & Hk4 & He4).
  cbn [res_bind snd] in Hg.
  destruct ub.
  - destruct (_get_sd_weight tv _ ["query"; "bias"]) as [[t5 u5]| |] eqn:E5; try done.
    apply get_sd_weight_inv in E5 as (k5 & -> & Hk5 & He5).
    cbn [res_bind snd] in Hg.
    destruct (_get_sd_weight tv _ ["key"; "bias"]) as [[t6 u6]| |] eqn:E6; try done.
    apply get_sd_weight_inv in E6 as (k6 & -> & Hk6 & He6).
    cbn [res_bind snd] in Hg.
    destruct (_get_sd_weight tv _ ["value"; "bias"]) as [[t7 u7]| |] eqn:E7; try done.
    apply get_sd_weight_inv in E7 as (k7 & -> & Hk7 & He7).
    cbn [res_bind snd] in Hg.
    destruct (_get_sd_weight tv _ ["dense"; "bias"]) as [[t8 u8]| |] eqn:E8; try done.
    apply get_sd_weight_inv in E8 as (k8 & -> & Hk8 & He8).
    cbn [res_bind snd] in Hg. injection Hg as <- <- <-.
    exists [k8; k7; k6; k5; k4; k3; k2; k1]. split; [done|].
    repeat (apply List.Forall2_cons; [split; [eapply elem_of_dom_2; eassumption|assumption]|]).
    apply List.Forall2_nil.
  - injection Hg as <- <- <-.
    exists [k4; k3; k2; k1]. split; [done|].
    repeat (apply List.Forall2_cons; [split; [eapply elem_of_dom_2; eassumption|assumption]|]).
    apply List.Forall2_nil.
Qed.

(** No recognized name ends in another one. *)
Lemma recognized_names_unrelated ub i j n m :
  reverse (recognized_names ub) !! i = Some n ->
  reverse (recognized_names ub) !! j = Some m ->
  i <> j -> ~ ends_with (param_name m) (param_name n).
Proof.
  intros Hi Hj Hne Hs.
  assert (bool_decide (ends_with (param_name m) (param_name n)) = true) as Hb
    by (by apply bool_decide_eq_true).
  clear Hs. destruct ub; vm_compute in Hi, Hj;
    repeat (destruct i as [|i]; [injection Hi as <-|]); try discriminate;
    repeat (destruct j as [|j]; [injection Hj as <-|]); try discriminate;
    try (by destruct Hne); by vm_compute in Hb.
Qed.

(** A key carries the suffix of at most one recognized name, so the keys the
    lookups consumed are distinct. *)
Lemma consumed_keys_distinct ub (keys : gset string) (ks : list string) :
  Forall2 (fun k n => k ∈ keys /\ ends_with k (param_name n)) ks
    (reverse (recognized_names ub)) ->
  NoDup ks /\ length ks = (if ub then 8 else 4).
Proof.
  intros Hall. split.
  - apply NoDup_alt. intros i j k Hi Hj.
    destruct (decide (i = j)) as [|Hne]; [done|]. exfalso.
    destruct (Forall2_lookup_l _ _ _ _ _ Hall Hi) as (n & Hn & _ & Hen).
    destruct (Forall2_lookup_l _ _ _ _ _ Hall Hj) as (m & Hm & _ & Hem).
    unfold ends_with in Hen, Hem.
    destruct (suffix_weak_total _ _ _ Hen Hem) as [Hs|Hs].
    + by eapply (recognized_names_unrelated ub i j n m).
    + by eapply (recognized_names_unrelated ub j i m n).
  - apply Forall2_length in Hall. rewrite Hall, length_reverse. by destruct ub.
Qed.

(** C6, amended. When every recognized parameter name is matched by exactly
    one entry of the mapping (the lookups succeed) and the mapping holds an
    entry the lookups did not consume, [load_weights] raises the
    unused-weights error with exactly the keys that were not consumed, and it
    raises before any copy: the instance is as it was. *)
Theorem load_weights_unused (tv : gmap string (Tensor A)) (o : obj A) ws bs used :
  grab_weights (use_bias o) tv = Ok (ws, bs, used) ->
  (exists k, k ∈ dom tv /\ k ∉ used) ->
  load_weights tv o = (Raise (AttributeError (dom tv ∖ used)), o) /\
  (forall k, k ∈ dom tv ∖ used <-> k ∈ dom tv /\ k ∉ used).
Proof.
  intros Hg (k & Hk & Hnk). split; [|intros; apply elem_of_difference].
  unfold load_weights.
  erewrite bind_run by reflexivity.
  erewrite bind_lift_ok by exact Hg. cbv beta iota.
  destruct (grab_weights_inv _ _ _ _ _ Hg) as (ks & -> & Hall).
  destruct (consumed_keys_distinct _ _ _ Hall) as [Hnd Hlen].
  assert ((if use_bias o then 8 else 4) < size tv) as Hsz.
  { rewrite <- size_dom, <- Hlen.
    assert ({[k]} ∪ list_to_set ks ⊆ dom tv) as Hsub.
    { apply union_subseteq. split; [by apply singleton_subseteq_l|].
      intros x Hx. apply elem_of_list_to_set in Hx.
      apply list_elem_of_lookup in Hx as [i Hi].
      by destruct (Forall2_lookup_l _ _ _ _ _ Hall Hi) as (n & _ & Hd & _). }
    apply subseteq_size in Hsub.
    rewrite size_union in Hsub by (by apply disjoint_singleton_l).
    rewrite size_singleton, size_list_to_set in Hsub by done. lia. }
  rewrite bool_decide_true by done. done.
Qed.

End LoadFacts.

(** ** The parallel wrapper's forward *)

Section GroupFacts.
Context {A : Type} `{!Torch A}.
Import MultiHeadAttention TPMultiHeadAttention.

Lemma all_ok_lookup {X} (rs : list (Res X)) (xs : list X) i r :
  all_ok rs = Ok xs -> rs !! i = Some r -> exists x, r = Ok x /\ xs !! i = Some x.
Proof.
  revert xs i. induction rs as [|r0 rs IH]; intros xs i Hall Hi; [done|].
  simpl in Hall. destruct r0 as [x0| |]; try done. simpl in Hall.
  destruct (all_ok rs) as [xs'| |] eqn:E; try done. simpl in Hall.
  injection Hall as <-. destruct i as [|i]; simpl in *.
  - injection Hi as <-. by exists x0.
  - by eapply IH.
Qed.

Lemma all_ok_contributions {X Y} (f : X -> Res Y) (ws : list X) (ys : list Y) :
  all_ok (map f ws) = Ok ys -> Forall2 (fun w y => f w = Ok y) ws ys.
Proof.
  revert ys. induction ws as [|w ws IH]; intros ys; simpl.
  - intros [= <-]. constructor.
  - destruct (f w) as [y| |] eqn:E; try done. simpl.
    destruct (all_ok (map f ws)) as [ys'| |]; try done. simpl.
    intros [= <-]. constructor; [done|]. by apply IH.
Qed.

(** C9. In a run of the group in which every worker reaches the reduction,
    the output a worker returns is the tensor the reduction hands it: the sum
    across workers of the local outputs of [MultiHeadAttention.forward].  The
    cache it returns with [use_cache=True] is the local cache, the very
    objects the local call returned, with their contents unchanged; it takes
    no part in the reduction. *)
Theorem tp_forward_reduces_output fuel (workers : list (Proc * Args))
  (results : list (Res (loc * option (loc * loc)) * Proc))
  (r : nat) (p p1 : Proc) (a : Args) (out_par : loc) (cache : option (loc * loc)) :
  group_forward fuel workers = Ok results ->
  workers !! r = Some (p, a) ->
  forward_par fuel a p = (Ok (out_par, cache), p1) ->
  exists contributed own,
    Forall2 (fun w t => contribution fuel w = Ok t) workers contributed /\
    heap (world p1) !! out_par = Some own /\ contributed !! r = Some own /\
    results !! r =
      Some (match all_reduce_sum contributed with
            | Ok total =>
                (Ok (length (heap (world p1)), if use_cache a then cache else None),
                 push total p1)
            | Raise e => (Raise e, p1)
            | OutOfFuel => (OutOfFuel, p1)
            end) /\
    (forall total l t,
       all_reduce_sum contributed = Ok total ->
       heap (world (push total p1)) !! length (heap (world p1)) = Some total /\
       (heap (world p1) !! l = Some t -> heap (world (push total p1)) !! l = Some t)).
Proof.
  intros Hgroup Hw Hpar. unfold group_forward in Hgroup.
  destruct (all_ok (map (contribution fuel) workers)) as [contributed| |] eqn:Hall;
    try done.
  simpl in Hgroup. injection Hgroup as <-.
  assert (map (contribution fuel) workers !! r = Some (contribution fuel (p, a))) as Hr
    by (by rewrite list_lookup_fmap, Hw).
  destruct (all_ok_lookup _ _ _ _ Hall Hr) as (own & Hown & Hc).
  unfold contribution in Hown. cbn [fst snd] in Hown. rewrite Hpar in Hown.
  cbn [fst] in Hown.
  destruct (heap (world p1) !! out_par) as [t|] eqn:Hout; [|done].
  injection Hown as ->.
  exists contributed, own. split; [by apply all_ok_contributions|].
  split; [done|]. split; [done|]. split.
  - rewrite list_lookup_imap, Hw. cbn [fmap option_fmap option_map fst snd]. f_equal.
    unfold forward. erewrite bind_run by exact Hpar. cbn [fst snd].
    assert (reduce_from_tensor_model_parallel_region (Collective := group_collective r contributed) own
            = all_reduce_sum contributed) as Hred.
    { simpl. by rewrite list_insert_id. }
    destruct (all_reduce_sum contributed) as [total|e|] eqn:Hsum.
    + destruct (use_cache a) eqn:Hc0.
      * erewrite bind_run by (eapply tensor_op_run; [exact Hout|by rewrite Hred]). done.
      * erewrite bind_run by (eapply tensor_op_run; [exact Hout|by rewrite Hred]). done.
    + destruct (use_cache a);
        by erewrite bind_raise by (eapply tensor_op_raise; [exact Hout|by rewrite Hred]).
    + destruct (use_cache a); unfold bind, tensor_op, bind;
        rewrite (deref_run _ _ _ Hout); unfold lift; by rewrite Hred.
  - intros total l t _. split; [apply lookup_push_new|apply lookup_push_old].
Qed.

End GroupFacts.

(** * Further properties of the code *)

(** ** The entries of the rotary tables *)

Section RotaryTables.
Context {A : Type} `{!Torch A}.
Import GaudiRotaryEmbedding.

(** [x.to(d)] on one element of a tensor of dtype [d0]. *)
Definition cast_from (d0 d : DType) (x : A) : A :=
  if decide (d0 = d) then x else sc_cast d x.

Lemma lookup_flat_map_uniform {B C} (f : B -> list C) (sz : nat) (xs : list B) :
  (forall x, length (f x) = sz) ->
  forall i j x, xs !! i = Some x -> j < sz -> flat_map f xs !! (i * sz + j) = f x !! j.
Proof.
  intros Hlen. induction xs as [|y xs IH]; intros i j x Hi Hj; [done|].
  destruct i as [|i]; simpl in *.
  - injection Hi as ->. rewrite lookup_app_l by (rewrite Hlen; lia). done.
  - rewrite lookup_app_r by (rewrite Hlen; lia). rewrite Hlen.
    replace (sz + i * sz + j - sz) with (i * sz + j) by lia. by apply IH.
Qed.

Lemma data_to d (t : Tensor A) : data (to d t) = map (cast_from (dtype t) d) (data t).
Proof.
  unfold to, cast_from. destruct (decide _); simpl; [by rewrite map_id|done].
Qed.

Lemma shape_to d (t : Tensor A) : shape (to d t) = shape t.
Proof. unfold to. by destruct (decide _). Qed.

Lemma emb_row_lookup inv i j fj :
  data inv !! j = Some fj ->
  emb_row inv i !! j = Some (sc_mul (sc_of_nat i) fj) /\
  emb_row inv i !! (length (data inv) + j) = Some (sc_mul (sc_of_nat i) fj).
Proof.
  intros Hj. pose proof (lookup_lt_Some _ _ _ Hj) as Hlt. unfold emb_row. split.
  - rewrite lookup_app_l by (by rewrite length_map).
    by rewrite list_lookup_fmap, Hj.
  - rewrite lookup_app_r by (rewrite length_map; lia). rewrite length_map.
    replace (length (data inv) + j - length (data inv)) with j by lia.
    by rewrite list_lookup_fmap, Hj.
Qed.

Lemma table_lookup f dt n inv i c e :
  i < n -> c < length (data inv) + length (data inv) -> emb_row inv i !! c = Some e ->
  data (table f dt n inv) !! (i * (length (data inv) + length (data inv)) + c)
  = Some (cast_from (dtype inv) dt (f e)).
Proof.
  intros Hi Hc He. unfold table. rewrite data_to. simpl.
  rewrite !list_lookup_fmap.
  erewrite (lookup_flat_map_uniform (emb_row inv)); [by rewrite He| |by apply lookup_seq_lt|done].
  intros x. apply length_emb_row.
Qed.

(** X2. What [_set_cos_sin_cache] stores: [emb] is [freqs] twice, so the two
    halves of every row of the tables coincide; at row [i], columns [j] and
    [len(inv_freq) + j] hold the cosine (sine) of [i * inv_freq[j]], cast to
    the requested dtype. *)
Theorem rotary_table_entries (s s' : obj A) (n : nat) (dt : DType) (i j : nat) (fj : A) :
  _set_cos_sin_cache n dt s = (Ok tt, s') ->
  i < n -> data (inv_freq s) !! j = Some fj ->
  let h := length (data (inv_freq s)) in
  let angle := sc_mul (sc_of_nat i) fj in
  shape (_cos_cached s') = [n; h + h] /\ shape (_sin_cached s') = [n; h + h] /\
  data (_cos_cached s') !! (i * (h + h) + j)
    = Some (cast_from (dtype (inv_freq s)) dt (sc_cos angle)) /\
  data (_cos_cached s') !! (i * (h + h) + (h + j))
    = Some (cast_from (dtype (inv_freq s)) dt (sc_cos angle)) /\
  data (_sin_cached s') !! (i * (h + h) + j)
    = Some (cast_from (dtype (inv_freq s)) dt (sc_sin angle)) /\
  data (_sin_cached s') !! (i * (h + h) + (h + j))
    = Some (cast_from (dtype (inv_freq s)) dt (sc_sin angle)).
Proof.
  intros Hrun Hi Hj h angle. rewrite set_cache_run in Hrun. injection Hrun as <-.
  pose proof (lookup_lt_Some _ _ _ Hj) as Hlt.
  destruct (emb_row_lookup (inv_freq s) i j fj Hj) as [H1 H2].
  cbn [_cos_cached _sin_cached]. unfold table at 1 2. rewrite !shape_to. cbn [tmap shape emb_table].
  split_and!; try done; subst h; apply table_lookup; try done; lia.
Qed.

Lemma wf_table f dt n inv : wf_tensor (table f dt n inv).
Proof.
  unfold wf_tensor, numel, table. rewrite data_to, shape_to. simpl.
  rewrite !length_map. erewrite length_flat_map_uniform by apply length_emb_row.
  rewrite length_seq. lia.
Qed.

Lemma wf_to d (t : Tensor A) : wf_tensor t -> wf_tensor (to d t).
Proof. unfold wf_tensor, numel. rewrite data_to, shape_to, length_map. done. Qed.

(** X1. [__init__] always returns an instance, and on it [forward] returns
    for every requested length, also beyond the cached one: two tables of
    exactly [seq_len] rows, as wide as [dim] rounded up to an even number, in
    the dtype of [x]; the cached length becomes the larger of the requested
    length and [max_position_embeddings]. *)
Theorem rotary_forward_shape (d mpe : nat) (b sf : Q) (dt : DType) (x : Tensor A) (n : nat) :
  exists s c sn s',
    __init__ d mpe b sf dt = Ok s /\
    forward x n s = (Ok (c, sn), s') /\
    shape c = [n; 2 * ((d + 1) / 2)] /\ shape sn = [n; 2 * ((d + 1) / 2)] /\
    dtype c = dtype x /\ dtype sn = dtype x /\
    wf_tensor c /\ wf_tensor sn /\
    max_seq_len_cached s = mpe /\ max_seq_len_cached s' = Nat.max n mpe.
Proof.
  destruct (rotary_init_returns d mpe b sf dt) as [s Hinit].
  pose proof (rotary_init_generated _ _ _ _ _ _ Hinit) as Hgen.
  assert (length (data (inv_freq s)) = (d + 1) / 2 /\ max_seq_len_cached s = mpe)
    as [Hlen Hmax].
  { unfold __init__ in Hinit. rewrite set_cache_run in Hinit. injection Hinit as <-.
    simpl. by rewrite length_map, length_seq. }
  destruct (forward_spec s x n Hgen) as (dt' & s' & Hrun & _ & _ & _ & _ & Hm & _).
  eexists s, _, _, s'. split; [exact Hinit|]. split; [exact Hrun|].
  rewrite !shape_to, !dtype_to. unfold table at 1 2. rewrite !shape_to.
  cbn [tmap shape emb_table]. rewrite Hlen, Hm, Hmax.
  split_and!; try done; try (f_equal; f_equal; lia); apply wf_to, wf_table.
Qed.

End RotaryTables.

(** ** The rotary cache across requests *)

Section RotaryGrowth.
Context {A : Type} `{!Torch A}.
Import GaudiRotaryEmbedding.





End RotaryGrowth.

(** ** How construction ends *)

Section InitOutcomes.
Context {A : Type} `{!Torch A}.
Import MultiHeadAttention.

(** Lines 108-119: the four projections are drawn from the generator in the
    order query, key, value, dense. *)
Definition drawn_linears (emb_dim emb_kq emb_v nh kvh : nat) (ub : bool) (g : Rng) :
  Linear A * Linear A * Linear A * Linear A * Rng :=
  let '(q, g) := nn_Linear emb_dim (nh * emb_kq) ub g in
  let '(k, g) := nn_Linear emb_dim (kvh * emb_kq) ub g in
  let '(v, g) := nn_Linear emb_dim (kvh * emb_v) ub g in
  let '(d, g) := nn_Linear (nh * emb_v) emb_dim ub g in
  (q, k, v, d, g).

(** [p_dropout if p_dropout is not None else 0.0] *)
Definition dropout_or_zero (p : option Q) : Q :=
  match p with Some x => x | None => 0%Q end.

Lemma dropout_fails (p : option Q) :
  ~ dropout_ok p ->
  (if Qeq_bool (dropout_or_zero p) 0 then Ok None
   else (d <~ new_dropout (dropout_or_zero p) ;; Ok (Some d)))
  = Raise (ValueError "dropout probability has to be between 0 and 1").
Proof.
  intros Hp. destruct p as [p|]; [|by destruct Hp]. simpl in *.
  destruct (Qeq_bool p 0) eqn:E.
  - destruct Hp. apply Qeq_bool_iff in E. rewrite E. split; [apply Qle_refl|done].
  - unfold new_dropout.
    destruct (Qle_bool 0 p) eqn:E0, (Qle_bool p 1) eqn:E1; try done.
    destruct Hp. by rewrite <- !Qle_bool_iff.
Qed.

Lemma dropout_passes (p : option Q) :
  dropout_ok p ->
  (if Qeq_bool (dropout_or_zero p) 0 then Ok None
   else (d <~ new_dropout (dropout_or_zero p) ;; Ok (Some d)))
  = Ok (if Qeq_bool (dropout_or_zero p) 0 then None else Some (dropout_or_zero p)).
Proof.
  intros Hp. destruct (Qeq_bool _ 0); [done|].
  unfold new_dropout. destruct p as [p|]; simpl in *; [|done].
  destruct Hp as [H0 H1]. apply Qle_bool_iff in H0, H1. by rewrite H0, H1.
Qed.

Lemma dropout_ok_dec (p : option Q) : dropout_ok p \/ ~ dropout_ok p.
Proof.
  destruct p as [p|]; simpl; [|by left].
  destruct (Qle_bool 0 p) eqn:E0, (Qle_bool p 1) eqn:E1.
  - left. by rewrite <- !Qle_bool_iff.
  - right. intros [_ H1]. apply Qle_bool_iff in H1. congruence.
  - right. intros [H0 _]. apply Qle_bool_iff in H0. congruence.
  - right. intros [H0 _]. apply Qle_bool_iff in H0. congruence.
Qed.

(** [MultiHeadAttention.__init__] up to the dropout check: the four draws. *)
Lemma base_init_draws emb_dim emb_kq emb_v nh kvh p ub pe (w : World A) q k v d g :
  drawn_linears emb_dim emb_kq emb_v nh kvh ub (rng w) = (q, k, v, d, g) ->
  MultiHeadAttention.__init__ emb_dim emb_kq emb_v nh kvh p ub pe w =
  (attn_dropout <- lift (if Qeq_bool (dropout_or_zero p) 0 then Ok None
                         else (d <~ new_dropout (dropout_or_zero p) ;; Ok (Some d))) ;;
   w <- get ;;
   dm <- lift (py_floordiv emb_dim nh) ;;
   rot <- lift (GaudiRotaryEmbedding.__init__ dm emb_dim 10000 1 (default_dtype w)) ;;
   ret (mkMHA nh kvh emb_dim emb_kq emb_v (dropout_or_zero p) ub q k v d
          attn_dropout pe
          (flash_sdp (backends w)) (mem_efficient_sdp (backends w)) (math_sdp (backends w))
          rot true cpu None)) (set_rng g w).
Proof.
  unfold drawn_linears, MultiHeadAttention.__init__, new_linear. intros Hd.
  unfold bind at 1. destruct (nn_Linear emb_dim (nh * emb_kq) ub (rng w)) as [q0 g0].
  unfold bind at 1. cbn [rng set_rng].
  destruct (nn_Linear emb_dim (kvh * emb_kq) ub g0) as [k0 g1].
  unfold bind at 1. cbn [rng set_rng].
  destruct (nn_Linear emb_dim (kvh * emb_v) ub g1) as [v0 g2].
  unfold bind at 1. cbn [rng set_rng].
  destruct (nn_Linear (nh * emb_v) emb_dim ub g2) as [d0 g3].
  injection Hd as <- <- <- <- <-. reflexivity.
Qed.

(** A construction with a valid dropout probability and at least one head. *)
Lemma mha_init_run emb_dim emb_kq emb_v nh kvh p ub pe (w : World A) :
  exists q k v d g,
    drawn_linears emb_dim emb_kq emb_v nh kvh ub (rng w) = (q, k, v, d, g) /\
    (0 < nh -> dropout_ok p ->
     exists rot,
       GaudiRotaryEmbedding.__init__ (emb_dim / nh) emb_dim 10000 1 (default_dtype w)
         = Ok rot /\
       MultiHeadAttention.__init__ emb_dim emb_kq emb_v nh kvh p ub pe w =
         (Ok (mkMHA nh kvh emb_dim emb_kq emb_v (dropout_or_zero p) ub q k v d
                (if Qeq_bool (dropout_or_zero p) 0 then None else Some (dropout_or_zero p))
                pe (flash_sdp (backends w)) (mem_efficient_sdp (backends w))
                (math_sdp (backends w)) rot true cpu None),
          set_rng g w)).
Proof.
  destruct (drawn_linears emb_dim emb_kq emb_v nh kvh ub (rng w)) as [[[[q k] v] d] g] eqn:Hd.
  exists q, k, v, d, g. split; [done|]. intros Hnh Hp.
  rewrite (base_init_draws _ _ _ _ _ p ub pe w _ _ _ _ _ Hd).
  erewrite bind_lift_ok by (by apply dropout_passes).
  erewrite bind_run by reflexivity.
  erewrite bind_lift_ok by (apply py_floordiv_run; lia).
  destruct (rotary_init_returns (emb_dim / nh) emb_dim 10000 1
              (default_dtype (set_rng g w))) as [rot Hrot].
  erewrite bind_lift_ok by exact Hrot.
  by exists rot.
Qed.

(** X3. How [MultiHeadAttention.__init__] ends.  The four projections are
    drawn first, whatever follows.  A dropout probability outside [0, 1]
    raises [ValueError]; otherwise [nheads = 0] raises [ZeroDivisionError]
    (the rotary dimension is [emb_dim // nheads]); otherwise the instance is
    returned, with the head counts as given ([kvheads] is not checked), the
    dropout layer present exactly when the probability is not zero, the
    kernel switches of the process recorded, and rotary tables of dimension
    [emb_dim // nheads] covering [emb_dim] positions. *)
Theorem mha_init_outcome emb_dim emb_kq emb_v nh kvh p ub pe (w : World A) :
  let run := MultiHeadAttention.__init__ emb_dim emb_kq emb_v nh kvh p ub pe w in
  exists q k v d g,
    drawn_linears emb_dim emb_kq emb_v nh kvh ub (rng w) = (q, k, v, d, g) /\
    snd run = set_rng g w /\
    (~ dropout_ok p -> exists msg, fst run = Raise (ValueError msg)) /\
    (dropout_ok p -> nh = 0 -> fst run = Raise ZeroDivisionError) /\
    (dropout_ok p -> 0 < nh ->
       exists rot,
         GaudiRotaryEmbedding.__init__ (emb_dim / nh) emb_dim 10000 1 (default_dtype w)
           = Ok rot /\
         GaudiRotaryEmbedding.max_seq_len_cached rot = emb_dim /\
         fst run =
           Ok (mkMHA nh kvh emb_dim emb_kq emb_v (dropout_or_zero p) ub q k v d
                 (if Qeq_bool (dropout_or_zero p) 0 then None else Some (dropout_or_zero p))
                 pe (flash_sdp (backends w)) (mem_efficient_sdp (backends w))
                 (math_sdp (backends w)) rot true cpu None)).
Proof.
  intros run. subst run.
  destruct (drawn_linears emb_dim emb_kq emb_v nh kvh ub (rng w)) as [[[[q k] v] d] g] eqn:Hd.
  exists q, k, v, d, g. split; [done|].
  rewrite (base_init_draws _ _ _ _ _ p ub pe w _ _ _ _ _ Hd).
  destruct (dropout_ok_dec p) as [Hp|Hp]; cycle 1.
  { erewrite bind_lift_raise by (by apply dropout_fails). split_and!; try done.
    intros _. by eexists. }
  erewrite bind_lift_ok by (by apply dropout_passes).
  erewrite bind_run by reflexivity.
  destruct (decide (nh = 0)) as [->|Hnh].
  { erewrite bind_lift_raise by reflexivity. split_and!; try done. lia. }
  erewrite bind_lift_ok by (apply py_floordiv_run; lia).
  destruct (rotary_init_returns (emb_dim / nh) emb_dim 10000 1
              (default_dtype (set_rng g w))) as [rot Hrot].
  erewrite bind_lift_ok by exact Hrot.
  split_and!; try done.
  intros _ _. exists rot. split; [done|]. split; [|done].
  unfold GaudiRotaryEmbedding.__init__ in Hrot. rewrite set_cache_run in Hrot.
  by injection Hrot as <-.
Qed.


Lemma kv_divisible_fails kvh ws :
  0 < ws -> 0 < kvh -> kvh mod ws <> 0 -> ws mod kvh <> 0 ->
  TPMultiHeadAttention.kv_divisible kvh ws = Ok false.
Proof.
  intros Hws Hkv H1 H2. unfold TPMultiHeadAttention.kv_divisible.
  case_bool_decide as Hle.
  - rewrite py_mod_run by done. simpl. rewrite bool_decide_false by done.
    by rewrite bool_decide_false by lia.
  - simpl. rewrite bool_decide_true by lia. rewrite py_mod_run by done. simpl.
    by rewrite bool_decide_false by done.
Qed.

(** X16. The order of the checks in [TPMultiHeadAttention.__init__].  In a
    process where [torch.distributed] is not initialised the bare assertion
    fails, whatever the head counts.  Otherwise the query-head assertion is
    the first to fail; with [kvheads = 0] the second assertion divides by
    zero; the KV-head assertion fails when neither count divides the other.
    In all four cases nothing of the process has changed. *)
Theorem tp_init_error_order emb_dim emb_kq emb_v nh kvh p ub pe group (w : World A) :
  let run := TPMultiHeadAttention.__init__ emb_dim emb_kq emb_v nh kvh p ub pe group w in
  let ws := pg_world_size group in
  (dist_initialized w = false -> run = (Raise (AssertionError None), w)) /\
  (dist_initialized w = true -> 0 < ws ->
     (nh mod ws <> 0 ->
        run = (Raise (AssertionError
                        (Some "The number of heads must be divisible by world size")), w)) /\
     (nh mod ws = 0 -> kvh = 0 -> run = (Raise ZeroDivisionError, w)) /\
     (nh mod ws = 0 -> 0 < kvh -> kvh mod ws <> 0 -> ws mod kvh <> 0 ->
        run = (Raise (AssertionError
                        (Some "the kv heads must be divisible by the world size or the world size must be divisible by kv heads")), w))).
Proof.
  intros run ws. subst run ws. destruct group as [r ws]. simpl.
  unfold TPMultiHeadAttention.__init__, TPMultiHeadAttention.rank_and_world. simpl.
  erewrite bind_run by reflexivity. split.
  { intros ->. done. }
  intros -> Hws. erewrite bind_lift_ok by reflexivity.
  erewrite bind_lift_ok by (by apply py_mod_run).
  split_and!.
  - intros Hm. by rewrite bool_decide_false by done.
  - intros Hm ->. rewrite bool_decide_true by done.
    erewrite bind_lift_ok by reflexivity.
    unfold TPMultiHeadAttention.kv_divisible.
    rewrite bool_decide_false by lia. simpl. rewrite bool_decide_true by lia. done.
  - intros Hm Hkv H1 H2. rewrite bool_decide_true by done.
    erewrite bind_lift_ok by reflexivity.
    erewrite bind_lift_ok by (by apply kv_divisible_fails). done.
Qed.

(** The local KV head count of line 389. *)
Definition local_kv (kvh ws : nat) : nat := if decide (ws <= kvh) then kvh / ws else 1.

(** When the assertions pass, [TPMultiHeadAttention.__init__] is
    [MultiHeadAttention.__init__] on the local head counts, followed by
    [setup_tp]. *)
Lemma tp_init_reduces emb_dim emb_kq emb_v nh kvh p ub pe group (w : World A) :
  dist_initialized w = true -> 0 < pg_world_size group -> 0 < kvh ->
  divisibility_invariant nh kvh (pg_world_size group) ->
  TPMultiHeadAttention.__init__ emb_dim emb_kq emb_v nh kvh p ub pe group w =
  (o <- MultiHeadAttention.__init__ emb_dim emb_kq emb_v (nh / pg_world_size group)
          (local_kv kvh (pg_world_size group)) p ub pe ;;
   ret (TPMultiHeadAttention.setup_tp nh kvh (pg_rank group) (pg_world_size group) o)) w.
Proof.
  intros Hi Hws Hkv [Hn Hk]. destruct group as [r ws]. simpl in *.
  unfold TPMultiHeadAttention.__init__, TPMultiHeadAttention.rank_and_world. simpl.
  erewrite bind_run by reflexivity.
  rewrite Hi. erewrite bind_lift_ok by reflexivity.
  erewrite bind_lift_ok by (by apply py_mod_run).
  apply mod_0_divide in Hn; [|done]. rewrite bool_decide_true by done.
  erewrite bind_lift_ok by reflexivity.
  destruct (kv_divisible_run kvh ws Hws Hkv) as (c & Hc & Hiff).
  erewrite bind_lift_ok by exact Hc.
  assert (c = true) as -> by (by apply Hiff).
  erewrite bind_lift_ok by reflexivity.
  erewrite bind_lift_ok by (by apply py_floordiv_run).
  unfold local_kv. case_bool_decide.
  - rewrite decide_True by done. erewrite bind_lift_ok by (by apply py_floordiv_run). done.
  - rewrite decide_False by done. erewrite bind_run by reflexivity. done.
Qed.

Lemma local_heads_grouping nh kvh ws :
  0 < ws -> 0 < nh -> 0 < kvh -> divisibility_invariant nh kvh ws -> Nat.divide kvh nh ->
  0 < nh / ws /\ 0 < local_kv kvh ws /\ Nat.divide (local_kv kvh ws) (nh / ws) /\
  (ws <= kvh -> nh / ws / local_kv kvh ws = nh / kvh) /\
  (kvh < ws -> local_kv kvh ws = 1).
Proof.
  intros Hws Hnh Hkv [[a Ha] Hk] [c Hc]. unfold local_kv.
  assert (0 < nh / ws) as Hloc.
  { subst nh. rewrite Nat.div_mul by lia. destruct a; lia. }
  destruct (decide (ws <= kvh)) as [Hle|Hgt].
  - assert (Nat.divide ws kvh) as [e He].
    { destruct Hk as [Hk|Hk]; [done|]. apply Nat.divide_pos_le in Hk; [|lia].
      assert (kvh = ws) as -> by lia. by exists 1. }
    subst kvh. rewrite (Nat.div_mul e ws) by lia.
    assert (0 < e) by (destruct e; lia).
    assert (nh / ws = c * e) as Hq.
    { rewrite Hc. replace (c * (e * ws)) with (c * e * ws) by lia. apply Nat.div_mul. lia. }
    rewrite Hq. split_and!; try done; try lia.
    + by exists c.
    + intros _. rewrite Nat.div_mul by lia. rewrite Hc. symmetry. apply Nat.div_mul. lia.
  - split_and!; try done; try lia. exists (nh / ws). lia.
Qed.

(** X17. Sharding keeps the head grouping.  When [kvheads] divides [nheads]
    and the world size satisfies the divisibility invariant, construction
    succeeds with positive local head counts, the local KV head count divides
    the local query head count, and with at most [kvheads] workers the local
    expansion factor is the global one; with more workers every worker has one
    KV head, shared by all its query heads. *)
Theorem tp_init_head_grouping emb_dim emb_kq emb_v nh kvh p ub pe group (w : World A) :
  dist_initialized w = true -> 0 < pg_world_size group -> 0 < nh -> 0 < kvh ->
  dropout_ok p ->
  divisibility_invariant nh kvh (pg_world_size group) -> Nat.divide kvh nh ->
  exists o w',
    TPMultiHeadAttention.__init__ emb_dim emb_kq emb_v nh kvh p ub pe group w = (Ok o, w') /\
    0 < nheads o /\ 0 < kvheads o /\ Nat.divide (kvheads o) (nheads o) /\
    (pg_world_size group <= kvh -> nheads o / kvheads o = nh / kvh) /\
    (kvh < pg_world_size group ->
       kvheads o = 1 /\ nheads o / kvheads o = nh / pg_world_size group).
Proof.
  intros Hi Hws Hnh Hkv Hp Hinv Hdiv.
  destruct (local_heads_grouping nh kvh _ Hws Hnh Hkv Hinv Hdiv) as (Hl & Hlk & Hd & He & H1).
  rewrite tp_init_reduces by done.
  destruct (base_init_returns emb_dim emb_kq emb_v (nh / pg_world_size group)
              (local_kv kvh (pg_world_size group)) p ub pe w Hl Hp)
    as (o & w' & Ho & Hn & Hk & _).
  erewrite bind_run by exact Ho.
  eexists _, w'. split; [reflexivity|]. cbn [TPMultiHeadAttention.setup_tp nheads kvheads].
  rewrite Hn, Hk. split_and!; try done.
  intros Hlt. rewrite (H1 Hlt). split; [done|]. apply Nat.div_1_r.
Qed.

(** X18. The rotary tables of a sharded instance.  [__init__] hands the
    local head count to [MultiHeadAttention.__init__], which takes
    [emb_dim // nheads] as the rotary dimension: on a worker the dimension is
    [emb_dim // (nheads // world_size)], which is [world_size] times the
    dimension [emb_dim // nheads] of the unsharded module when [nheads]
    divides [emb_dim]. *)
Theorem tp_init_rotary_dimension emb_dim emb_kq emb_v nh kvh p ub pe group (w : World A) :
  dist_initialized w = true -> 0 < pg_world_size group -> 0 < nh -> 0 < kvh ->
  dropout_ok p ->
  divisibility_invariant nh kvh (pg_world_size group) ->
  exists o w',
    TPMultiHeadAttention.__init__ emb_dim emb_kq emb_v nh kvh p ub pe group w = (Ok o, w') /\
    GaudiRotaryEmbedding.dim (rotary_emb o) = emb_dim / (nh / pg_world_size group) /\
    GaudiRotaryEmbedding.max_seq_len_cached (rotary_emb o) = emb_dim /\
    (Nat.divide nh emb_dim ->
       GaudiRotaryEmbedding.dim (rotary_emb o) = pg_world_size group * (emb_dim / nh)).
Proof.
  intros Hi Hws Hnh Hkv Hp Hinv.
  rewrite tp_init_reduces by done.
  assert (0 < nh / pg_world_size group) as Hloc.
  { destruct Hinv as [[c Hc] _]. rewrite Hc, Nat.div_mul by lia. destruct c; lia. }
  destruct (mha_init_run emb_dim emb_kq emb_v (nh / pg_world_size group)
              (local_kv kvh (pg_world_size group)) p ub pe w)
    as (q & k & v & d & g & Hd & Hrun).
  destruct (Hrun Hloc Hp) as (rot & Hrot & Ho).
  erewrite bind_run by exact Ho.
  eexists _, _. split; [reflexivity|].
  cbn [TPMultiHeadAttention.setup_tp rotary_emb].
  unfold GaudiRotaryEmbedding.__init__ in Hrot. rewrite set_cache_run in Hrot.
  injection Hrot as <-. cbn [GaudiRotaryEmbedding.dim GaudiRotaryEmbedding.max_seq_len_cached].
  split_and!; try done.
  intros [c Hc]. destruct Hinv as [[e He] _]. subst emb_dim nh.
  rewrite (Nat.div_mul e) by lia.
  assert (0 < e) by (destruct e; lia).
  rewrite (Nat.div_mul c) by lia.
  replace (c * (e * pg_world_size group)) with (pg_world_size group * c * e) by lia.
  rewrite Nat.div_mul by lia. done.
Qed.

(** X19. [to_tp] makes a new sharded instance from the attributes of the one
    it is called on: dimensions, bias flag, dropout probability and position
    encoder carry over, the head counts are divided among the workers, and
    the full head counts are recorded with rank and world size.  The four
    projections are the ones [nn.Linear] draws from the generator of the
    process: the parameters of the instance [to_tp] is called on are not
    read. *)
Theorem to_tp_fresh_sharded_module (m : obj A) group (w : World A) :
  dist_initialized w = true -> 0 < pg_world_size group ->
  0 < nheads m -> 0 < kvheads m -> (0 <= p_dropout m)%Q -> (p_dropout m <= 1)%Q ->
  divisibility_invariant (nheads m) (kvheads m) (pg_world_size group) ->
  let ws := pg_world_size group in
  exists o q k v d g,
    TPMultiHeadAttention.to_tp m group w = (Ok o, set_rng g w) /\
    drawn_linears (emb_dim m) (emb_kq_per_head m) (emb_v_per_head m)
      (nheads m / ws) (local_kv (kvheads m) ws) (use_bias m) (rng w) = (q, k, v, d, g) /\
    query o = q /\ key o = k /\ value o = v /\ dense o = d /\
    nheads o = nheads m / ws /\ kvheads o = local_kv (kvheads m) ws /\
    emb_dim o = emb_dim m /\ emb_kq_per_head o = emb_kq_per_head m /\
    emb_v_per_head o = emb_v_per_head m /\ p_dropout o = p_dropout m /\
    use_bias o = use_bias m /\ position_encoder o = position_encoder m /\
    tp o = Some (mkTPAttrs (nheads m) (kvheads m) (pg_rank group) ws).
Proof.
  intros Hi Hws Hnh Hkv Hp0 Hp1 Hinv ws. subst ws.
  unfold TPMultiHeadAttention.to_tp, TPMultiHeadAttention.import_module.
  rewrite tp_init_reduces by done.
  assert (0 < nheads m / pg_world_size group) as Hloc.
  { destruct Hinv as [[a Ha] _]. rewrite Ha, Nat.div_mul by lia.
    destruct a; lia. }
  destruct (mha_init_run (emb_dim m) (emb_kq_per_head m) (emb_v_per_head m)
              (nheads m / pg_world_size group) (local_kv (kvheads m) (pg_world_size group))
              (Some (p_dropout m)) (use_bias m) (position_encoder m) w)
    as (q & k & v & d & g & Hd & Hrun).
  destruct (Hrun Hloc (conj Hp0 Hp1)) as (rot & _ & Ho).
  erewrite bind_run by exact Ho.
  eexists _, q, k, v, d, g. split; [reflexivity|]. split; [exact Hd|]. by split_and!.
Qed.

End InitOutcomes.

(** ** What loading weights changes *)

Section LoadOrder.
Context {A : Type} `{!Torch A} `{!TPModule A}.
Import MultiHeadAttention TPMultiHeadAttention.

Lemma tp_attrs_run (o : obj A) t : tp o = Some t -> tp_attrs o = (Ok t, o).
Proof. intros Ht. unfold tp_attrs. erewrite bind_run by reflexivity. by rewrite Ht. Qed.

Lemma copy_weight_run get_layer set_layer value dim sizes (o : obj A) t :
  tp o = Some t ->
  copy_weight get_layer set_layer value dim sizes o =
  match sharded_copy t (weight (get_layer o)) value dim sizes true with
  | Ok w => (Ok tt, set_layer (mkLinear w (bias (get_layer o))) o)
  | Raise e => (Raise e, o)
  | OutOfFuel => (OutOfFuel, o)
  end.
Proof.
  intros Ht. unfold copy_weight. erewrite bind_run by (by apply tp_attrs_run).
  erewrite bind_run by reflexivity.
  by destruct (sharded_copy _ _ _ _ _ _).
Qed.

(** X20. [load_weights] copies in the order query, key, value, dense and is
    not all-or-nothing once the copies have begun: when the copy into the
    query weight succeeds and the copy into the key weight raises, the call
    raises that exception and leaves the instance with its query weight
    replaced and every other parameter as before. *)
Theorem load_weights_partial_update (tv : gmap string (Tensor A)) (o : obj A) t
  qw kw vw dw bs used w' e :
  tp o = Some t ->
  grab_weights (use_bias o) tv = Ok ((qw, kw, vw, dw), bs, used) ->
  size tv <= (if use_bias o then 8 else 4) ->
  sharded_copy t (weight (query o)) qw 0 [pre_tp_nheads t] true = Ok w' ->
  sharded_copy t (weight (key o)) kw 0 [pre_tp_kvheads t] true = Raise e ->
  load_weights tv o = (Raise e, set_query (mkLinear w' (bias (query o))) o).
Proof.
  intros Ht Hg Hsz Hq Hk. unfold load_weights.
  erewrite bind_run by reflexivity.
  erewrite bind_lift_ok by exact Hg. cbv beta iota.
  rewrite bool_decide_false by lia.
  erewrite bind_run by reflexivity.
  erewrite bind_run by (by apply tp_attrs_run).
  erewrite bind_run by (rewrite (copy_weight_run _ _ _ _ _ _ t Ht), Hq; reflexivity).
  erewrite bind_raise; [reflexivity|].
  rewrite (copy_weight_run _ _ _ _ _ _ t) by done. cbn. by rewrite Hk.
Qed.

(** What [load_weights] may change of an instance: the parameters of the
    four projections, and no bias when the instance has no bias terms. *)
Definition reloaded (o o' : obj A) : Prop :=
  (exists q k v d, o' = set_linears q k v d o) /\
  (use_bias o = false ->
     bias (query o') = bias (query o) /\ bias (key o') = bias (key o) /\
     bias (value o') = bias (value o) /\ bias (dense o') = bias (dense o)).

Definition reloads (ub : bool) {X} (m : M (obj A) X) : Prop :=
  forall o r o', use_bias o = ub -> m o = (r, o') -> reloaded o o'.

Lemma reloaded_refl o : reloaded o o.
Proof. split; [|done]. exists (query o), (key o), (value o), (dense o). by destruct o. Qed.

Lemma reloaded_use_bias o o' : reloaded o o' -> use_bias o' = use_bias o.
Proof. by intros [(q & k & v & d & ->) _]. Qed.

Lemma reloaded_trans o1 o2 o3 : reloaded o1 o2 -> reloaded o2 o3 -> reloaded o1 o3.
Proof.
  intros H12 H23. pose proof (reloaded_use_bias _ _ H12) as Hb2.
  destruct H12 as [(q & k & v & d & E1) B1], H23 as [(q' & k' & v' & d' & E2) B2]. split.
  - exists q', k', v', d'. by rewrite E2, E1.
  - intros Hb. rewrite Hb in Hb2.
    destruct (B1 Hb) as (?&?&?&?), (B2 Hb2) as (?&?&?&?). split_and!; congruence.
Qed.

Lemma reloads_bind ub {X Y} (m : M (obj A) X) (k : X -> M (obj A) Y) :
  reloads ub m -> (forall x, reloads ub (k x)) -> reloads ub (bind m k).
Proof.
  intros Hm Hk o r o' Hub. unfold bind.
  destruct (m o) as [[x|e|] o1] eqn:E; intros Hr.
  - pose proof (Hm _ _ _ Hub E) as H1. eapply reloaded_trans; [exact H1|].
    eapply Hk; [|exact Hr]. by rewrite (reloaded_use_bias _ _ H1).
  - injection Hr as _ <-. by eapply Hm.
  - injection Hr as _ <-. by eapply Hm.
Qed.

Lemma reloads_get_bind ub {Y} (k : obj A -> M (obj A) Y) :
  (forall o, use_bias o = ub -> reloads ub (k o)) -> reloads ub (bind get k).
Proof. intros Hk o r o' Hub Hr. by eapply (Hk o). Qed.

Lemma reloads_pure ub {X} (m : M (obj A) X) : (forall o, snd (m o) = o) -> reloads ub m.
Proof.
  intros Hm o r o' _ E. specialize (Hm o). rewrite E in Hm. simpl in Hm. subst.
  apply reloaded_refl.
Qed.

Lemma reloads_tp_attrs_bind ub {Y} (k : TPAttrs -> M (obj A) Y) :
  (forall t, reloads ub (k t)) -> reloads ub (bind tp_attrs k).
Proof.
  intros Hk. apply reloads_bind; [|done]. apply reloads_pure.
  intros o. unfold tp_attrs, bind, get. by destruct (tp o).
Qed.

Lemma reloads_copy_weight ub get_layer set_layer tval dim sizes :
  (forall l o, exists q k v d, set_layer l o = set_linears q k v d o) ->
  (forall w o, let o' := set_layer (mkLinear w (bias (get_layer o))) o in
     bias (query o') = bias (query o) /\ bias (key o') = bias (key o) /\
     bias (value o') = bias (value o) /\ bias (dense o') = bias (dense o)) ->
  reloads ub (copy_weight get_layer set_layer tval dim sizes).
Proof.
  intros Hset Hbias o r o' _. unfold copy_weight, tp_attrs, bind, get, lift, put, ret, raise.
  destruct (tp o) as [t|]; [|intros [= _ <-]; apply reloaded_refl].
  destruct (sharded_copy _ _ _ _ _ _) as [w| |]; intros [= _ <-];
    try apply reloaded_refl.
  split; [apply Hset|]. intros _. apply Hbias.
Qed.

Lemma reloads_copy_bias get_layer set_layer tval dim sizes sh :
  (forall l o, exists q k v d, set_layer l o = set_linears q k v d o) ->
  reloads true (copy_bias get_layer set_layer tval dim sizes sh).
Proof.
  intros Hset o r o' Hb. unfold copy_bias, tp_attrs, bind, get, lift, put, ret, raise.
  destruct (tp o) as [t|]; [|intros [= _ <-]; apply reloaded_refl].
  destruct (bias (get_layer o)) as [b|]; [|intros [= _ <-]; apply reloaded_refl].
  destruct (sharded_copy _ _ _ _ _ _) as [w| |]; intros [= _ <-];
    try apply reloaded_refl.
  split; [apply Hset|]. congruence.
Qed.

Lemma set_layers_linears :
  (forall l (o : obj A), exists q k v d, set_query l o = set_linears q k v d o) /\
  (forall l (o : obj A), exists q k v d, set_key l o = set_linears q k v d o) /\
  (forall l (o : obj A), exists q k v d, set_value l o = set_linears q k v d o) /\
  (forall l (o : obj A), exists q k v d, set_dense l o = set_linears q k v d o).
Proof. split_and!; intros l o; by eexists _, _, _, _. Qed.

Lemma reloads_load_weights ub (tv : gmap string (Tensor A)) : reloads ub (load_weights tv).
Proof.
  destruct set_layers_linears as (Hq & Hk & Hv & Hd).
  unfold load_weights. apply reloads_get_bind. intros self0 Hub.
  apply reloads_bind; [by apply reloads_pure|]. intros [[weights biases] used].
  apply reloads_bind; [apply reloads_pure; intros s; by case_bool_decide|]. intros _.
  apply reloads_tp_attrs_bind. intros t. destruct weights as [[[qw kw] vw] dw].
  apply reloads_bind; [by apply reloads_copy_weight|]. intros _.
  apply reloads_bind; [by apply reloads_copy_weight|]. intros _.
  apply reloads_bind; [by apply reloads_copy_weight|]. intros _.
  apply reloads_bind; [by apply reloads_copy_weight|]. intros _.
  rewrite Hub. destruct ub; [|by apply reloads_pure].
  apply reloads_bind; [apply reloads_pure; intros s; by destruct biases|].
  intros [[[qb kb] vb] db].
  apply reloads_bind; [by apply reloads_copy_bias|]. intros _.
  apply reloads_bind; [by apply reloads_copy_bias|]. intros _.
  apply reloads_bind; [by apply reloads_copy_bias|]. intros _.
  by apply reloads_copy_bias.
Qed.

(** X21. However [load_weights] ends, it has changed nothing of the instance
    but the parameters of the four projections: head counts, dimensions,
    rotary tables and the tensor-parallel attributes are as before, and on an
    instance without bias terms the biases are untouched. *)
Theorem load_weights_frame (tv : gmap string (Tensor A)) (o : obj A) :
  reloaded o (snd (load_weights tv o)).
Proof.
  eapply (reloads_load_weights (use_bias o)); [done|]. apply surjective_pairing.
Qed.

End LoadOrder.

(** ** Resetting the parameters *)

Section ResetFacts.
Context {A : Type} `{!Torch A} `{!TorchInit A}.
Import MultiHeadAttention TPMultiHeadAttention.

(** An instance as [__init__] builds it: with bias terms, every projection
    has a bias. *)
Definition biases_present (o : obj A) : Prop :=
  use_bias o = true ->
  is_Some (bias (query o)) /\ is_Some (bias (key o)) /\
  is_Some (bias (value o)) /\ is_Some (bias (dense o)).

(** What [reset_parameters] makes of one layer and the generator. *)
Definition reset_layer_result (ub : bool) (m : Linear A) (g : Rng) : Linear A * Rng :=
  let '(wt, g') := trunc_normal_ (weight m) 0 (2 # 100) g in
  (mkLinear wt (if ub then zero_ <$> bias m else bias m), g').

Lemma reset_linear_run get_layer set_layer (p : Proc) :
  (use_bias (self p) = true -> is_Some (bias (get_layer (self p)))) ->
  (forall l o, use_bias (set_layer l o) = use_bias o) ->
  (forall l l' o, set_layer l (set_layer l' o) = set_layer l o) ->
  reset_linear get_layer set_layer p =
  (Ok tt,
   mkProc (set_layer (fst (reset_layer_result (use_bias (self p)) (get_layer (self p))
                             (rng (world p)))) (self p))
     (set_rng (snd (reset_layer_result (use_bias (self p)) (get_layer (self p))
                      (rng (world p)))) (world p))).
Proof.
  intros Hb Hub Hset. unfold reset_linear, reset_layer_result.
  erewrite bind_run by reflexivity. cbv zeta.
  destruct (trunc_normal_ _ _ _ _) as [wt g]. cbn [fst snd].
  erewrite bind_run by reflexivity.
  destruct (use_bias (self p)) eqn:E; [|done].
  destruct (Hb eq_refl) as [b ->]. cbn [fmap option_fmap option_map].
  erewrite bind_run by reflexivity. unfold put. cbn [self world]. by rewrite Hset.
Qed.


(** X23. [reset_parameters] on an instance whose projections have a bias
    when the instance has bias terms: it returns; the four weights are drawn
    anew by [trunc_normal_] with mean 0 and standard deviation 0.02, in the
    order query, key, value, dense on one generator; the biases are zeroed
    when the instance has bias terms and untouched otherwise; no other
    attribute of the instance, no tensor object and no kernel switch
    changes. *)
Theorem reset_parameters_effect (p : Proc) :
  biases_present (self p) ->
  let ub := use_bias (self p) in
  exists q' k' v' d' g1 g2 g3 g4,
    reset_layer_result ub (query (self p)) (rng (world p)) = (q', g1) /\
    reset_layer_result ub (key (self p)) g1 = (k', g2) /\
    reset_layer_result ub (value (self p)) g2 = (v', g3) /\
    reset_layer_result ub (dense (self p)) g3 = (d', g4) /\
    reset_parameters p
    = (Ok tt, mkProc (set_linears q' k' v' d' (self p)) (set_rng g4 (world p))) /\
    (ub = true ->
       bias q' = zero_ <$> bias (query (self p)) /\ bias k' = zero_ <$> bias (key (self p)) /\
       bias v' = zero_ <$> bias (value (self p)) /\
       bias d' = zero_ <$> bias (dense (self p))) /\
    (ub = false ->
       bias q' = bias (query (self p)) /\ bias k' = bias (key (self p)) /\
       bias v' = bias (value (self p)) /\ bias d' = bias (dense (self p))).
Proof.
  intros Hb ub. subst ub.
  destruct (reset_layer_result (use_bias (self p)) (query (self p)) (rng (world p)))
    as [q' g1] eqn:E1.
  destruct (reset_layer_result (use_bias (self p)) (key (self p)) g1) as [k' g2] eqn:E2.
  destruct (reset_layer_result (use_bias (self p)) (value (self p)) g2) as [v' g3] eqn:E3.
  destruct (reset_layer_result (use_bias (self p)) (dense (self p)) g3) as [d' g4] eqn:E4.
  exists q', k', v', d', g1, g2, g3, g4. split_and!; try done.
  - unfold reset_parameters.
    erewrite bind_run; cycle 1.
    { apply reset_linear_run; [|done|done]. intros Hu. by destruct (Hb Hu) as (? & _). }
    rewrite E1. cbn [fst snd].
    erewrite bind_run; cycle 1.
    { apply reset_linear_run; [|done|done]. intros Hu. by destruct (Hb Hu) as (_ & ? & _). }
    cbn [self world rng set_rng]. change (use_bias (set_query q' (self p))) with (use_bias (self p)).
    change (key (set_query q' (self p))) with (key (self p)). rewrite E2. cbn [fst snd].
    erewrite bind_run; cycle 1.
    { apply reset_linear_run; [|done|done]. intros Hu. by destruct (Hb Hu) as (_ & _ & ? & _). }
    cbn [self world rng set_rng].
    change (use_bias (set_key k' (set_query q' (self p)))) with (use_bias (self p)).
    change (value (set_key k' (set_query q' (self p)))) with (value (self p)).
    rewrite E3. cbn [fst snd].
    rewrite reset_linear_run; [|intros Hu; by destruct (Hb Hu) as (_ & _ & _ & ?)|done|done].
    cbn [self world rng set_rng].
    change (use_bias (set_value v' (set_key k' (set_query q' (self p)))))
      with (use_bias (self p)).
    change (dense (set_value v' (set_key k' (set_query q' (self p))))) with (dense (self p)).
    rewrite E4. cbn [fst snd]. reflexivity.
  - intros Hu. rewrite Hu in *. unfold reset_layer_result in *.
    destruct (trunc_normal_ (weight (query (self p))) _ _ _), (trunc_normal_ (weight (key (self p))) _ _ _),
      (trunc_normal_ (weight (value (self p))) _ _ _), (trunc_normal_ (weight (dense (self p))) _ _ _).
    by simplify_eq.
  - intros Hu. rewrite Hu in *. unfold reset_layer_result in *.
    destruct (trunc_normal_ (weight (query (self p))) _ _ _), (trunc_normal_ (weight (key (self p))) _ _ _),
      (trunc_normal_ (weight (value (self p))) _ _ _), (trunc_normal_ (weight (dense (self p))) _ _ _).
    by simplify_eq.
Qed.

End ResetFacts.

(** ** A call of [forward], step by step *)

(** *** Invariants of the instance and the kernel switches *)

Section Stable.
Context {A : Type} `{!Torch A}.
Import MultiHeadAttention.

(** [J] is a property of the instance and of the kernel switches of the
    process; a computation is stable for [J] when it keeps [J], however it
    ends. *)
Variable J : obj A -> SdpFlags -> Prop.

Definition holds (p : Proc) : Prop := J (self p) (backends (world p)).

Definition stable {X} (m : M Proc X) : Prop :=
  forall p r p', m p = (r, p') -> holds p -> holds p'.

Lemma stable_pure {X} (m : M Proc X) : (forall p, snd (m p) = p) -> stable m.
Proof. intros Hm p r p' E. specialize (Hm p). rewrite E in Hm. simpl in Hm. by subst. Qed.

Lemma stable_ret {X} (x : X) : stable (ret x).
Proof. by apply stable_pure. Qed.
Lemma stable_raise {X} e : stable (raise e : M Proc X).
Proof. by apply stable_pure. Qed.
Lemma stable_lift {X} (x : Res X) : stable (lift x).
Proof. by apply stable_pure. Qed.
Lemma stable_get : stable (get : M Proc Proc).
Proof. by apply stable_pure. Qed.
Lemma stable_local {X} name (x : option X) : stable (local name x).
Proof. apply stable_pure. by destruct x. Qed.
Lemma stable_deref l : stable (deref l).
Proof. apply stable_pure. intros p. unfold deref. by destruct (_ !! _). Qed.

Lemma stable_bind {X Y} (m : M Proc X) (k : X -> M Proc Y) :
  stable m -> (forall x, stable (k x)) -> stable (bind m k).
Proof.
  intros Hm Hk p r p'. unfold bind.
  destruct (m p) as [[x|e|] p1] eqn:E; intros Hr Hp.
  - eapply Hk; [exact Hr|]. by eapply Hm.
  - injection Hr as _ <-. by eapply Hm.
  - injection Hr as _ <-. by eapply Hm.
Qed.

Lemma stable_alloc t : stable (alloc t).
Proof. by intros p r p' [= _ <-]. Qed.

Create HintDb stable.
#[local] Hint Resolve stable_ret stable_raise stable_lift stable_get stable_local
  stable_deref stable_alloc : stable.

Ltac stable_step :=
  match goal with
  | |- stable (bind _ _) => apply stable_bind; [|intros ?]
  | |- stable (if ?c then _ else _) => destruct c
  | |- stable (match ?x with _ => _ end) => destruct x
  | |- stable _ => solve [eauto with stable]
  end.
Ltac stable_auto := repeat stable_step.

Lemma stable_tensor_op f l : stable (tensor_op f l).
Proof. unfold tensor_op. stable_auto. Qed.
Lemma stable_deref_opt l : stable (deref_opt l).
Proof. unfold deref_opt. stable_auto. Qed.
Lemma stable_deref_pair l : stable (deref_pair l).
Proof. unfold deref_pair. stable_auto. Qed.
Lemma stable_project layer x sh : stable (project layer x sh).
Proof. apply stable_tensor_op. Qed.

#[local] Hint Resolve stable_tensor_op stable_deref_opt stable_deref_pair
  stable_project : stable.

Lemma stable_apply_gaudi_rope q k c s ids : stable (apply_gaudi_rope q k c s ids).
Proof. unfold apply_gaudi_rope. stable_auto. Qed.

Lemma stable_call_kernel kernel q k v m pd c : stable (call_kernel kernel q k v m pd c).
Proof.
  unfold call_kernel. stable_auto.
  intros p r p'. destruct (kernel _ _ _ _ _ _ _) as [r0 g]. by intros [= _ <-].
Qed.

Lemma stable_merge_cache a keys values : stable (merge_cache a keys values).
Proof. unfold merge_cache. stable_auto. Qed.

Lemma stable_normalize_mask fuel : forall m, stable (normalize_mask fuel m).
Proof. induction fuel as [|fuel IH]; intros m; simpl; stable_auto; try apply IH. Qed.

Lemma stable_expand_heads keys values : stable (expand_heads keys values).
Proof. unfold expand_heads. stable_auto. Qed.

#[local] Hint Resolve stable_apply_gaudi_rope stable_call_kernel stable_merge_cache
  stable_normalize_mask stable_expand_heads : stable.

(** The rotary tables are the one attribute [forward] writes. *)
Lemma stable_call_rotary_emb x n :
  (forall r o f, J o f -> J (set_rotary r o) f) -> stable (call_rotary_emb x n).
Proof.
  intros Hrot. unfold call_rotary_emb. stable_auto.
  intros p r p'. destruct (GaudiRotaryEmbedding.forward _ _ _) as [r0 rot].
  intros [= _ <-]. apply Hrot.
Qed.

Lemma stable_project_qkv_rot a b ql kl queries :
  (forall r o f, J o f -> J (set_rotary r o) f) ->
  stable (project_qkv a b ql kl queries).
Proof.
  intros Hrot. pose proof (fun x n => stable_call_rotary_emb x n Hrot) as Hc.
  unfold project_qkv. stable_auto.
Qed.

(** [forward] keeps what the projections and the kernel call keep. *)
Lemma stable_forward fuel a :
  (forall b ql kl q, stable (project_qkv a b ql kl q)) ->
  (forall q k v m, stable (attend a q k v m)) ->
  stable (forward fuel a).
Proof. intros Hq Ha. unfold forward. stable_auto. Qed.

End Stable.

(** One step of a proof that a computation keeps an invariant. *)
Ltac stable_tac :=
  repeat match goal with
  | |- stable _ (bind _ _) => apply stable_bind; [|intros ?]
  | |- stable _ (if ?c then _ else _) => destruct c
  | |- stable _ (match ?x with _ => _ end) => destruct x
  | |- stable _ _ =>
      solve [eauto using stable_ret, stable_raise, stable_lift, stable_get, stable_local,
               stable_deref, stable_alloc, stable_tensor_op, stable_deref_opt,
               stable_deref_pair, stable_project, stable_apply_gaudi_rope,
               stable_call_kernel, stable_merge_cache, stable_normalize_mask,
               stable_expand_heads]
  end.

(** The same for the frame of a computation. *)
Ltac framed_tac :=
  repeat match goal with
  | |- framed (bind _ _) => apply framed_bind; [|intros ?]
  | |- framed (if ?c then _ else _) => destruct c
  | |- framed (match ?x with _ => _ end) => destruct x
  | |- framed _ =>
      solve [eauto using framed_ret, framed_raise, framed_lift, framed_get, framed_alloc,
               framed_deref, framed_local, framed_put_backends, framed_tensor_op,
               framed_deref_opt, framed_deref_pair, framed_project, framed_call_rotary_emb,
               framed_apply_gaudi_rope, framed_call_kernel, framed_merge_cache,
               framed_normalize_mask, framed_expand_heads, framed_attend,
               framed_project_qkv, framed_forward]
  end.

Section ForwardEdges.
Context {A : Type} `{!Torch A}.
Import MultiHeadAttention.

(** The kernel switches a call selects, and the ones it puts back. *)
Definition selected_sdp (a : Args) : SdpFlags :=
  mkSdpFlags (str_eq (attn_algorithm a) "flash") (str_eq (attn_algorithm a) "mem")
    (str_eq (attn_algorithm a) "math").
Definition previous_sdp (o : obj A) : SdpFlags :=
  mkSdpFlags (previous_flash o) (previous_mem_efficient o) (previous_math o).

(** What the kernel call of lines 286-326 does to the switches. *)
Lemma attend_run (a : Args) q k v m (p p' : Proc) r :
  attend a q k v m p = (r, p') ->
  self p' = self p /\
  (device (self p) = hpu \/ truthy (attn_algorithm a) = false ->
     backends (world p') = backends (world p)) /\
  (device (self p) <> hpu -> truthy (attn_algorithm a) = true ->
     (is_ok r = true -> backends (world p') = previous_sdp (self p)) /\
     (is_ok r = false -> backends (world p') = selected_sdp a)).
Proof.
  unfold attend. unfold bind at 1, get at 1. cbv zeta.
  destruct (decide (device (self p) = hpu)) as [Hdev|Hdev].
  { intros Hrun.
    pose proof (stable_call_kernel (fun o f => o = self p /\ f = backends (world p))
                  _ _ _ _ _ _ _ _ _ _ Hrun (conj eq_refl eq_refl)) as [Hs Hf].
    split_and!; try done. }
  destruct (truthy (attn_algorithm a)) eqn:Htr.
  - unfold bind at 1, put_backends at 1. unfold bind at 1, get at 1.
    cbn [world backends set_backends].
    unfold bind at 1.
    match goal with
    | |- context [call_kernel ?ker ?q ?k ?v ?m ?pd ?c ?s] =>
        destruct (call_kernel ker q k v m pd c s) as [[x|e|] p2] eqn:E;
        pose proof (stable_call_kernel (fun o f => o = self p /\ f = selected_sdp a)
                      _ _ _ _ _ _ _ _ _ _ E (conj eq_refl eq_refl)) as [Hs Hf]
    end.
    + unfold bind, put_backends, ret. intros [= <- <-]. simpl.
      split_and!; try done. intros [?|?]; done.
    + intros [= <- <-]. split_and!; try done. intros [?|?]; done.
    + intros [= <- <-]. split_and!; try done. intros [?|?]; done.
  - unfold bind at 1, ret at 1. unfold bind at 1, get at 1. unfold bind at 1.
    match goal with
    | |- context [call_kernel ?ker ?q ?k ?v ?m ?pd ?c ?s] =>
        destruct (call_kernel ker q k v m pd c s) as [[x|e|] p2] eqn:E;
        pose proof (stable_call_kernel (fun o f => o = self p /\ f = backends (world p))
                      _ _ _ _ _ _ _ _ _ _ E (conj eq_refl eq_refl)) as [Hs Hf]
    end.
    + unfold bind, ret. intros [= <- <-]. by split_and!.
    + intros [= <- <-]. by split_and!.
    + intros [= <- <-]. by split_and!.
Qed.


(** A call that returned, taken apart at every step. *)
Lemma forward_inv_full fuel (a : Args) (p p' : Proc) out kv :
  forward fuel a p = (Ok (out, kv), p') ->
  exists tq b ql x tk kv_len queries0 p0 queries keys values p1 keys' values' p2
         p4 attn_mask keys_e values_e p5 attn p6 attn2 p7,
    heap (world p) !! q a = Some tq /\ shape tq = [b; ql; x] /\
    heap (world p) !! k a = Some tk /\ size_dim tk 1 = Ok kv_len /\
    project (query (self p)) (q a)
      [b; ql; nheads (self p); emb_kq_per_head (self p)] p = (Ok queries0, p0) /\
    project_qkv a b ql kv_len queries0 p0 = (Ok (queries, keys, values), p1) /\
    merge_cache a keys values p1 = (Ok (keys', values'), p2) /\
    frame_step p2 p4 /\ self p4 = self p2 /\
    expand_heads keys' values' p4 = (Ok (keys_e, values_e), p5) /\
    attend a queries keys_e values_e attn_mask p5 = (Ok attn, p6) /\
    tensor_op (fun t => u <~ transpose_2_1 t ;;
                        view [b; ql; nheads (self p) * emb_v_per_head (self p)] u)
      attn p6 = (Ok attn2, p7) /\
    tensor_op (nn_Linear_call (dense (self p))) attn2 p7 = (Ok out, p') /\
    kv = (if use_cache a
          then match keys', values' with
               | Some kl, Some vl => Some (kl, vl)
               | _, _ => None
               end
          else None) /\
    (use_cache a = true -> exists kl vl, keys' = Some kl /\ values' = Some vl).
Proof.
  intros Hrun. unfold forward in Hrun.
  inv_bind Hrun p_ s Hg. inv_leaf Hg.
  inv_bind Hrun tq s Hq. inv_leaf Hq.
  inv_bind Hrun bq s Hbq. inv_leaf Hbq.
  destruct (shape tq) as [|b [|ql [|x [|? ?]]]] eqn:Hs; try discriminate.
  injection Hbq as <-. cbn [fst snd] in Hrun.
  inv_bind Hrun tk s Hk. inv_leaf Hk.
  inv_bind Hrun kv_len s Hkl. inv_leaf Hkl.
  inv_bind Hrun queries0 p0 Hq0.
  inv_bind Hrun qkv p1 Hqkv. destruct qkv as [[queries keys] values].
  inv_bind Hrun kv' p2 Hm. destruct kv' as [keys' values'].
  inv_bind Hrun m_ p3 H1.
  assert (frame_step p2 p3 /\ self p3 = self p2) as [Hf3 Hs3].
  { match type of H1 with
    | ?m p2 = _ =>
        assert (framed m) as Hfr by framed_tac;
        assert (stable (fun o _ => o = self p2) m) as Hst by stable_tac
    end.
    split; [by eapply Hfr|]. by eapply Hst. }
  inv_bind Hrun am p4 H2.
  assert (frame_step p3 p4 /\ self p4 = self p3) as [Hf4 Hs4].
  { match type of H2 with
    | ?m p3 = _ =>
        assert (framed m) as Hfr by framed_tac;
        assert (stable (fun o _ => o = self p3) m) as Hst by stable_tac
    end.
    split; [by eapply Hfr|]. by eapply Hst. }
  inv_bind Hrun kve p5 H3. destruct kve as [keys_e values_e]. cbn [fst snd] in Hrun.
  inv_bind Hrun at1 p6 H4. inv_bind Hrun at2 p7 H5. inv_bind Hrun o p8 H6.
  exists tq, b, ql, x, tk, kv_len, queries0, p0, queries, keys, values, p1, keys', values', p2,
    p4, am, keys_e, values_e, p5, at1, p6, at2, p7.
  destruct (use_cache a) eqn:Hc.
  - inv_bind Hrun kl s7 H7. inv_leaf H7.
    inv_bind Hrun vl s8 H8. inv_leaf H8.
    inv_leaf Hrun. injection Hrun as <- <-.
    split_and!; try done; [by eapply frame_step_trans|congruence|by eexists _, _].
  - inv_leaf Hrun. injection Hrun as <- <-.
    split_and!; try done; [by eapply frame_step_trans|congruence].
Qed.


(** X13. The kernel switches of [torch.backends.cuda] across a call.  On the
    fused path, and when no [attn_algorithm] is given, the call leaves them as
    they are, however it ends.  Otherwise a call that returns leaves the
    switches recorded when the instance was constructed, not the ones the
    process had before the call; a call that raises leaves either the
    switches found, or the ones selected for the algorithm (the kernel
    raised: nothing is put back), or the recorded ones. *)
Theorem forward_kernel_switches fuel (a : Args) (p p' : Proc) r :
  forward fuel a p = (r, p') ->
  (device (self p) = hpu \/ truthy (attn_algorithm a) = false ->
     backends (world p') = backends (world p)) /\
  (device (self p) <> hpu -> truthy (attn_algorithm a) = true ->
     (is_ok r = true -> backends (world p') = previous_sdp (self p)) /\
     (backends (world p') = backends (world p) \/
      backends (world p') = selected_sdp a \/
      backends (world p') = previous_sdp (self p))).
Proof.
  intros Hrun. split; [intros [Hdev|Htr]|intros Hdev Htr; split].
  - assert (stable (fun o f => device o = hpu /\ f = backends (world p)) (forward fuel a))
      as Hst.
    { apply stable_forward.
      - intros. apply stable_project_qkv_rot. by intros ? ? ? [? ?].
      - intros q0 k0 v0 m0 s r0 s' Hr [Hd Hf].
        destruct (attend_run _ _ _ _ _ _ _ _ Hr) as (Hs & H1 & _).
        unfold holds. rewrite Hs, H1 by auto. done. }
    by destruct (Hst _ _ _ Hrun (conj Hdev eq_refl)).
  - assert (stable (fun _ f => f = backends (world p)) (forward fuel a)) as Hst.
    { apply stable_forward.
      - intros. by apply stable_project_qkv_rot.
      - intros q0 k0 v0 m0 s r0 s' Hr Hf.
        destruct (attend_run _ _ _ _ _ _ _ _ Hr) as (Hs & H1 & _).
        unfold holds. rewrite H1 by auto. done. }
    exact (Hst _ _ _ Hrun eq_refl).
  - intros Hok. destruct r as [[out kv]| |]; try done.
    apply forward_inv_full in Hrun
      as (tq & b & ql & x & tk & kl & q0 & p0 & qs & keys & values & p1 & keys' & values'
          & p2 & p4 & am & ke & ve & p5 & at1 & p6 & at2 & p7
          & _ & _ & _ & _ & Hq0 & Hqkv & Hm & Hf4 & Hs42 & He & Ha & H5 & H6 & _).
    assert (frame_step p p5) as Hfr.
    { eapply frame_step_trans; [by eapply framed_project|].
      eapply frame_step_trans; [by eapply framed_project_qkv|].
      eapply frame_step_trans; [by eapply framed_merge_cache|].
      eapply frame_step_trans; [exact Hf4|]. by eapply framed_expand_heads. }
    destruct Hfr as [_ [rot Hself]].
    destruct (attend_run _ _ _ _ _ _ _ _ Ha) as (_ & _ & H2).
    destruct H2 as [H2 _]; [by rewrite Hself|done|].
    specialize (H2 eq_refl). rewrite Hself in H2.
    apply tensor_op_inv_ok in H5 as (? & ? & _ & _ & _ & ->).
    apply tensor_op_inv_ok in H6 as (? & ? & _ & _ & _ & ->).
    exact H2.
  - assert (stable (fun o f => device o <> hpu /\ previous_sdp o = previous_sdp (self p) /\
                               (f = backends (world p) \/ f = selected_sdp a \/
                                f = previous_sdp (self p)))
              (forward fuel a)) as Hst.
    { apply stable_forward.
      - intros. apply stable_project_qkv_rot. by intros ? ? ? (? & ? & ?).
      - intros q0 k0 v0 m0 s r0 s' Hr (Hd & Hp & Hf).
        destruct (attend_run _ _ _ _ _ _ _ _ Hr) as (Hs & _ & H2).
        destruct (H2 Hd Htr) as [Hok Hno].
        unfold holds. rewrite Hs. split; [done|]. split; [done|].
        destruct (is_ok r0) eqn:E.
        + right; right. by rewrite Hok, Hp.
        + right; left. by apply Hno. }
    destruct (Hst _ _ _ Hrun) as (_ & _ & Hf); [|exact Hf].
    split; [done|]. split; [done|]. by left.
Qed.


(** Off the fused path, and without a position encoder, the projections
    leave the instance as it is. *)
Lemma stable_project_qkv_same (o : obj A) a b ql kl queries :
  device o <> hpu \/ position_encoder o = None ->
  stable (fun o' _ => o' = o) (project_qkv a b ql kl queries).
Proof.
  intros Hcond s r s' Hr Hs. unfold holds in *. unfold project_qkv in Hr.
  unfold bind at 1, get at 1 in Hr. cbv zeta in Hr. rewrite Hs in Hr.
  destruct (decide (device o = hpu)) as [Hdev|Hdev].
  - destruct Hcond as [?|Hpe]; [done|]. rewrite Hpe in Hr. cbv beta iota in Hr.
    match type of Hr with
    | ?m s = _ => assert (stable (fun o' _ => o' = o) m) as Hst by stable_tac
    end.
    by eapply Hst.
  - match type of Hr with
    | ?m s = _ => assert (stable (fun o' _ => o' = o) m) as Hst by stable_tac
    end.
    by eapply Hst.
Qed.

(** X14. What a call leaves of the process, however it ends.  Every tensor
    object that existed before the call (inputs, mask, cache) has its
    contents unchanged, and no attribute of the instance has changed except
    the rotary tables; off the fused path, or without a position encoder, the
    instance is unchanged altogether.  The output of a call that returns is
    an object created by the call, and a cache is returned with it exactly
    when [use_cache] is set. *)
Theorem forward_leaves_module fuel (a : Args) (p p' : Proc) r :
  forward fuel a p = (r, p') ->
  (forall l t, heap (world p) !! l = Some t -> heap (world p') !! l = Some t) /\
  (exists rot, self p' = set_rotary rot (self p)) /\
  (device (self p) <> hpu \/ position_encoder (self p) = None -> self p' = self p) /\
  (forall out kv, r = Ok (out, kv) ->
     length (heap (world p)) <= out < length (heap (world p')) /\
     (is_Some kv <-> use_cache a = true)).
Proof.
  intros Hrun. pose proof (framed_forward fuel a _ _ _ Hrun) as Hfr.
  split; [intros l t; by apply frame_step_lookup|]. split; [by destruct Hfr|]. split.
  - intros Hcond.
    assert (stable (fun o' _ => o' = self p) (forward fuel a)) as Hst.
    { apply stable_forward.
      - intros. by apply stable_project_qkv_same.
      - intros q0 k0 v0 m0 s r0 s' Hr Hs. unfold holds in *.
        destruct (attend_run _ _ _ _ _ _ _ _ Hr) as (-> & _). done. }
    exact (Hst _ _ _ Hrun eq_refl).
  - intros out kv ->.
    apply forward_inv_full in Hrun
      as (tq & b & ql & x & tk & kl & q0 & p0 & qs & keys & values & p1 & keys' & values'
          & p2 & p4 & am & ke & ve & p5 & at1 & p6 & at2 & p7
          & _ & _ & _ & _ & Hq0 & Hqkv & Hm & Hf4 & Hs42 & He & Ha & H5 & H6 & Hkv & Hc).
    assert (frame_step p p7) as Hf7.
    { eapply frame_step_trans; [by eapply framed_project|].
      eapply frame_step_trans; [by eapply framed_project_qkv|].
      eapply frame_step_trans; [by eapply framed_merge_cache|].
      eapply frame_step_trans; [exact Hf4|].
      eapply frame_step_trans; [by eapply framed_expand_heads|].
      eapply frame_step_trans; [by eapply framed_attend|]. by eapply framed_tensor_op. }
    apply frame_step_length in Hf7.
    apply tensor_op_inv_ok in H6 as (? & ? & _ & _ & -> & ->).
    rewrite heap_push, length_app. simpl. split; [lia|].
    destruct (use_cache a).
    + destruct (Hc eq_refl) as (kl' & vl' & -> & ->). by subst kv.
    + subst kv. split; [by intros [? ?]|done].
Qed.

(** X4. [forward] unpacks the size of [q] into three values and reads the
    second size of [k]: a [q] that is not three-dimensional raises
    [ValueError], and a [k] of fewer than two dimensions raises [IndexError],
    before any projection is computed and with the process unchanged. *)
Theorem forward_rejects_bad_rank fuel (a : Args) (p : Proc) (tq tk : Tensor A) :
  heap (world p) !! q a = Some tq -> heap (world p) !! k a = Some tk ->
  (ndim tq <> 3 -> exists msg, forward fuel a p = (Raise (ValueError msg), p)) /\
  (ndim tq = 3 -> ndim tk < 2 -> exists msg, forward fuel a p = (Raise (IndexError msg), p)).
Proof.
  intros Hq Hk. unfold forward. erewrite bind_run by reflexivity.
  erewrite bind_run by (by apply deref_run). unfold ndim. split.
  - intros Hn. eexists. erewrite bind_lift_raise; [reflexivity|].
    by destruct (shape tq) as [|? [|? [|? [|? ?]]]].
  - intros Hn Hlt. destruct (shape tq) as [|b [|ql [|x [|? ?]]]]; try done.
    erewrite bind_lift_ok by reflexivity. cbn [fst snd].
    erewrite bind_run by (by apply deref_run).
    eexists. erewrite bind_lift_raise; [reflexivity|].
    unfold size_dim. by destruct (shape tk) as [|? [|? ?]]; simpl in *; try lia.
Qed.

(** The expansion of lines 274-284 divides by the KV head count and reads
    [keys] and [values]. *)
Lemma expand_heads_inv keys values (p p' : Proc) x :
  expand_heads keys values p = (Ok x, p') ->
  kvheads (self p) <> 0 /\ exists kl vl, keys = Some kl /\ values = Some vl.
Proof.
  intros Hrun. unfold expand_heads in Hrun.
  inv_bind Hrun p_ s Hg. inv_leaf Hg.
  inv_bind Hrun e s He. inv_leaf He. unfold py_floordiv in He.
  destruct (decide (kvheads (self p) = 0)); [done|]. split; [done|].
  destruct (decide (e <> 1)).
  - inv_bind Hrun kl s H1. inv_leaf H1.
    inv_bind Hrun ke s1 H2. inv_bind Hrun vl s2 H3. inv_leaf H3. by eexists _, _.
  - inv_bind Hrun kl s H1. inv_leaf H1.
    inv_bind Hrun vl s2 H3. inv_leaf H3. by eexists _, _.
Qed.

(** X12. [__init__] accepts [kvheads = 0], and no call of [forward] on such
    an instance returns: the expansion factor [nheads // kvheads] divides by
    zero. *)
Theorem forward_kvheads_zero fuel (a : Args) (p p' : Proc) r :
  kvheads (self p) = 0 -> forward fuel a p = (r, p') -> is_ok r = false.
Proof.
  intros Hkv Hrun. destruct r as [[out kv]| |]; try done.
  apply forward_inv_full in Hrun
    as (tq & b & ql & x & tk & kl & q0 & p0 & qs & keys & values & p1 & keys' & values'
        & p2 & p4 & am & ke & ve & p5 & at1 & p6 & at2 & p7
        & _ & _ & _ & _ & Hq0 & Hqkv & Hm & Hf4 & Hs42 & He & _).
  assert (frame_step p p4) as Hfr.
  { eapply frame_step_trans; [by eapply framed_project|].
    eapply frame_step_trans; [by eapply framed_project_qkv|].
    eapply frame_step_trans; [by eapply framed_merge_cache|]. exact Hf4. }
  apply expand_heads_inv in He as [Hne _].
  destruct (frame_step_config _ _ Hfr) as (E & _). congruence.
Qed.

(** On the fused path a cross-attention call that is handed a cache skips
    the projections of keys and values. *)
Lemma project_qkv_hpu_skipped (a : Args) b ql kl q0 (p p' : Proc) c queries keys values :
  device (self p) = hpu -> is_self a = false -> past_key_value_state a = Some c ->
  project_qkv a b ql kl q0 p = (Ok (queries, keys, values), p') ->
  keys = None /\ values = None.
Proof.
  intros Hdev Hself Hpast Hrun. unfold project_qkv in Hrun.
  inv_bind Hrun p_ s Hg. inv_leaf Hg.
  rewrite decide_True in Hrun by done.
  rewrite Hself, Hpast in Hrun. cbn [orb] in Hrun.
  rewrite bool_decide_false in Hrun by done.
  inv_bind Hrun q1 s1 H1. inv_leaf Hrun. by injection Hrun as _ <- <-.
Qed.

(** X11. On the fused path, a cross-attention call that is handed a cache it
    does not use (because [use_cache] is false, or because the cached keys
    have no elements) never returns: the projections were skipped, the cache
    is not taken, and [keys] is read unassigned. *)
Theorem cross_attention_unused_cache_hpu fuel (a : Args) (p p' : Proc) r
  (pk pv : loc) (tpk : Tensor A) :
  device (self p) = hpu -> is_self a = false ->
  past_key_value_state a = Some (pk, pv) -> heap (world p) !! pk = Some tpk ->
  use_cache a = false \/ numel tpk = 0 ->
  forward fuel a p = (r, p') -> is_ok r = false.
Proof.
  intros Hdev Hself Hpast Hpk Hunused Hrun. destruct r as [[out kv]| |]; try done.
  apply forward_inv_full in Hrun
    as (tq & b & ql & x & tk & kl & q0 & p0 & qs & keys & values & p1 & keys' & values'
        & p2 & p4 & am & ke & ve & p5 & at1 & p6 & at2 & p7
        & _ & _ & _ & _ & Hq0 & Hqkv & Hm & Hf4 & Hs42 & He & _).
  pose proof (framed_project _ _ _ _ _ _ Hq0) as Hf0.
  pose proof (framed_project_qkv _ _ _ _ _ _ _ _ Hqkv) as Hf1.
  apply project_qkv_hpu_skipped with (c := (pk, pv)) in Hqkv as [-> ->]; try done.
  2:{ destruct Hf0 as [_ [rot ->]]. done. }
  assert (keys' = None) as ->.
  { destruct Hunused as [Hc|Hn].
    - unfold merge_cache in Hm. rewrite Hpast, Hc in Hm. by injection Hm as <- _.
    - erewrite merge_cache_empty in Hm; [by injection Hm as <- _|done| |done].
      eapply frame_step_lookup; [|exact Hpk]. by eapply frame_step_trans. }
  apply expand_heads_inv in He as [_ (? & ? & ? & _)]. done.
Qed.


(** When the projections are computed (self-attention, or no cache handed
    in), they leave keys of shape batch x kvheads x kv_len x emb_kq_per_head
    and values of shape batch x kvheads x kv_len x emb_v_per_head. *)
Lemma project_qkv_computed (a : Args) b ql kl q0 (p0 p1 : Proc) queries keys values :
  is_self a || bool_decide (past_key_value_state a = None) = true ->
  rope_keeps_shape -> encoder_keeps_shape (position_encoder (self p0)) ->
  project_qkv a b ql kl q0 p0 = (Ok (queries, keys, values), p1) ->
  exists k0 v0 tk0 tv0,
    keys = Some k0 /\ values = Some v0 /\
    heap (world p1) !! k0 = Some tk0 /\ heap (world p1) !! v0 = Some tv0 /\
    shape tk0 = [b; kvheads (self p0); kl; emb_kq_per_head (self p0)] /\
    shape tv0 = [b; kvheads (self p0); kl; emb_v_per_head (self p0)].
Proof.
  intros Hcond Hrope Henc Hrun. unfold project_qkv in Hrun.
  inv_bind Hrun p_ s Hg. inv_leaf Hg. rewrite Hcond in Hrun.
  destruct (decide (device (self p0) = hpu)) as [Hdev|Hdev].
  - inv_bind Hrun q1 s1 Hq1. apply tensor_op_inv in Hq1 as (_ & _ & _ & _ & _ & _ & Hs1).
    inv_bind Hrun ka s2 Hka. apply project_shape in Hka as (rk & Hlk & Hshk & _ & Hs2).
    inv_bind Hrun va s3 Hva. apply project_shape in Hva as (rv & Hlv & Hshv & Hf3 & Hs3).
    inv_bind Hrun kb s4 Hkb.
    apply tensor_op_inv in Hkb as (tk & rkb & Hlk' & Htr & Hlkb & Hf4 & Hs4).
    assert (tk = rk) as -> by (eapply lookup_frame_eq; [exact Hf3|exact Hlk|exact Hlk']).
    eapply transpose_2_1_shape in Htr; [|done].
    inv_bind Hrun vb s5 Hvb.
    apply tensor_op_inv in Hvb as (tv & rvb & Hlv' & Htrv & Hlvb & Hf5 & Hs5).
    assert (tv = rv) as -> by (eapply lookup_frame_eq; [exact Hf4|exact Hlv|exact Hlv']).
    eapply transpose_2_1_shape in Htrv; [|done].
    destruct (position_encoder (self p0)) as [pe|] eqn:Hpe.
    + inv_bind Hrun tkeys s6 H6. inv_leaf H6.
      inv_bind Hrun n s6 H7. inv_leaf H7.
      inv_bind Hrun ids s6 H8.
      assert (frame_step s5 s6) as Hf6.
      { destruct (position_ids a); [by inv_leaf H8; apply frame_step_refl|].
        match type of H8 with ?m s5 = _ => assert (framed m) as Hm by framed_tac end.
        by eapply Hm. }
      inv_bind Hrun cs s7 H9. pose proof (framed_call_rotary_emb _ _ _ _ _ H9) as Hf7.
      inv_bind Hrun qk s8 H10. destruct qk as [q' k'].
      pose proof (framed_apply_gaudi_rope _ _ _ _ _ _ _ _ H10) as Hf8.
      apply apply_gaudi_rope_inv in H10 as (tk & y & Hltk & Hly & Hshy); [|done].
      inv_leaf Hrun. injection Hrun as <- <- <-. cbn [fst snd].
      assert (tk = rkb) as ->.
      { eapply lookup_frame_eq; [|exact Hlkb|exact Hltk].
        eapply frame_step_trans; [exact Hf5|]. by eapply frame_step_trans. }
      exists k', vb, y, rvb. split_and!; try done; [|by rewrite Hshy, Htr].
      eapply frame_step_lookup; [|exact Hlvb].
      eapply frame_step_trans; [exact Hf6|]. by eapply frame_step_trans.
    + inv_leaf Hrun. injection Hrun as <- <- <-.
      exists kb, vb, rkb, rvb. split_and!; try done. by eapply frame_step_lookup.
  - inv_bind Hrun qkv s1 Hqkv. destruct qkv as [[q1 k1] v1].
    inv_bind Hqkv ka s2 Hka. apply project_shape in Hka as (rk & Hlk & Hshk & _ & Hs2).
    inv_bind Hqkv va s3 Hva. apply project_shape in Hva as (rv & Hlv & Hshv & Hf3 & Hs3).
    assert (exists kc rkc, k1 = Some kc /\ v1 = Some va /\
              heap (world s1) !! kc = Some rkc /\ heap (world s1) !! va = Some rv /\
              shape rkc = [b; kl; kvheads (self p0); emb_kq_per_head (self p0)])
      as (kc & rkc & -> & -> & Hlkc & Hlva & Hshc).
    { destruct (position_encoder (self p0)) as [pe|] eqn:Hpe.
      - inv_bind Hqkv tq s4 H4. inv_leaf H4.
        inv_bind Hqkv tk s4 H5. inv_leaf H5.
        assert (tk = rk) as -> by (by eapply lookup_frame_eq).
        inv_bind Hqkv tpos s4 H6.
        pose proof (framed_deref_opt _ _ _ _ H6) as Hg6.
        inv_bind Hqkv tpast s5 H7.
        pose proof (framed_deref_pair _ _ _ _ H7) as Hg7.
        inv_bind Hqkv qk s6 H8. apply lift_inv_ok in H8 as [H8 ->]. destruct qk as [tq' tk'].
        apply Henc in H8.
        inv_bind Hqkv lq s6 H9. apply alloc_inv_ok in H9 as [-> ->].
        inv_bind Hqkv lk s6 H10. apply alloc_inv_ok in H10 as [-> ->].
        inv_leaf Hqkv. injection Hqkv as <- <- <-.
        eexists _, tk'. split; [done|]. split; [done|].
        split; [by apply lookup_push_at|]. split.
        + do 2 apply lookup_push_old. eapply frame_step_lookup; [|exact Hlv].
          by eapply frame_step_trans.
        + cbn [fst snd]. by rewrite H8.
      - inv_leaf Hqkv. injection Hqkv as <- <- <-.
        exists ka, rk. split_and!; try done. by eapply frame_step_lookup. }
    inv_bind Hrun q2 s4 H4. pose proof (framed_tensor_op _ _ _ _ _ H4) as Hf4.
    inv_bind Hrun k2 s5 H5. inv_leaf H5.
    inv_bind Hrun k3 s5 H6.
    apply tensor_op_inv in H6 as (tk & rk3 & Hltk & Htr & Hlk3 & Hf5 & _).
    assert (tk = rkc) as -> by (by eapply lookup_frame_eq).
    eapply transpose_2_1_shape in Htr; [|done].
    inv_bind Hrun v2 s6 H7. inv_leaf H7.
    inv_bind Hrun v3 s6 H8.
    apply tensor_op_inv in H8 as (tv & rv3 & Hltv & Htrv & Hlv3 & Hf6 & _).
    assert (tv = rv) as ->.
    { eapply lookup_frame_eq; [|exact Hlva|exact Hltv]. by eapply frame_step_trans. }
    eapply transpose_2_1_shape in Htrv; [|done].
    inv_leaf Hrun. injection Hrun as <- <- <-.
    exists k3, v3, rk3, rv3. split_and!; try done. by eapply frame_step_lookup.
Qed.

(** X7. A call with [use_cache=True] that is handed no cache, self- or
    cross-attention, returns as cache the keys and values it projected from
    [k] and [v]: batch x kvheads x kv_len x per-head size, with the KV head
    count of the instance (the expansion to the query head count is made for
    the kernel only) and the sequence length of [k]. *)
Theorem first_call_cache_shape fuel (a : Args) (p p' : Proc) out kv
  (tq tk : Tensor A) (b ql x kl : nat) :
  rope_keeps_shape -> encoder_keeps_shape (position_encoder (self p)) ->
  past_key_value_state a = None -> use_cache a = true ->
  heap (world p) !! q a = Some tq -> shape tq = [b; ql; x] ->
  heap (world p) !! k a = Some tk -> size_dim tk 1 = Ok kl ->
  forward fuel a p = (Ok (out, kv), p') ->
  exists keys values tkeys tvalues,
    kv = Some (keys, values) /\
    heap (world p') !! keys = Some tkeys /\ heap (world p') !! values = Some tvalues /\
    shape tkeys = [b; kvheads (self p); kl; emb_kq_per_head (self p)] /\
    shape tvalues = [b; kvheads (self p); kl; emb_v_per_head (self p)].
Proof.
  intros Hrope Henc Hpast Hcache Hq Hsq Hk Hkl Hrun.
  pose proof (framed_forward _ _ _ _ _ Hrun) as Hfr.
  apply forward_inv_full in Hrun
    as (tq' & b' & ql' & x' & tk' & kl' & q0 & p0 & qs & keys & values & p1 & keys' & values'
        & p2 & p4 & am & ke & ve & p5 & at1 & p6 & at2 & p7
        & Hq' & Hsq' & Hk' & Hkl' & Hq0 & Hqkv & Hm & Hf4 & Hs42 & He & Ha & H5 & H6 & Hkv & _).
  rewrite Hq in Hq'. injection Hq' as <-. rewrite Hsq in Hsq'. injection Hsq' as <- <- <-.
  rewrite Hk in Hk'. injection Hk' as <-. rewrite Hkl in Hkl'. injection Hkl' as <-.
  pose proof (framed_project _ _ _ _ _ _ Hq0) as Hf0.
  destruct Hf0 as [_ [rot0 Hs0]].
  apply project_qkv_computed in Hqkv
    as (k0 & v0 & tk0 & tv0 & -> & -> & Hk0 & Hv0 & Hshk & Hshv);
    [|by rewrite Hpast, orb_true_r|done|by rewrite Hs0].
  rewrite Hs0 in Hshk, Hshv. cbn [set_rotary kvheads emb_kq_per_head emb_v_per_head] in Hshk, Hshv.
  rewrite merge_cache_none in Hm by done. injection Hm as <- <- <-.
  rewrite Hcache in Hkv. subst kv.
  assert (frame_step p1 p') as Hf.
  { eapply frame_step_trans; [exact Hf4|].
    eapply frame_step_trans; [by eapply framed_expand_heads|].
    eapply frame_step_trans; [by eapply framed_attend|].
    eapply frame_step_trans; by eapply framed_tensor_op. }
  exists k0, v0, tk0, tv0. split_and!; try done; by eapply frame_step_lookup.
Qed.


Lemma rotary_forward_len (x : Tensor A) n s r s' :
  GaudiRotaryEmbedding.forward x n s = (r, s') ->
  GaudiRotaryEmbedding.max_seq_len_cached s'
  = Nat.max n (GaudiRotaryEmbedding.max_seq_len_cached s).
Proof.
  unfold GaudiRotaryEmbedding.forward. unfold bind at 1, get at 1.
  destruct (decide (GaudiRotaryEmbedding.max_seq_len_cached s < n)) as [Hlt|Hge].
  - unfold bind at 1. rewrite set_cache_run. unfold bind at 1, get at 1.
    cbn [GaudiRotaryEmbedding._cos_cached GaudiRotaryEmbedding._sin_cached].
    unfold bind, lift, ret.
    repeat match goal with |- context [slice_rows ?n ?t] => destruct (slice_rows n t) end;
      intros [= _ <-]; simpl; lia.
  - unfold bind at 1, ret at 1. unfold bind at 1, get at 1. unfold bind, lift, ret.
    repeat match goal with |- context [slice_rows ?n ?t] => destruct (slice_rows n t) end;
      intros [= _ <-]; lia.
Qed.

Lemma call_rotary_emb_len x n (p p' : Proc) cs :
  call_rotary_emb x n p = (Ok cs, p') ->
  GaudiRotaryEmbedding.max_seq_len_cached (rotary_emb (self p'))
  = Nat.max n (GaudiRotaryEmbedding.max_seq_len_cached (rotary_emb (self p))).
Proof.
  intros Hrun. unfold call_rotary_emb in Hrun.
  inv_bind Hrun tx s Hx. inv_leaf Hx.
  inv_bind Hrun r s1 Hr.
  destruct (GaudiRotaryEmbedding.forward tx n (rotary_emb (self p))) as [r0 rot] eqn:E.
  injection Hr as -> <-.
  inv_bind Hrun c s2 Hc. apply alloc_inv_ok in Hc as [-> ->].
  inv_bind Hrun sn0 s3 Hs. apply alloc_inv_ok in Hs as [-> ->].
  inv_leaf Hrun. simpl. by eapply rotary_forward_len.
Qed.

(** On the fused path with a position encoder, the projections call the
    rotary embedding for the sequence length of [k]. *)
Lemma project_qkv_hpu_rotary (a : Args) b ql kl q0 (p0 p1 : Proc) pe queries keys values :
  device (self p0) = hpu -> position_encoder (self p0) = Some pe ->
  is_self a || bool_decide (past_key_value_state a = None) = true ->
  project_qkv a b ql kl q0 p0 = (Ok (queries, keys, values), p1) ->
  GaudiRotaryEmbedding.max_seq_len_cached (rotary_emb (self p1))
  = Nat.max kl (GaudiRotaryEmbedding.max_seq_len_cached (rotary_emb (self p0))).
Proof.
  intros Hdev Hpe Hcond Hrun. unfold project_qkv in Hrun.
  inv_bind Hrun p_ s Hg. inv_leaf Hg. rewrite Hcond, Hpe in Hrun.
  rewrite decide_True in Hrun by done.
  inv_bind Hrun q1 s1 Hq1. apply tensor_op_inv in Hq1 as (_ & _ & _ & _ & _ & _ & Hs1).
  inv_bind Hrun ka s2 Hka. apply project_shape in Hka as (rk & Hlk & Hshk & _ & Hs2).
  inv_bind Hrun va s3 Hva. apply project_shape in Hva as (rv & Hlv & Hshv & Hf3 & Hs3).
  inv_bind Hrun kb s4 Hkb.
  apply tensor_op_inv in Hkb as (tk & rkb & Hlk' & Htr & Hlkb & Hf4 & Hs4).
  assert (tk = rk) as -> by (eapply lookup_frame_eq; [exact Hf3|exact Hlk|exact Hlk']).
  eapply transpose_2_1_shape in Htr; [|done].
  inv_bind Hrun vb s5 Hvb.
  apply tensor_op_inv in Hvb as (tv & rvb & Hlv' & Htrv & Hlvb & Hf5 & Hs5).
  inv_bind Hrun tkeys s6 H6. inv_leaf H6.
  assert (tkeys = rkb) as -> by (eapply lookup_frame_eq; [exact Hf5|exact Hlkb|exact H6]).
  inv_bind Hrun n s6 H7. inv_leaf H7.
  unfold size_dim in H7. rewrite Htr in H7. injection H7 as <-.
  inv_bind Hrun ids s6 H8.
  assert (self s6 = self s5) as Hs6.
  { match type of H8 with
    | ?m s5 = _ => assert (stable (fun o _ => o = self s5) m) as Hst by stable_tac
    end.
    by eapply Hst. }
  inv_bind Hrun cs s7 H9. apply call_rotary_emb_len in H9.
  inv_bind Hrun qk s8 H10.
  pose proof (stable_apply_gaudi_rope (fun o _ => o = self s7) _ _ _ _ _ _ _ _ H10 eq_refl)
    as Hs8.
  inv_leaf Hrun. unfold holds in Hs8. rewrite Hs8, H9. congruence.
Qed.

(** X15. The one attribute a call writes: on the fused path with a position
    encoder, a call that projects keys (self-attention, or no cache handed in)
    and returns has grown the rotary tables of the instance to the sequence
    length of [k] when they were shorter, and left them otherwise. *)
Theorem forward_grows_rotary_cache fuel (a : Args) (p p' : Proc) out kv pe
  (tk : Tensor A) (kl : nat) :
  device (self p) = hpu -> position_encoder (self p) = Some pe ->
  is_self a = true \/ past_key_value_state a = None ->
  heap (world p) !! k a = Some tk -> size_dim tk 1 = Ok kl ->
  forward fuel a p = (Ok (out, kv), p') ->
  GaudiRotaryEmbedding.max_seq_len_cached (rotary_emb (self p'))
  = Nat.max kl (GaudiRotaryEmbedding.max_seq_len_cached (rotary_emb (self p))).
Proof.
  intros Hdev Hpe Hcond Hk Hkl Hrun.
  apply forward_inv_full in Hrun
    as (tq & b & ql & x & tk' & kl' & q0 & p0 & qs & keys & values & p1 & keys' & values'
        & p2 & p4 & am & ke & ve & p5 & at1 & p6 & at2 & p7
        & _ & _ & Hk' & Hkl' & Hq0 & Hqkv & Hm & Hf4 & Hs42 & He & Ha & H5 & H6 & _).
  rewrite Hk in Hk'. injection Hk' as <-. rewrite Hkl in Hkl'. injection Hkl' as <-.
  apply project_shape in Hq0 as (_ & _ & _ & _ & Hs0).
  eapply project_qkv_hpu_rotary in Hqkv; [|by rewrite Hs0|by rewrite Hs0; exact Hpe|].
  2:{ destruct Hcond as [->| ->]; [done|]. by rewrite orb_true_r. }
  rewrite Hs0 in Hqkv. rewrite <- Hqkv.
  pose proof (stable_merge_cache (fun o _ => o = self p1) _ _ _ _ _ _ Hm eq_refl) as Hs2.
  pose proof (stable_expand_heads (fun o _ => o = self p4) _ _ _ _ _ He eq_refl) as Hs5.
  destruct (attend_run _ _ _ _ _ _ _ _ Ha) as (Hs6 & _).
  apply tensor_op_inv_ok in H5 as (? & ? & _ & _ & _ & ->).
  apply tensor_op_inv_ok in H6 as (? & ? & _ & _ & _ & ->).
  unfold holds in *. simpl. rewrite Hs6, Hs5, Hs42, Hs2. done.
Qed.

Lemma bind_ext {S X Y} (m : M S X) (k k' : X -> M S Y) (s : S) :
  (forall x s', m s = (Ok x, s') -> k x s' = k' x s') -> bind m k s = bind m k' s.
Proof. intros Hk. unfold bind. destruct (m s) as [[x|e|] s'] eqn:E; [by apply Hk|done|done]. Qed.

Lemma bind_cong_l {S X Y} (m m' : M S X) (k : X -> M S Y) (s : S) :
  m s = m' s -> bind m k s = bind m' k s.
Proof. unfold bind. by intros ->. Qed.

(** The arguments of a call with another [is_self]. *)
Definition with_is_self (b : bool) (a : Args) : Args :=
  mkArgs (q a) (k a) (v a) (mask a) (position_ids a) (attn_algorithm a)
    (past_key_value_state a) (use_cache a) b (is_causal_mask a).

(** X8. A call that is handed no cache does not depend on [is_self]: with
    [past_key_value_state=None] the projections are always computed and
    nothing is merged, so the result and the process left behind are the same
    for self- and cross-attention. *)
Theorem forward_is_self_irrelevant fuel (a : Args) (b : bool) (p : Proc) :
  past_key_value_state a = None ->
  forward fuel (with_is_self b a) p = forward fuel a p.
Proof.
  intros Hpast. unfold forward.
  unfold project_qkv, merge_cache, attend, with_is_self. cbn [q k v mask position_ids attn_algorithm past_key_value_state use_cache is_self is_causal_mask].
  rewrite Hpast. rewrite !bool_decide_true by done. rewrite !orb_true_r.
  reflexivity.
Qed.

(** The arguments of a call with no cache handed in. *)
Definition without_cache (a : Args) : Args :=
  mkArgs (q a) (k a) (v a) (mask a) (position_ids a) (attn_algorithm a)
    None (use_cache a) (is_self a) (is_causal_mask a).

(** X9. Without [use_cache=True] a cache handed to a self-attention call is
    not used: on an instance without position encoder the call gives the
    result, and leaves the process, of the same call handed no cache. *)
Theorem forward_ignores_unused_cache fuel (a : Args) (p : Proc) :
  is_self a = true -> use_cache a = false -> position_encoder (self p) = None ->
  forward fuel (without_cache a) p = forward fuel a p.
Proof.
  intros Hself Hcache Hpe.
  destruct (past_key_value_state a) as [[pk pv]|] eqn:Hpast; cycle 1.
  { unfold without_cache. rewrite <- Hpast. by destruct a. }
  unfold forward.
  unfold merge_cache, without_cache. cbn [q k v mask position_ids attn_algorithm past_key_value_state use_cache is_self is_causal_mask].
  rewrite Hcache, Hpast.
  erewrite !(bind_run get) by reflexivity. rewrite Hpe.
  apply bind_ext. intros tq s0 H0. inv_leaf H0.
  apply bind_ext. intros bq s1 H1. inv_leaf H1.
  apply bind_ext. intros tk s2 H2. inv_leaf H2.
  apply bind_ext. intros kl s3 H3. inv_leaf H3.
  apply bind_ext. intros q0 s4 Hq0.
  apply project_shape in Hq0 as (_ & _ & _ & _ & Hs4).
  assert (project_qkv (mkArgs (q a) (k a) (v a) (mask a) (position_ids a) (attn_algorithm a)
                         None false true (is_causal_mask a)) bq.1 bq.2 kl q0 s4
          = project_qkv a bq.1 bq.2 kl q0 s4) as Hqkv.
  { unfold project_qkv. cbn [q k v mask position_ids attn_algorithm past_key_value_state use_cache is_self is_causal_mask].
    erewrite !(bind_run get) by reflexivity.
    rewrite Hs4, Hpe, Hself. reflexivity. }
  rewrite Hself. erewrite bind_cong_l by exact Hqkv. reflexivity.
Qed.

End ForwardEdges.

(** ** What the kernel is handed *)

Section KernelArguments.
Context {A : Type} `{!Torch A}.
Import MultiHeadAttention.

(** [te] is [t] with every head repeated [e] times in a row: both have four
    axes, [te] has [e] times the heads of [t], and head [j] of each batch
    entry of [te] is head [j / e] of [t]. *)
Definition heads_repeated (e : nat) (t te : Tensor A) : Prop :=
  exists b h l d,
    shape t = [b; h; l; d] /\ shape te = [b; h * e; l; d] /\
    forall bi j, bi < b -> j < h * e ->
      res_bind (select bi te) (select j) = res_bind (select bi t) (select (j / e)) /\
      exists head, res_bind (select bi te) (select j) = Ok head /\ shape head = [l; d].

(** The kernel [forward] calls (lines 286-326): the fused one on the hpu,
    else [F.scaled_dot_product_attention] under the switches selected for
    [attn_algorithm], or under those of the process when none is given. *)
Definition kernel_of (o : obj A) (a : Args) (w : World A) :
  Tensor A -> Tensor A -> Tensor A -> option (Tensor A) -> Q -> bool ->
  Rng -> Res (Tensor A) * Rng :=
  if decide (device o = hpu) then FusedSDPA_apply
  else scaled_dot_product_attention
         (if truthy (attn_algorithm a) then selected_sdp a else backends w).

(** [self.p_dropout if self.training else 0.0] *)
Definition dropout_of (o : obj A) : Q := if training o then p_dropout o else 0%Q.

(** [expand_kv] succeeds on tensors of four axes only. *)
Lemma expand_kv_shape (e : nat) (t te : Tensor A) :
  expand_kv e t = Ok te -> exists b h l d, shape t = [b; h; l; d].
Proof.
  unfold expand_kv, unsqueeze, expand, ndim. intros Hrun.
  destruct (decide (2 <= length (shape t))) as [Hn|Hn]; [|done].
  cbn [res_bind shape] in Hrun.
  destruct (shape t) as [|b [|h [|l [|d [|? ?]]]]]; simpl in *; try lia; try done.
  by eexists _, _, _, _.
Qed.

Lemma expand_kv_repeats (e : nat) (t te : Tensor A) :
  0 < e -> wf_tensor t -> expand_kv e t = Ok te -> heads_repeated e t te.
Proof.
  intros He Hwf Hrun. destruct (expand_kv_shape e t te Hrun) as (b & h & l & d & Hs).
  destruct (expand_kv_head e b h l d t te He Hs Hwf Hrun) as (Hse & _ & Hh).
  exists b, h, l, d. split_and!; try done.
Qed.

(** A kernel call that returned: the tensors it was given. *)
Lemma call_kernel_inv kernel q k v m pd c (p p' : Proc) l :
  call_kernel kernel q k v m pd c p = (Ok l, p') ->
  exists tq tk tv r g,
    heap (world p) !! q = Some tq /\ heap (world p) !! k = Some tk /\
    heap (world p) !! v = Some tv /\
    kernel tq tk tv (m ≫= fun ml => heap (world p) !! ml) pd c (rng (world p)) = (Ok r, g) /\
    heap (world p') !! l = Some r.
Proof.
  intros Hrun. unfold call_kernel in Hrun.
  inv_bind Hrun tq s Hq. inv_leaf Hq.
  inv_bind Hrun tk s Hk. inv_leaf Hk.
  inv_bind Hrun tv s Hv. inv_leaf Hv.
  inv_bind Hrun tm s Hm.
  assert (tm = (m ≫= fun ml => heap (world p) !! ml) /\ s = p) as [-> ->].
  { unfold deref_opt in Hm. destruct m as [ml|]; simpl.
    - inv_bind Hm t s' Ht. inv_leaf Ht. inv_leaf Hm. by rewrite Ht, <- Hm.
    - inv_leaf Hm. by rewrite <- Hm. }
  inv_bind Hrun r s Hr.
  destruct (kernel tq tk tv _ pd c (rng (world p))) as [r' g] eqn:Ek.
  injection Hr as -> <-.
  apply alloc_inv_ok in Hrun as [-> ->].
  exists tq, tk, tv, r, g. split_and!; try done.
  by apply lookup_push_at.
Qed.

Lemma attend_inv (a : Args) q ke ve m (p p' : Proc) l :
  attend a q ke ve m p = (Ok l, p') ->
  exists tq tk tv r g,
    heap (world p) !! q = Some tq /\ heap (world p) !! ke = Some tk /\
    heap (world p) !! ve = Some tv /\
    kernel_of (self p) a (world p) tq tk tv (m ≫= fun ml => heap (world p) !! ml)
      (dropout_of (self p)) (is_causal_mask a) (rng (world p)) = (Ok r, g) /\
    heap (world p') !! l = Some r.
Proof.
  intros Hrun. unfold attend in Hrun.
  inv_bind Hrun p_ s Hg. inv_leaf Hg. unfold kernel_of, dropout_of.
  destruct (decide (device (self p) = hpu)) as [Hdev|Hdev].
  - apply call_kernel_inv in Hrun as (tq & tk & tv & r & g & Etq & Etk & Etv & Eker & Er).
    by exists tq, tk, tv, r, g.
  - destruct (truthy (attn_algorithm a)).
    + inv_bind Hrun u s1 H1. unfold put_backends in H1. injection H1 as <- <-.
      inv_bind Hrun p_ s Hg. inv_leaf Hg.
      inv_bind Hrun attn s2 H2.
      apply call_kernel_inv in H2 as (tq & tk & tv & r & g & Etq & Etk & Etv & Eker & Er).
      inv_bind Hrun u2 s3 H3. unfold put_backends in H3. injection H3 as <- <-.
      inv_leaf Hrun. subst. by exists tq, tk, tv, r, g.
    + inv_bind Hrun u s1 H1. inv_leaf H1.
      inv_bind Hrun p_ s Hg. inv_leaf Hg.
      inv_bind Hrun attn s2 H2.
      apply call_kernel_inv in H2 as (tq & tk & tv & r & g & Etq & Etk & Etv & Eker & Er).
      inv_bind Hrun u2 s3 H3. inv_leaf H3.
      inv_leaf Hrun. subst. by exists tq, tk, tv, r, g.
Qed.

(** The expansion of lines 274-284, when it returned. *)
Lemma expand_heads_inv_full keys values (p p' : Proc) keys_e values_e :
  expand_heads keys values p = (Ok (keys_e, values_e), p') ->
  let e := nheads (self p) / kvheads (self p) in
  exists kl vl,
    keys = Some kl /\ values = Some vl /\ frame_step p p' /\
    (e <> 1 -> exists tk tv tke tve,
       heap (world p') !! kl = Some tk /\ heap (world p') !! vl = Some tv /\
       heap (world p') !! keys_e = Some tke /\ heap (world p') !! values_e = Some tve /\
       expand_kv e tk = Ok tke /\ expand_kv e tv = Ok tve) /\
    (e = 1 -> keys_e = kl /\ values_e = vl /\ p' = p).
Proof.
  intros Hrun e. pose proof (framed_expand_heads _ _ _ _ _ Hrun) as Hfr.
  unfold expand_heads in Hrun.
  inv_bind Hrun p_ s Hg. inv_leaf Hg.
  inv_bind Hrun e' s He. inv_leaf He. unfold py_floordiv in He.
  destruct (decide (kvheads (self p) = 0)); [done|]. injection He as <-. fold e in Hrun.
  destruct (decide (e <> 1)) as [Hne|Heq].
  - inv_bind Hrun kl s H1. inv_leaf H1.
    inv_bind Hrun ke s1 H2.
    apply tensor_op_inv in H2 as (tk & tke & Hk & Hek & Hke & Hf1 & _).
    inv_bind Hrun vl s H3. inv_leaf H3.
    inv_bind Hrun ve s2 H4.
    apply tensor_op_inv in H4 as (tv & tve & Hv & Hev & Hve & Hf2 & _).
    inv_leaf Hrun. injection Hrun as <- <-.
    exists kl, vl. split_and!; try done.
    intros _. exists tk, tv, tke, tve. split_and!; try done.
    + eapply frame_step_lookup; [exact Hf2|]. eapply frame_step_lookup; [exact Hf1|exact Hk].
    + eapply frame_step_lookup; [exact Hf2|exact Hv].
    + eapply frame_step_lookup; [exact Hf2|exact Hke].
  - inv_bind Hrun kl s H1. inv_leaf H1.
    inv_bind Hrun vl s H3. inv_leaf H3.
    inv_leaf Hrun. injection Hrun as <- <-.
    exists kl, vl. split_and!; try done.
Qed.

(** C3. The keys and values a call hands to the attention kernel.  In a
    module with more query heads than KV heads, every call of [forward] that
    returns has called the kernel on the queries and on two tensors [tke] and
    [tve], and its output is the kernel's result with the heads merged and
    [dense] applied.  With [e = nheads // kvheads] other than 1, [tke] and
    [tve] are the keys and values of the call (merged with the cache, the
    pair that is returned under [use_cache]) with every KV head repeated [e]
    times in a row: head [j] of each batch entry of [tke] is head [j / e] of
    the keys, and likewise for the values.  With [e = 1] they are the keys
    and values themselves.  The tensors of the process are assumed to hold
    one element per index. *)
Theorem forward_gqa_expansion fuel (a : Args) (p p' : Proc) out kv :
  0 < kvheads (self p) -> kvheads (self p) < nheads (self p) ->
  Forall wf_tensor (heap (world p')) ->
  forward fuel a p = (Ok (out, kv), p') ->
  let e := nheads (self p) / kvheads (self p) in
  exists keys values keys_e values_e queries (tk tv tke tve tq : Tensor A)
         w tm g r b ql tout,
    (use_cache a = true -> kv = Some (keys, values)) /\
    heap (world p') !! keys = Some tk /\ heap (world p') !! values = Some tv /\
    heap (world p') !! keys_e = Some tke /\ heap (world p') !! values_e = Some tve /\
    heap (world p') !! queries = Some tq /\
    kernel_of (self p) a w tq tke tve tm (dropout_of (self p)) (is_causal_mask a) (rng w)
    = (Ok r, g) /\
    (u <~ transpose_2_1 r ;;
     y <~ view [b; ql; nheads (self p) * emb_v_per_head (self p)] u ;;
     nn_Linear_call (dense (self p)) y) = Ok tout /\
    heap (world p') !! out = Some tout /\
    (e <> 1 -> heads_repeated e tk tke /\ heads_repeated e tv tve) /\
    (e = 1 -> keys_e = keys /\ values_e = values).
Proof.
  intros Hkvh Hnh Hwf Hrun e.
  assert (0 < e) as He0 by (unfold e; apply Nat.div_str_pos; lia).
  apply forward_inv_full in Hrun
    as (tq0 & b & ql & x & tk0 & kl0 & q0 & p0 & qs & keys & values & p1 & keys' & values'
        & p2 & p4 & am & ke & ve & p5 & at1 & p6 & at2 & p7
        & _ & _ & _ & _ & Hq0 & Hqkv & Hm & Hf4 & Hs42 & He & Ha & H5 & H6 & Hkv & _).
  assert (frame_step p p4) as Hfr4.
  { eapply frame_step_trans; [by eapply framed_project|].
    eapply frame_step_trans; [by eapply framed_project_qkv|].
    eapply frame_step_trans; [by eapply framed_merge_cache|]. exact Hf4. }
  apply expand_heads_inv_full in He as (kl & vl & -> & -> & Hf5 & Hne & Heq).
  assert (frame_step p p5) as Hfr5 by (by eapply frame_step_trans).
  pose proof (framed_attend _ _ _ _ _ _ _ _ Ha) as Hf6.
  apply attend_inv in Ha as (tq & tke & tve & r & g & Etq & Etke & Etve & Eker & Er).
  apply tensor_op_inv in H5 as (t5 & r5 & Ht5 & Hm5 & Hr5 & Hf7 & _).
  rewrite Er in Ht5. injection Ht5 as <-.
  apply tensor_op_inv in H6 as (t6 & tout & Ht6 & Hd6 & Hout & Hf8 & _).
  rewrite Hr5 in Ht6. injection Ht6 as <-.
  assert (frame_step p5 p') as Hfr.
  { eapply frame_step_trans; [exact Hf6|]. by eapply frame_step_trans. }
  assert (nheads (self p4) / kvheads (self p4) = e) as Ee.
  { destruct Hfr4 as [_ [rot ->]]. done. }
  rewrite Ee in Hne, Heq.
  assert (kernel_of (self p5) a (world p5) = kernel_of (self p) a (world p5)
          /\ dropout_of (self p5) = dropout_of (self p)) as [Ek Ed].
  { destruct Hfr5 as [_ [rot ->]]. done. }
  rewrite Ek, Ed in Eker.
  assert (forall l t, heap (world p5) !! l = Some t -> heap (world p') !! l = Some t) as Hup.
  { intros l t. by apply frame_step_lookup. }
  assert (forall l t, heap (world p') !! l = Some t -> wf_tensor t) as Hw.
  { intros l t Hl. by eapply Forall_lookup_1. }
  assert ((u <~ transpose_2_1 r ;;
           y <~ view [b; ql; nheads (self p) * emb_v_per_head (self p)] u ;;
           nn_Linear_call (dense (self p)) y) = Ok tout) as Hout'.
  { destruct (transpose_2_1 r) as [u| |]; try done. simpl in *.
    destruct (view _ u) as [y| |]; try done. simpl in *. by injection Hm5 as ->. }
  assert (kv = if use_cache a then Some (kl, vl) else None) as Hkv' by done.
  destruct (decide (e = 1)) as [E1|E1].
  - destruct (Heq E1) as (-> & -> & ->).
    eexists kl, vl, kl, vl, qs, tke, tve, tke, tve, tq, _, _, g, r, b, ql, tout.
    split_and!; try exact Eker; try done; auto.
    intros Hc. by rewrite Hc in Hkv'.
  - destruct (Hne E1) as (tk & tv & tke' & tve' & Hk & Hv & Hke & Hve & Ekk & Evv).
    rewrite Etke in Hke. injection Hke as <-. rewrite Etve in Hve. injection Hve as <-.
    eexists kl, vl, ke, ve, qs, tk, tv, tke, tve, tq, _, _, g, r, b, ql, tout.
    split_and!; try exact Eker; try done; auto.
    + intros Hc. by rewrite Hc in Hkv'.
    + intros _. split; apply expand_kv_repeats; try done; eapply Hw; eauto.
Qed.

End KernelArguments.

(** ** The mask loop inside a call *)

Section MaskLoop.
Context {A : Type} `{!Torch A}.
Import MultiHeadAttention.

(** Two runs end alike, and neither returns. *)
Definition both_fail {X} (r1 r2 : Res X * Proc) : Prop :=
  fst r1 = fst r2 /\ is_ok (fst r1) = false.

Lemma both_fail_bind {X Y} (m : M Proc X) (k1 k2 : X -> M Proc Y) (p : Proc) :
  (forall x s, m p = (Ok x, s) -> both_fail (k1 x s) (k2 x s)) ->
  both_fail (bind m k1 p) (bind m k2 p).
Proof.
  intros Hk. unfold bind. destruct (m p) as [[x|e|] s]; [by apply Hk|done|done].
Qed.

(** With a mask of more than four dimensions, a call ends in the same way
    whatever the number of iterations allowed, and does not return. *)
Lemma forward_deep_mask (a : Args) (p : Proc) (m : loc) (t : Tensor A) fuel fuel' :
  mask a = Some m -> heap (world p) !! m = Some t -> 4 < ndim t ->
  both_fail (forward fuel a p) (forward fuel' a p).
Proof.
  intros Hmask Hm Hn. unfold forward.
  apply both_fail_bind. intros p_ s Hg. inv_leaf Hg.
  apply both_fail_bind. intros tq s Hq. inv_leaf Hq.
  apply both_fail_bind. intros bq s Hbq. inv_leaf Hbq.
  apply both_fail_bind. intros tk s Hk. inv_leaf Hk.
  apply both_fail_bind. intros kl s Hkl. inv_leaf Hkl.
  apply both_fail_bind. intros q0 p0 Hq0.
  apply both_fail_bind. intros [[qs keys] values] p1 Hqkv.
  apply both_fail_bind. intros [keys' values'] p2 Hmc.
  assert (heap (world p2) !! m = Some t) as Hm2.
  { eapply frame_step_lookup; [|exact Hm].
    eapply frame_step_trans; [by eapply framed_project|].
    eapply frame_step_trans; [by eapply framed_project_qkv|].
    by eapply framed_merge_cache. }
  rewrite Hmask.
  assert (forall f (k : option loc -> M Proc (loc * option (loc * loc))) (mk : loc -> M Proc (option loc)),
            fst (bind (bind (normalize_mask f m) mk) k p2) = OutOfFuel) as Hout.
  { intros f k mk. pose proof (normalize_mask_diverges f p2 m t Hm2 Hn) as H1.
    destruct (normalize_mask f m p2) as [r1 s1] eqn:E. simpl in H1. subst r1.
    erewrite bind_out_of_fuel; [done|]. by erewrite bind_out_of_fuel. }
  split; [by rewrite !Hout|by rewrite Hout].
Qed.

(** C8. The loop of lines 264-265 only adds axes.  On a mask of more than
    four dimensions it is never left: however many iterations are allowed, the
    loop has not produced a mask, in any state the call can reach it in.  A
    call of [forward] with such a mask therefore ends in the same way for
    every number of iterations allowed, and never by returning: either a step
    before the loop raises, or the call does not end. *)
Theorem forward_mask_loop_never_ends (a : Args) (p : Proc) (m : loc) (t : Tensor A) :
  mask a = Some m -> heap (world p) !! m = Some t -> 4 < ndim t ->
  (forall fuel p1, frame_step p p1 -> fst (normalize_mask fuel m p1) = OutOfFuel) /\
  exists r, is_ok r = false /\ forall fuel, fst (forward fuel a p) = r.
Proof.
  intros Hmask Hm Hn. split.
  - intros fuel p1 Hfr. eapply normalize_mask_diverges; [|exact Hn].
    by eapply frame_step_lookup.
  - exists (fst (forward 0 a p)).
    destruct (forward_deep_mask a p m t 0 0 Hmask Hm Hn) as [_ Hok]. split; [exact Hok|].
    intros fuel. by destruct (forward_deep_mask a p m t fuel 0 Hmask Hm Hn) as [-> _].
Qed.

End MaskLoop.

(** ** Splitting into heads and merging them *)

Section HeadLayout.
Context {A : Type}.

Lemma index3_lt (b m n ib im jn : nat) :
  ib < b -> im < m -> jn < n -> S ((ib * m + im) * n + jn) <= b * m * n.
Proof.
  intros Hb Hm Hn.
  assert (S ((ib * m + im) * n + jn) <= (ib * m + S im) * n) by lia.
  assert ((ib * m + S im) * n <= (S ib * m) * n) by (apply Nat.mul_le_mono_r; lia).
  assert (S ib * m * n <= b * m * n) by (do 2 apply Nat.mul_le_mono_r; lia).
  lia.
Qed.

Lemma length_flat_map_seq (f : nat -> list A) (sz n : nat) :
  (forall x, x < n -> length (f x) = sz) -> length (flat_map f (seq 0 n)) = n * sz.
Proof.
  intros Hlen. rewrite <- concat_map_flat_map.
  rewrite (length_concat_uniform sz), length_map, length_seq; [done|].
  apply Forall_fmap, Forall_forall. intros x Hx. apply elem_of_seq in Hx. apply Hlen. lia.
Qed.

Lemma block_flat_map_seq (f : nat -> list A) (sz n i : nat) :
  (forall x, x < n -> length (f x) = sz) -> i < n ->
  block sz i (flat_map f (seq 0 n)) = f i.
Proof.
  intros Hlen Hi. rewrite <- concat_map_flat_map. apply block_concat.
  - apply Forall_fmap, Forall_forall. intros x Hx. apply elem_of_seq in Hx. apply Hlen. lia.
  - rewrite list_lookup_fmap, lookup_seq_lt by done. done.
Qed.

Lemma flat_map_seq_ext (f g : nat -> list A) (n : nat) :
  (forall x, x < n -> f x = g x) -> flat_map f (seq 0 n) = flat_map g (seq 0 n).
Proof.
  intros Hfg. rewrite <- !concat_map_flat_map. f_equal. apply map_ext_in.
  intros x Hx. apply in_seq in Hx. apply Hfg. lia.
Qed.

Lemma flat_map_fmap {B C} (f : B -> C) (g : C -> list A) (l : list B) :
  flat_map g (f <$> l) = flat_map (fun x => g (f x)) l.
Proof. induction l as [|x l IH]; [done|]. simpl. f_equal. apply IH. Qed.

Lemma flat_map_seq_product (g : nat -> list A) (n m : nat) :
  flat_map (fun i => flat_map (fun j => g (i * m + j)) (seq 0 m)) (seq 0 n)
  = flat_map g (seq 0 (n * m)).
Proof.
  induction n as [|n IH]; [done|].
  rewrite seq_S, flat_map_app, IH. simpl. rewrite app_nil_r.
  replace (m + n * m) with (n * m + m) by lia. rewrite seq_app, flat_map_app. f_equal.
  simpl. replace (seq (n * m) m) with (Nat.add (n * m) <$> seq 0 m)
    by (rewrite fmap_add_seq; f_equal; lia).
  by rewrite flat_map_fmap.
Qed.

Lemma flat_map_blocks (sz n : nat) (l : list A) :
  length l = n * sz -> flat_map (fun k => block sz k l) (seq 0 n) = l.
Proof.
  intros Hlen. transitivity (concat (chunks sz n l)); [|by apply concat_chunks].
  rewrite <- concat_map_flat_map. f_equal.
  apply list_eq. intros i. rewrite list_lookup_fmap.
  destruct (decide (i < n)) as [Hi|Hi].
  - rewrite lookup_seq_lt by done. simpl. by rewrite chunks_lookup.
  - rewrite lookup_seq_ge by lia. simpl. symmetry. apply lookup_ge_None.
    rewrite length_chunks. lia.
Qed.

(** The data [t.transpose(2, 1)] has for a tensor of shape b x m x n x d. *)
Definition transposed (b m n d : nat) (l : list A) : list A :=
  flat_map (fun ib =>
    flat_map (fun jn =>
      flat_map (fun im => block d ((ib * m + im) * n + jn) l) (seq 0 m))
             (seq 0 n))
           (seq 0 b).

Lemma transposed_block (b m n d : nat) (l : list A) ib jn im :
  length l = b * m * n * d -> ib < b -> jn < n -> im < m ->
  block d ((ib * n + jn) * m + im) (transposed b m n d l) = block d ((ib * m + im) * n + jn) l.
Proof.
  intros Hlen Hb Hn Hm.
  assert (forall ib' jn' im', ib' < b -> jn' < n -> im' < m ->
            length (block d ((ib' * m + im') * n + jn') l) = d) as Hblk.
  { intros. apply block_length_le. rewrite Hlen.
    apply Nat.mul_le_mono_r. by apply index3_lt. }
  assert (forall ib' jn', ib' < b -> jn' < n ->
            length (flat_map (fun im' => block d ((ib' * m + im') * n + jn') l) (seq 0 m))
            = m * d) as Hrow.
  { intros. apply length_flat_map_seq. intros. by apply Hblk. }
  rewrite <- block_block by done. rewrite <- block_block by done.
  unfold transposed.
  rewrite (block_flat_map_seq _ (n * (m * d)) b ib); [| |done].
  2:{ intros x Hx. apply length_flat_map_seq. intros. by apply Hrow. }
  rewrite (block_flat_map_seq _ (m * d) n jn); [| |done].
  2:{ intros. by apply Hrow. }
  rewrite (block_flat_map_seq _ d m im); [done| |done].
  intros. by apply Hblk.
Qed.

Lemma length_transposed (b m n d : nat) (l : list A) :
  length l = b * m * n * d -> length (transposed b m n d l) = b * n * m * d.
Proof.
  intros Hlen. unfold transposed.
  rewrite (length_flat_map_seq _ (n * (m * d))); [lia|].
  intros ib Hb. apply length_flat_map_seq. intros jn Hn.
  apply length_flat_map_seq. intros im Hm. apply block_length_le. rewrite Hlen.
  apply Nat.mul_le_mono_r. by apply index3_lt.
Qed.

Lemma transposed_involutive (b m n d : nat) (l : list A) :
  length l = b * m * n * d -> transposed b n m d (transposed b m n d l) = l.
Proof.
  intros Hlen. unfold transposed at 1.
  erewrite (flat_map_seq_ext _ (fun ib => flat_map (fun jm =>
              flat_map (fun in_ => block d ((ib * m + jm) * n + in_) l) (seq 0 n)) (seq 0 m)));
    cycle 1.
  { intros ib Hb. apply flat_map_seq_ext. intros jm Hm. apply flat_map_seq_ext. intros i Hi.
    by apply transposed_block. }
  erewrite (flat_map_seq_ext _ (fun ib => flat_map (fun k => block d (ib * (m * n) + k) l)
                                            (seq 0 (m * n)))); cycle 1.
  { intros ib Hb. rewrite <- (flat_map_seq_product (fun k => block d (ib * (m * n) + k) l)).
    apply flat_map_seq_ext. intros jm Hm. apply flat_map_seq_ext. intros i Hi.
    f_equal. lia. }
  rewrite (flat_map_seq_product (fun k => block d k l)).
  apply flat_map_blocks. rewrite Hlen. lia.
Qed.

Lemma transpose_2_1_run (t : Tensor A) b m n d :
  shape t = [b; m; n; d] ->
  transpose_2_1 t = Ok (mkTensor [b; n; m; d] (dtype t) (transposed b m n d (data t))).
Proof.
  intros Hs. unfold transpose_2_1, transposed. rewrite Hs. simpl. rewrite Nat.mul_1_r. done.
Qed.


Lemma view_run (new : list nat) (t : Tensor A) :
  prod_list new = numel t -> view new t = Ok (mkTensor new (dtype t) (data t)).
Proof. intros Hn. unfold view. by rewrite decide_True. Qed.

(** X5. How lines 184-189 (and 199-208) split a projection into heads:
    [layer(x).view(b, l, h, d).transpose(2, 1)] has shape b x h x l x d, and
    its head [j] at position [i] is the [j]-th run of [d] consecutive
    features of row [i] of the projection. *)
Theorem split_heads_layout (y : Tensor A) (b l h d : nat) :
  shape y = [b; l; h * d] -> wf_tensor y ->
  exists t,
    (u <~ view [b; l; h; d] y ;; transpose_2_1 u) = Ok t /\
    shape t = [b; h; l; d] /\ wf_tensor t /\
    forall bi j i, bi < b -> j < h -> i < l ->
      exists row,
        res_bind (select bi y) (select i) = Ok row /\ shape row = [h * d] /\
        res_bind (res_bind (select bi t) (select j)) (select i)
        = Ok (mkTensor [d] (dtype y) (block d j (data row))).
Proof.
  intros Hs Hwf. unfold wf_tensor, numel in Hwf. rewrite Hs in Hwf. simpl in Hwf.
  assert (length (data y) = b * l * h * d) as Hlen by lia.
  rewrite view_run by (unfold numel; rewrite Hs; simpl; lia). simpl.
  rewrite (transpose_2_1_run _ b l h d) by done. simpl.
  eexists. split; [done|]. split; [done|]. split.
  { unfold wf_tensor, numel. simpl. rewrite length_transposed by done. lia. }
  intros bi j i Hb Hh Hl.
  exists (mkTensor [h * d] (dtype y) (block (h * d) (bi * l + i) (data y))).
  split_and!; [|done|].
  - unfold select. rewrite Hs. rewrite decide_True by done. simpl.
    rewrite decide_True by done. simpl. rewrite !Nat.mul_1_r.
    by rewrite block_block.
  - unfold select. simpl. rewrite decide_True by done. simpl.
    rewrite decide_True by done. simpl. rewrite decide_True by done. simpl.
    rewrite !Nat.mul_1_r. do 2 f_equal.
    rewrite (block_block (l * d) h bi j) by done.
    rewrite (block_block d l (bi * h + j) i), (block_block d h (bi * l + i) j) by done.
    by apply transposed_block.
Qed.

(** X6. Merging the heads (lines 333-337) undoes the split: on a tensor of
    shape b x l x (h * d), [view(b, l, h, d).transpose(2, 1)] followed by
    [transpose(2, 1).contiguous().view(b, l, h * d)] gives the tensor back. *)
Theorem merge_heads_inverts_split (y : Tensor A) (b l h d : nat) :
  shape y = [b; l; h * d] -> wf_tensor y ->
  (u <~ view [b; l; h; d] y ;; t <~ transpose_2_1 u ;;
   u' <~ transpose_2_1 t ;; view [b; l; h * d] u') = Ok y.
Proof.
  intros Hs Hwf. unfold wf_tensor, numel in Hwf. rewrite Hs in Hwf. simpl in Hwf.
  assert (length (data y) = b * l * h * d) as Hlen by lia.
  rewrite view_run by (unfold numel; rewrite Hs; simpl; lia). cbn [res_bind].
  rewrite (transpose_2_1_run _ b l h d) by done. cbn [res_bind dtype data].
  rewrite (transpose_2_1_run _ b h l d) by done. cbn [res_bind dtype data].
  rewrite view_run by (unfold numel; simpl; lia). cbn [dtype data].
  rewrite transposed_involutive by done. destruct y. simpl in *. by subst.
Qed.

End HeadLayout.

(** ** The cache and the head split *)

Section CacheLayout.
Context {A : Type}.

(** The head split of lines 184-189 and 199-208 on a projection [y]:
    [y.view(b, l, h, d).transpose(2, 1)]. *)
Definition split_heads (b l h d : nat) (y : Tensor A) : Res (Tensor A) :=
  u <~ view [b; l; h; d] y ;; transpose_2_1 u.

Lemma split_heads_run (y : Tensor A) b l h d :
  shape y = [b; l; h * d] ->
  split_heads b l h d y
  = Ok (mkTensor [b; h; l; d] (dtype y) (transposed b l h d (data y))).
Proof.
  intros Hs. unfold split_heads. rewrite view_run.
  - simpl. by rewrite (transpose_2_1_run _ b l h d).
  - unfold numel. rewrite Hs. simpl. lia.
Qed.

Lemma chunks_blocks (sz n : nat) (l : list A) :
  chunks sz n l = map (fun i => block sz i l) (seq 0 n).
Proof.
  apply list_eq. intros i. rewrite list_lookup_fmap.
  destruct (decide (i < n)) as [Hi|Hi].
  - rewrite lookup_seq_lt by done. simpl. by apply chunks_lookup.
  - rewrite lookup_seq_ge by lia. simpl. apply lookup_ge_None. rewrite length_chunks. lia.
Qed.

(** The data of [torch.cat((t1, t2), dim)] for [outer] leading index values
    and runs of [s1] and [s2] elements. *)
Lemma cat_data (outer s1 s2 : nat) (l1 l2 : list A) :
  concat (zip_with app (chunks s1 outer l1) (chunks s2 outer l2))
  = flat_map (fun i => block s1 i l1 ++ block s2 i l2) (seq 0 outer).
Proof. by rewrite !chunks_blocks, zip_with_app_map, concat_map_flat_map. Qed.

Lemma block_app_l (sz k : nat) (x y : list A) :
  S k * sz <= length x -> block sz k (x ++ y) = block sz k x.
Proof.
  intros Hk. unfold block. rewrite drop_app_le by lia.
  rewrite take_app_le; [done|]. rewrite length_drop. lia.
Qed.

Lemma block_app_r (sz n k : nat) (x y : list A) :
  length x = n * sz -> block sz (n + k) (x ++ y) = block sz k y.
Proof.
  intros Hx. unfold block. rewrite drop_app_ge by lia.
  f_equal. f_equal. lia.
Qed.


Lemma index2_lt (n h i j : nat) : i < n -> j < h -> S (i * h + j) <= n * h.
Proof.
  intros Hi Hj. assert (S i * h <= n * h) by (apply Nat.mul_le_mono_r; lia). lia.
Qed.

Lemma length_block_full (sz n i : nat) (l : list A) :
  length l = n * sz -> i < n -> length (block sz i l) = sz.
Proof.
  intros Hl Hi. apply block_length_le. rewrite Hl. apply Nat.mul_le_mono_r. lia.
Qed.

(** One head of one batch entry of a transposed tensor: its positions in
    order. *)
Lemma transposed_row (b m n d : nat) (l : list A) ib jn :
  length l = b * m * n * d -> ib < b -> jn < n ->
  block (m * d) (ib * n + jn) (transposed b m n d l)
  = flat_map (fun im => block d ((ib * m + im) * n + jn) l) (seq 0 m).
Proof.
  intros Hlen Hb Hn.
  assert (forall ib' jn' im', ib' < b -> jn' < n -> im' < m ->
            length (block d ((ib' * m + im') * n + jn') l) = d) as Hblk.
  { intros. apply block_length_le. rewrite Hlen.
    apply Nat.mul_le_mono_r. by apply index3_lt. }
  assert (forall ib' jn', ib' < b -> jn' < n ->
            length (flat_map (fun im' => block d ((ib' * m + im') * n + jn') l) (seq 0 m))
            = m * d) as Hrow.
  { intros. apply length_flat_map_seq. intros. by apply Hblk. }
  rewrite <- block_block by done. unfold transposed.
  rewrite (block_flat_map_seq _ (n * (m * d)) b ib); [| |done].
  2:{ intros x Hx. apply length_flat_map_seq. intros. by apply Hrow. }
  rewrite (block_flat_map_seq _ (m * d) n jn); [done| |done].
  intros. by apply Hrow.
Qed.

(** A block of the concatenation along the sequence axis is a block of the
    first tensor for the first positions and of the second for the rest. *)
Lemma cat_seq_block (b l1 l2 h d : nat) (d1 d2 : list A) ib j :
  length d1 = b * l1 * h * d -> length d2 = b * l2 * h * d -> ib < b -> j < h ->
  let joined := flat_map (fun ib' => block (l1 * (h * d)) ib' d1 ++ block (l2 * (h * d)) ib' d2)
                  (seq 0 b) in
  (forall i, i < l1 ->
     block d ((ib * (l1 + l2) + i) * h + j) joined = block d ((ib * l1 + i) * h + j) d1) /\
  (forall i, i < l2 ->
     block d ((ib * (l1 + l2) + (l1 + i)) * h + j) joined
     = block d ((ib * l2 + i) * h + j) d2).
Proof.
  intros H1 H2 Hb Hj joined.
  assert (forall ib', ib' < b -> length (block (l1 * (h * d)) ib' d1) = l1 * (h * d)) as Hx.
  { intros. apply (length_block_full _ b); [lia|done]. }
  assert (forall ib', ib' < b -> length (block (l2 * (h * d)) ib' d2) = l2 * (h * d)) as Hy.
  { intros. apply (length_block_full _ b); [lia|done]. }
  assert (block ((l1 + l2) * h * d) ib joined
          = block (l1 * (h * d)) ib d1 ++ block (l2 * (h * d)) ib d2) as Hrow.
  { unfold joined. rewrite (block_flat_map_seq _ ((l1 + l2) * h * d) b ib); [done| |done].
    intros x Hx'. rewrite length_app, Hx, Hy by done. lia. }
  split; intros i Hi.
  - replace ((ib * (l1 + l2) + i) * h + j) with (ib * ((l1 + l2) * h) + (i * h + j)) by lia.
    rewrite <- block_block by (apply index2_lt; lia). rewrite Hrow.
    rewrite block_app_l; cycle 1.
    { rewrite Hx by done. replace (l1 * (h * d)) with (l1 * h * d) by lia.
      apply Nat.mul_le_mono_r. by apply index2_lt. }
    replace (l1 * (h * d)) with (l1 * h * d) by lia.
    rewrite block_block by (by apply index2_lt). f_equal. lia.
  - replace ((ib * (l1 + l2) + (l1 + i)) * h + j)
      with (ib * ((l1 + l2) * h) + (l1 * h + (i * h + j))) by lia.
    rewrite <- block_block; cycle 1.
    { pose proof (index2_lt l2 h i j Hi Hj). lia. }
    rewrite Hrow. rewrite block_app_r by (rewrite Hx by done; lia).
    replace (l2 * (h * d)) with (l2 * h * d) by lia.
    rewrite block_block by (by apply index2_lt). f_equal. lia.
Qed.

Lemma cat_transposed (b l1 l2 h d : nat) (d1 d2 : list A) :
  length d1 = b * l1 * h * d -> length d2 = b * l2 * h * d ->
  flat_map (fun k => block (l1 * d) k (transposed b l1 h d d1)
                     ++ block (l2 * d) k (transposed b l2 h d d2)) (seq 0 (b * h))
  = transposed b (l1 + l2) h d
      (flat_map (fun ib => block (l1 * (h * d)) ib d1 ++ block (l2 * (h * d)) ib d2)
         (seq 0 b)).
Proof.
  intros H1 H2.
  rewrite <- (flat_map_seq_product
                (fun k => block (l1 * d) k (transposed b l1 h d d1)
                          ++ block (l2 * d) k (transposed b l2 h d d2))).
  unfold transposed at 3.
  apply flat_map_seq_ext. intros ib Hb. apply flat_map_seq_ext. intros j Hj.
  rewrite !transposed_row by done.
  destruct (cat_seq_block b l1 l2 h d d1 d2 ib j H1 H2 Hb Hj) as [Hl Hr].
  rewrite seq_app, flat_map_app. f_equal.
  - apply flat_map_seq_ext. intros i Hi. symmetry. by apply Hl.
  - simpl. replace (seq l1 l2) with (Nat.add l1 <$> seq 0 l2)
      by (rewrite fmap_add_seq; f_equal; lia).
    rewrite flat_map_fmap. apply flat_map_seq_ext. intros i Hi. symmetry. by apply Hr.
Qed.

(** The head split of two projections, joined along axis 2, is the head
    split of the projections joined along axis 1. *)
Lemma cat_split_heads (y1 y2 : Tensor A) (b l1 l2 h d : nat) :
  shape y1 = [b; l1; h * d] -> wf_tensor y1 ->
  shape y2 = [b; l2; h * d] -> wf_tensor y2 ->
  (t1 <~ split_heads b l1 h d y1 ;; t2 <~ split_heads b l2 h d y2 ;; cat 2 t1 t2)
  = (y <~ cat 1 y1 y2 ;; split_heads b (l1 + l2) h d y).
Proof.
  unfold split_heads.
  intros Hs1 Hwf1 Hs2 Hwf2.
  unfold wf_tensor, numel in Hwf1, Hwf2. rewrite Hs1 in Hwf1. rewrite Hs2 in Hwf2.
  simpl in Hwf1, Hwf2.
  assert (length (data y1) = b * l1 * h * d) as Hl1 by lia.
  assert (length (data y2) = b * l2 * h * d) as Hl2 by lia.
  rewrite !view_run by (unfold numel; rewrite ?Hs1, ?Hs2; simpl; lia). cbn [res_bind].
  rewrite (transpose_2_1_run _ b l1 h d), (transpose_2_1_run _ b l2 h d) by done.
  cbn [res_bind dtype data].
  unfold cat. rewrite Hs1, Hs2. cbn [shape lookup list_lookup take drop].
  rewrite !decide_True by done. cbn [res_bind].
  rewrite view_run by (unfold numel; simpl; lia). cbn [res_bind].
  rewrite (transpose_2_1_run _ b (l1 + l2) h d) by done. cbn [dtype data app].
  do 2 f_equal. simpl prod_list. rewrite !Nat.mul_1_r.
  rewrite !cat_data. by rewrite cat_transposed.
Qed.

(** X24. Concatenating cached keys with new keys along axis 2 (line 254)
    gives the keys of the concatenated sequence.  For projections [y1] and
    [y2] of [l1] and [l2] positions, the head split (lines 199-208) of [y1]
    followed by the head split of [y2] along axis 2 succeeds, and is the
    tensor obtained by joining [y1] and [y2] along the sequence axis and
    splitting the result into heads; it has shape b x h x (l1 + l2) x d and
    one element per index. *)
Theorem cache_concat_matches_split (y1 y2 : Tensor A) (b l1 l2 h d : nat) :
  shape y1 = [b; l1; h * d] -> wf_tensor y1 ->
  shape y2 = [b; l2; h * d] -> wf_tensor y2 ->
  exists t,
    (t1 <~ split_heads b l1 h d y1 ;; t2 <~ split_heads b l2 h d y2 ;; cat 2 t1 t2)
    = Ok t /\
    (y <~ cat 1 y1 y2 ;; split_heads b (l1 + l2) h d y) = Ok t /\
    shape t = [b; h; l1 + l2; d] /\ wf_tensor t.
Proof.
  intros Hs1 Hwf1 Hs2 Hwf2.
  rewrite (cat_split_heads y1 y2 b l1 l2 h d) by done.
  assert (exists y, cat 1 y1 y2 = Ok y /\ shape y = [b; l1 + l2; h * d] /\ wf_tensor y)
    as (y & -> & Hsy & Hwy).
  { unfold cat. rewrite Hs1, Hs2. cbn [shape lookup list_lookup take drop].
    rewrite decide_True by done. eexists. split; [done|]. split; [done|].
    unfold wf_tensor, numel in *. rewrite Hs1 in Hwf1. rewrite Hs2 in Hwf2.
    simpl in Hwf1, Hwf2. simpl. rewrite !Nat.mul_1_r.
    assert (length (data y1) = b * (l1 * (h * d))) as Hl1 by lia.
    assert (length (data y2) = b * (l2 * (h * d))) as Hl2 by lia.
    rewrite cat_data. rewrite (length_flat_map_seq _ ((l1 + l2) * (h * d))); [lia|].
    intros i Hi. rewrite length_app.
    rewrite (length_block_full _ b i (data y1)), (length_block_full _ b i (data y2)) by done.
    lia. }
  simpl. rewrite (split_heads_run _ _ _ _ _ Hsy).
  eexists. split; [done|]. split; [done|]. split; [done|].
  unfold wf_tensor, numel in *. rewrite Hsy in Hwy. simpl in *.
  rewrite length_transposed; lia.
Qed.

End CacheLayout.

Section CacheContents.
Context {A : Type} `{!Torch A}.
Import MultiHeadAttention.

(** Without a position encoder, the keys the projections leave are the head
    split of the key projection of [k]. *)
Lemma project_qkv_keys (a : Args) b ql kl q0 (p0 p1 : Proc) queries keys values
  (tkin : Tensor A) :
  position_encoder (self p0) = None ->
  is_self a || bool_decide (past_key_value_state a = None) = true ->
  heap (world p0) !! k a = Some tkin ->
  project_qkv a b ql kl q0 p0 = (Ok (queries, keys, values), p1) ->
  exists k0 v0 yk tk0,
    keys = Some k0 /\ values = Some v0 /\
    nn_Linear_call (key (self p0)) tkin = Ok yk /\
    split_heads b kl (kvheads (self p0)) (emb_kq_per_head (self p0)) yk = Ok tk0 /\
    heap (world p1) !! k0 = Some tk0.
Proof.
  intros Hpe Hcond Hk Hrun. unfold project_qkv in Hrun.
  inv_bind Hrun p_ s Hg. inv_leaf Hg. rewrite Hcond, Hpe in Hrun.
  destruct (decide (device (self p0) = hpu)) as [Hdev|Hdev].
  - inv_bind Hrun q1 s1 Hq1. apply tensor_op_inv in Hq1 as (_ & _ & _ & _ & _ & Hf1 & Hs1).
    inv_bind Hrun ka s2 Hka.
    apply tensor_op_inv in Hka as (t & rk & Ht & Hfk & Hlk & Hf2 & Hs2).
    assert (t = tkin) as -> by (eapply lookup_frame_eq; [exact Hf1|exact Hk|exact Ht]).
    destruct (nn_Linear_call (key (self p0)) tkin) as [yk| |] eqn:Ey; try done.
    simpl in Hfk.
    inv_bind Hrun va s3 Hva. pose proof (framed_project _ _ _ _ _ _ Hva) as Hf3.
    inv_bind Hrun kb s4 Hkb.
    apply tensor_op_inv in Hkb as (tk & rkb & Hlk' & Htr & Hlkb & Hf4 & Hs4).
    assert (tk = rk) as -> by (eapply lookup_frame_eq; [exact Hf3|exact Hlk|exact Hlk']).
    inv_bind Hrun vb s5 Hvb. pose proof (framed_tensor_op _ _ _ _ _ Hvb) as Hf5.
    inv_leaf Hrun. injection Hrun as <- <- <-.
    exists kb, vb, yk, rkb. split_and!; try done.
    + unfold split_heads. by rewrite Hfk.
    + by eapply frame_step_lookup.
  - inv_bind Hrun qkv s1 Hqkv. destruct qkv as [[q1 k1] v1].
    inv_bind Hqkv ka s2 Hka.
    apply tensor_op_inv in Hka as (t & rk & Ht & Hfk & Hlk & Hf2 & Hs2).
    rewrite Hk in Ht. injection Ht as <-.
    destruct (nn_Linear_call (key (self p0)) tkin) as [yk| |] eqn:Ey; try done.
    simpl in Hfk.
    inv_bind Hqkv va s3 Hva. pose proof (framed_project _ _ _ _ _ _ Hva) as Hf3.
    inv_leaf Hqkv. injection Hqkv as <- <- <-.
    inv_bind Hrun q2 s4 H4. pose proof (framed_tensor_op _ _ _ _ _ H4) as Hf4.
    inv_bind Hrun k2 s5 H5. inv_leaf H5.
    inv_bind Hrun k3 s5 H6.
    apply tensor_op_inv in H6 as (tk & rk3 & Hltk & Htr & Hlk3 & Hf5 & _).
    assert (tk = rk) as ->.
    { eapply lookup_frame_eq; [|exact Hlk|exact Hltk]. by eapply frame_step_trans. }
    inv_bind Hrun v2 s6 H7. inv_leaf H7.
    inv_bind Hrun v3 s6 H8. pose proof (framed_tensor_op _ _ _ _ _ H8) as Hf6.
    inv_leaf Hrun. injection Hrun as <- <- <-.
    exists k3, v3, yk, rk3. split_and!; try done.
    + unfold split_heads. by rewrite Hfk.
    + by eapply frame_step_lookup.
Qed.

(** A caching call without position encoder that projects keys: the keys
    before the merge, and the merge. *)
Lemma forward_keys_content fuel (a : Args) (p p' : Proc) out kv :
  position_encoder (self p) = None ->
  is_self a || bool_decide (past_key_value_state a = None) = true ->
  use_cache a = true ->
  forward fuel a p = (Ok (out, kv), p') ->
  exists tq b ql x tkin kl yk tk0 k0 v0 p1 keys' values' p2,
    heap (world p) !! q a = Some tq /\ shape tq = [b; ql; x] /\
    heap (world p) !! k a = Some tkin /\ size_dim tkin 1 = Ok kl /\
    nn_Linear_call (key (self p)) tkin = Ok yk /\
    split_heads b kl (kvheads (self p)) (emb_kq_per_head (self p)) yk = Ok tk0 /\
    frame_step p p1 /\ heap (world p1) !! k0 = Some tk0 /\
    merge_cache a (Some k0) (Some v0) p1 = (Ok (Some keys', Some values'), p2) /\
    frame_step p2 p' /\ kv = Some (keys', values').
Proof.
  intros Hpe Hcond Hcache Hrun.
  apply forward_inv_ok in Hrun
    as (tq & b & ql & x & tk & kl & q0 & p0 & qs & keys & values & p1 & keys' & values'
        & p2 & Hq & Hsq & Hk & Hkl & Hq0 & Hqkv & Hm & Hf2 & Hkv & _).
  pose proof (framed_project _ _ _ _ _ _ Hq0) as Hf0.
  pose proof (framed_project_qkv _ _ _ _ _ _ _ _ Hqkv) as Hf1.
  apply project_shape in Hq0 as (_ & _ & _ & _ & Hs0).
  eapply project_qkv_keys in Hqkv
    as (k0 & v0 & yk & tk0 & -> & -> & Hy & Hsp & Hk0);
    [|by rewrite Hs0|done|by eapply frame_step_lookup].
  rewrite Hs0 in Hy, Hsp.
  destruct (Hkv Hcache) as (kl' & vl' & -> & -> & ->).
  exists tq, b, ql, x, tk, kl, yk, tk0, k0, v0, p1, kl', vl', p2.
  split_and!; try done. by eapply frame_step_trans.
Qed.

End CacheContents.

Section CacheAgreement.
Context {A : Type} `{!Torch A}.
Import MultiHeadAttention.

Lemma forward_same_module fuel (a : Args) (p p' : Proc) r :
  position_encoder (self p) = None ->
  forward fuel a p = (r, p') -> self p' = self p.
Proof.
  intros Hpe Hrun.
  assert (stable (fun o' _ => o' = self p) (forward fuel a)) as Hst.
  { apply stable_forward.
    - intros. apply stable_project_qkv_same. by right.
    - intros q0 k0 v0 m0 s r0 s' Hr Hs. unfold holds in *.
      destruct (attend_run _ _ _ _ _ _ _ _ Hr) as (-> & _). done. }
  exact (Hst _ _ _ Hrun eq_refl).
Qed.

(** X25. Decoding with the cache agrees with recomputation (lines 199-208
    and 248-258, no position encoder).  A caching self-attention call on
    keys [tk1], then a second one on keys [tk2] that is handed the cache the
    first returned, returns as cached keys the same tensor as one caching
    call on [tk1] followed by [tk2] along the sequence axis, provided the
    key projection treats these inputs position by position (its output on
    the joined input is its outputs joined, with [kvheads * emb_kq_per_head]
    features per position), and batch, first length, [kvheads] and
    [emb_kq_per_head] are positive. *)
Theorem cached_keys_match_recomputation fuel (a1 a2 a3 : Args) (p p1 p2 p3 p4 : Proc)
  out1 c1 out2 c2 out3 c3 (tq1 tq2 tq3 tk1 tk2 tk12 : Tensor A)
  (b n1 n2 n3 e1 e2 e3 e l1 l2 : nat) :
  position_encoder (self p) = None -> self p3 = self p ->
  is_self a1 = true -> use_cache a1 = true -> past_key_value_state a1 = None ->
  is_self a2 = true -> use_cache a2 = true -> past_key_value_state a2 = c1 ->
  is_self a3 = true -> use_cache a3 = true -> past_key_value_state a3 = None ->
  heap (world p) !! q a1 = Some tq1 -> shape tq1 = [b; n1; e1] ->
  heap (world p) !! k a1 = Some tk1 -> shape tk1 = [b; l1; e] ->
  heap (world p1) !! q a2 = Some tq2 -> shape tq2 = [b; n2; e2] ->
  heap (world p1) !! k a2 = Some tk2 -> shape tk2 = [b; l2; e] ->
  heap (world p3) !! q a3 = Some tq3 -> shape tq3 = [b; n3; e3] ->
  heap (world p3) !! k a3 = Some tk12 -> cat 1 tk1 tk2 = Ok tk12 ->
  0 < b -> 0 < l1 -> 0 < kvheads (self p) -> 0 < emb_kq_per_head (self p) ->
  (forall y1 y2,
     nn_Linear_call (key (self p)) tk1 = Ok y1 ->
     nn_Linear_call (key (self p)) tk2 = Ok y2 ->
     shape y1 = [b; l1; kvheads (self p) * emb_kq_per_head (self p)] /\ wf_tensor y1 /\
     shape y2 = [b; l2; kvheads (self p) * emb_kq_per_head (self p)] /\ wf_tensor y2 /\
     nn_Linear_call (key (self p)) tk12 = cat 1 y1 y2) ->
  forward fuel a1 p = (Ok (out1, c1), p1) ->
  forward fuel a2 p1 = (Ok (out2, c2), p2) ->
  forward fuel a3 p3 = (Ok (out3, c3), p4) ->
  exists k2 v2 k3 v3 t,
    c2 = Some (k2, v2) /\ c3 = Some (k3, v3) /\
    heap (world p2) !! k2 = Some t /\ heap (world p4) !! k3 = Some t.
Proof.
  intros Hpe Hself3 Hs1 Hu1 Hp1 Hs2 Hu2 Hp2 Hs3 Hu3 Hp3
    Hq1 Hsq1 Hk1 Hsk1 Hq2 Hsq2 Hk2 Hsk2 Hq3 Hsq3 Hk3 Hcat Hb Hl1 Hh Hd Hlin R1 R2 R3.
  set (h := kvheads (self p)) in *. set (d := emb_kq_per_head (self p)) in *.
  pose proof (forward_same_module _ _ _ _ _ Hpe R1) as Hself1.
  (* first call *)
  apply forward_keys_content in R1
    as (tq & b1 & ql & x & tkin & kl & y1 & t1 & k0 & v0 & s1 & ks1 & vs1 & s2
        & Hq & Hsq & Hk & Hkl & Hy1 & Hsp1 & Hf1 & Hlk1 & Hm1 & Hf2 & ->);
    [|done|by rewrite Hs1|done].
  rewrite Hq1 in Hq. injection Hq as <-. rewrite Hsq1 in Hsq. injection Hsq as <- <- <-.
  rewrite Hk1 in Hk. injection Hk as <-.
  unfold size_dim in Hkl. rewrite Hsk1 in Hkl. simpl in Hkl. injection Hkl as <-.
  unfold merge_cache in Hm1. rewrite Hp1 in Hm1. injection Hm1 as <- <- <-.
  (* second call *)
  apply forward_keys_content in R2
    as (tq & b2 & ql2 & x2 & tkin & kl & y2 & t2 & k02 & v02 & s3 & ks2 & vs2 & s4
        & Hq & Hsq & Hk & Hkl & Hy2 & Hsp2 & Hf3 & Hlk2 & Hm2 & Hf4 & ->);
    [|by rewrite Hself1|by rewrite Hs2|done].
  rewrite Hq2 in Hq. injection Hq as <-. rewrite Hsq2 in Hsq. injection Hsq as <- <- <-.
  rewrite Hk2 in Hk. injection Hk as <-.
  unfold size_dim in Hkl. rewrite Hsk2 in Hkl. simpl in Hkl. injection Hkl as <-.
  rewrite Hself1 in Hy2, Hsp2. fold h d in Hsp1, Hsp2.
  destruct (Hlin _ _ Hy1 Hy2) as (Hsy1 & Hw1 & Hsy2 & Hw2 & Hy12).
  rewrite (split_heads_run _ _ _ _ _ Hsy1) in Hsp1. injection Hsp1 as <-.
  assert (heap (world s3) !! k0
          = Some (mkTensor [b; h; l1; d] (dtype y1) (transposed b l1 h d (data y1)))) as Hpk.
  { eapply frame_step_lookup; [exact Hf3|]. by eapply frame_step_lookup. }
  eapply merge_cache_self in Hm2
    as (k0' & v0' & tk0 & tv0 & tpv & tk & tv & [= <-] & _ & Hlk0 & _ & _ & Hcat2 & _
        & [= ->] & _ & Hs4); [|done|done|done|exact Hpk|].
  2:{ unfold numel. simpl. nia. }
  rewrite Hlk2 in Hlk0. injection Hlk0 as <-.
  (* third call *)
  apply forward_keys_content in R3
    as (tq & b3 & ql3 & x3 & tkin & kl & y3 & t3 & k03 & v03 & s5 & ks3 & vs3 & s6
        & Hq & Hsq & Hk & Hkl & Hy3 & Hsp3 & Hf5 & Hlk3 & Hm3 & Hf6 & ->);
    [|by rewrite Hself3|by rewrite Hs3|done].
  rewrite Hq3 in Hq. injection Hq as <-. rewrite Hsq3 in Hsq. injection Hsq as <- <- <-.
  rewrite Hk3 in Hk. injection Hk as <-.
  rewrite Hself3 in Hy3, Hsp3. fold h d in Hsp3.
  unfold merge_cache in Hm3. rewrite Hp3 in Hm3. injection Hm3 as <- <- <-.
  exists (length (heap (world s3))), vs2, k03, v03, tk. split_and!; try done.
  - eapply frame_step_lookup; [exact Hf4|]. rewrite Hs4.
    apply lookup_push_old. apply lookup_push_new.
  - eapply frame_step_lookup; [exact Hf6|]. etrans; [exact Hlk3|]. f_equal.
    pose proof (cat_split_heads y1 y2 b l1 l2 h d Hsy1 Hw1 Hsy2 Hw2) as Heq.
    rewrite (split_heads_run _ _ _ _ _ Hsy1), Hsp2 in Heq. simpl in Heq.
    rewrite Hcat2 in Heq. rewrite Hy12 in Hy3.
    rewrite Hy3 in Heq. simpl in Heq.
    assert (kl = l1 + l2) as ->.
    { unfold cat in Hcat. rewrite Hsk1, Hsk2 in Hcat. simpl in Hcat.
      repeat case_decide; simplify_eq. unfold size_dim in Hkl. simpl in Hkl. by simplify_eq. }
    congruence.
Qed.

End CacheAgreement.

(** ** The parallel wrapper's forward and the process *)

Section ParallelForward.
Context {A : Type} `{!Torch A} `{!Collective A}.
Import MultiHeadAttention.

Lemma framed_forward_par fuel a : framed (TPMultiHeadAttention.forward_par fuel a).
Proof.
  unfold TPMultiHeadAttention.forward_par.
  repeat (apply framed_bind; [apply framed_tensor_op|intros ?]).
  apply framed_forward.
Qed.

(** X22. The tensor-parallel [forward], whatever the collective does and
    however the call ends, changes the contents of no tensor object that
    existed before the call and no attribute of the instance but the rotary
    tables.  When the local call raises, the exception is passed on and the
    reduction is not entered. *)
Theorem tp_forward_frame fuel (a : Args) (p p' : Proc) r :
  TPMultiHeadAttention.forward fuel a p = (r, p') ->
  (forall l t, heap (world p) !! l = Some t -> heap (world p') !! l = Some t) /\
  (exists rot, self p' = set_rotary rot (self p)) /\
  (forall e p1, TPMultiHeadAttention.forward_par fuel a p = (Raise e, p1) ->
     r = Raise e /\ p' = p1) /\
  (forall out kv, r = Ok (out, kv) ->
     length (heap (world p)) <= out < length (heap (world p')) /\
     (use_cache a = false -> kv = None)).
Proof.
  intros Hrun.
  assert (framed (TPMultiHeadAttention.forward fuel a)) as Hfr.
  { unfold TPMultiHeadAttention.forward.
    apply framed_bind; [apply framed_forward_par|intros ?].
    destruct (use_cache a);
      (apply framed_bind; [apply framed_tensor_op|intros ?; apply framed_ret]). }
  pose proof (Hfr _ _ _ Hrun) as Hstep.
  split; [intros l t; by apply frame_step_lookup|]. split; [by destruct Hstep|]. split.
  - intros e p1 Hpar. unfold TPMultiHeadAttention.forward in Hrun.
    erewrite bind_raise in Hrun by exact Hpar. by injection Hrun as <- <-.
  - intros out kv ->. unfold TPMultiHeadAttention.forward in Hrun.
    inv_bind Hrun out_par p1 Hpar.
    pose proof (framed_forward_par _ _ _ _ _ Hpar) as Hf1.
    apply frame_step_length in Hf1.
    destruct (use_cache a).
    + inv_bind Hrun o p2 Hred. apply tensor_op_inv_ok in Hred as (? & ? & _ & _ & -> & ->).
      inv_leaf Hrun. injection Hrun as <- <-.
      rewrite heap_push, length_app. simpl. split; [lia|done].
    + inv_bind Hrun o p2 Hred. apply tensor_op_inv_ok in Hred as (? & ? & _ & _ & -> & ->).
      inv_leaf Hrun. injection Hrun as <- <-.
      rewrite heap_push, length_app. simpl. split; [lia|done].
Qed.

End ParallelForward.

(** * Concrete runs *)

Module Runs.
Import MultiHeadAttention IntTorch.

(** Rotary tables for 4 positions and one frequency. *)
Definition rotary0 : GaudiRotaryEmbedding.obj Z :=
  snd (GaudiRotaryEmbedding._set_cos_sin_cache 4 float32
         (GaudiRotaryEmbedding.mkRotary 1 2 4 10000 (mkTensor [1] float32 [1%Z]) 0
            (mkTensor [0] float32 []) (mkTensor [0] float32 []))).

(** A module of embedding size 4 with heads of size 2. *)
Definition module0 (dev : Device) (pe : option (PositionEncoder Z)) (nh kvh : nat) : obj Z :=
  mkMHA nh kvh 4 2 2 0 false
    (fst (new_linear 4 (nh * 2) false 0)) (fst (new_linear 4 (kvh * 2) false 1))
    (fst (new_linear 4 (kvh * 2) false 2)) (fst (new_linear (nh * 2) 4 false 3))
    None pe true true true rotary0 true dev None.

Definition x1 : Tensor Z := mkTensor [1; 2; 4] float32 [1; 2; 3; 4; 5; 6; 7; 8]%Z.
Definition x2 : Tensor Z := mkTensor [1; 1; 4] float32 [1; 0; 1; 0]%Z.

(** A process holding the two inputs [x1] (at 0) and [x2] (at 1). *)
Definition proc0 (o : obj Z) : Proc :=
  mkProc o (mkWorld [x1; x2] 7 (mkSdpFlags true true true) float32 true).

(** First call: self-attention on [x1], caching, no cache yet. *)
Definition call1 : Args := mkArgs 0 0 0 None None None None true true false.
(** Second call on [x2], handed the cache [c]. *)
Definition call2 (self_attn : bool) (c : option (loc * loc)) : Args :=
  mkArgs 1 1 1 None None None c true self_attn false.

(** The same two calls with an empty batch. *)
Definition e1 : Tensor Z := mkTensor [0; 1; 4] float32 [].
Definition e2 : Tensor Z := mkTensor [0; 2; 4] float32 [].

End Runs.

Section RunFacts.
Import MultiHeadAttention IntTorch Runs.

(** C5 at 6 query heads on 4 workers: the first assertion fails. *)
Lemma tp_init_raises_iff_witness :
  ~ divisibility_invariant 6 2 4 /\
  exists e,
    fst (TPMultiHeadAttention.__init__ 16 2 2 6 2 None false None (mkGroup 0 4) world0)
    = Raise e /\ head_count_error e.
Proof.
  assert (~ divisibility_invariant 6 2 4) as Hn.
  { intros [[k Hk] _]. lia. }
  split; [done|].
  destruct (tp_init_raises_iff (A:=Z) 16 2 2 6 2 None false None (mkGroup 0 4) world0
              eq_refl ltac:(simpl; lia) ltac:(lia) ltac:(lia) I) as [Hiff _].
  by apply Hiff.
Defined.

(** C4 at 8 query heads and 4 KV heads on 4 workers. *)
Lemma tp_local_heads_sum_witness :
  divisibility_invariant 8 4 4 /\
  sum_list (local_nheads
              (group_init 16 2 2 8 4 None false None 4 (replicate 4 world0))) = 8 /\
  sum_list (local_kvheads
              (group_init 16 2 2 8 4 None false None 4 (replicate 4 world0))) = 4.
Proof.
  assert (divisibility_invariant 8 4 4) as Hinv.
  { split; [by exists 2|left; by exists 1]. }
  split; [done|].
  destruct (tp_local_heads_sum (A:=Z) 16 2 2 8 4 None false None 4 (replicate 4 world0)
              ltac:(lia) ltac:(lia) I Hinv eq_refl
              ltac:(repeat constructor)) as (_ & Hn & Hk).
  split; [exact Hn|exact Hk].
Defined.

(** C4 as stated fails at 4 query heads and 2 KV heads on 4 workers: the
    invariant holds, every worker constructs the wrapper with one KV head,
    and the local KV head counts sum to 4, not to 2. *)
Lemma tp_kvheads_sum_counterexample :
  divisibility_invariant 4 2 4 /\
  Forall (fun r => is_ok r = true)
    (group_init 16 2 2 4 2 None false None 4 (replicate 4 world0)) /\
  sum_list (local_kvheads
              (group_init 16 2 2 4 2 None false None 4 (replicate 4 world0))) = 4 /\
  4 <> 2.
Proof.
  split; [split; [by exists 1|right; by exists 2]|].
  split; [repeat constructor|]. split; [reflexivity|lia].
Qed.

(** Keys and values of one batch entry with two KV heads. *)
Definition kv_keys : Tensor Z := mkTensor [1; 2; 1; 1] float32 [10; 20]%Z.
Definition kv_values : Tensor Z := mkTensor [1; 2; 1; 1] float32 [30; 40]%Z.
Definition proc_kv (o : obj Z) : Proc :=
  mkProc o (mkWorld [kv_keys; kv_values] 7 (mkSdpFlags true true true) float32 true).

(** The expansion at nheads = 8, kvheads = 2: expanded heads 0..3 are KV
    head 0 and expanded heads 4..7 are KV head 1. *)
Lemma expand_heads_repeats_run :
  exists keys_e values_e p' tke tve,
    expand_heads (Some 0) (Some 1) (proc_kv (module0 cpu None 8 2))
      = (Ok (keys_e, values_e), p') /\
    heap (world p') !! keys_e = Some tke /\
    heap (world p') !! values_e = Some tve /\
    shape tke = [1; 8; 1; 1] /\
    forall j, j < 8 ->
      res_bind (select 0 tke) (select j) = res_bind (select 0 kv_keys) (select (j / 4)) /\
      res_bind (select 0 tve) (select j) = res_bind (select 0 kv_values) (select (j / 4)).
Proof.
  destruct (expand_heads_repeats (A:=Z) (proc_kv (module0 cpu None 8 2)) 0 1 kv_keys kv_values
              1 2 1 1 1 ltac:(simpl; lia) ltac:(simpl; lia) eq_refl eq_refl
              eq_refl eq_refl eq_refl eq_refl)
    as (keys_e & values_e & p' & tke & tve & Hrun & Hk & Hv & Hsk & _ & Hheads).
  exists keys_e, values_e, p', tke, tve.
  split; [exact Hrun|]. split; [exact Hk|]. split; [exact Hv|]. split; [exact Hsk|].
  intros j Hj. apply (Hheads 0 j); [lia|exact Hj].
Defined.

(** A mask of the documented shape batch x q_len x kv_len. *)
Definition mask3 : Tensor Z := mkTensor [1; 2; 2] float32 [0; 1; 1; 0]%Z.
(** A mask of five dimensions. *)
Definition mask5 : Tensor Z := mkTensor [1; 1; 1; 2; 2] float32 [0; 1; 1; 0]%Z.
Definition proc_mask (m : Tensor Z) : Proc :=
  mkProc (module0 cpu None 2 1)
    (mkWorld [m] 7 (mkSdpFlags true true true) float32 true).

(** The loop on a three-dimensional mask: one iteration. *)
Lemma normalize_mask_spec_witness :
  exists m' p' t',
    normalize_mask 1 0 (proc_mask mask3) = (Ok m', p') /\
    heap (world p') !! m' = Some t' /\
    shape t' = [1; 1; 2; 2] /\ data t' = data mask3 /\
    broadcastable_to (shape t') [1; 2; 2; 2].
Proof.
  destruct (normalize_mask_spec (A:=Z) (proc_mask mask3) 0 mask3 1 eq_refl
              ltac:(vm_compute; lia) ltac:(vm_compute; lia))
    as (m' & p' & t' & Hrun & Hl & _ & Hsh & Hd & _ & _ & _ & Hb).
  exists m', p', t'. split; [exact Hrun|]. split; [exact Hl|].
  split; [exact Hsh|]. split; [exact Hd|]. exact (Hb 1 2 2 2 eq_refl).
Defined.

(** The loop on a mask of five dimensions: whatever the number of
    iterations allowed, it has not produced a mask. *)
Lemma normalize_mask_counterexample :
  ~ exists fuel m' p', normalize_mask fuel 0 (proc_mask mask5) = (Ok m', p').
Proof.
  intros (fuel & m' & p' & Hrun).
  pose proof (normalize_mask_diverges (A:=Z) fuel (proc_mask mask5) 0 mask5 eq_refl
                ltac:(vm_compute; lia)) as Hd.
  rewrite Hrun in Hd. discriminate.
Qed.

(** C1 off the fused path: after a first cross-attention call on the CPU
    has filled the cache (objects 6 and 7), the second call, handed that
    cache, raises instead of returning it. *)
Lemma cross_attention_cached_witness :
  fst (forward 4 (mkArgs 0 0 0 None None None None true false false)
         (proc0 (module0 cpu None 2 1)))
    = Ok (12, Some (6, 7)) /\
  fst (forward 4 (call2 false (Some (6, 7)))
         (snd (forward 4 (mkArgs 0 0 0 None None None None true false false)
                 (proc0 (module0 cpu None 2 1)))))
    = Raise (UnboundLocalError "keys") /\
  is_ok (fst (forward 4 (call2 false (Some (6, 7)))
                (snd (forward 4 (mkArgs 0 0 0 None None None None true false false)
                        (proc0 (module0 cpu None 2 1))))))
    = false.
Proof.
  split; [vm_compute; reflexivity|]. split; [vm_compute; reflexivity|].
  eapply (cross_attention_cached_never_returns (A:=Z) 4 (call2 false (Some (6, 7))) _ _
            (6, 7)); [ |reflexivity|reflexivity|apply surjective_pairing].
  vm_compute. discriminate.
Defined.

Lemma int_rope_keeps_shape : rope_keeps_shape (A:=Z).
Proof. intros x c s ids y. simpl. by intros [= <-]. Qed.

(** The process after the first self-attention call on [x1]: the cache is
    in objects 6 and 7, two positions long. *)
Definition proc1 : Proc :=
  Eval vm_compute in snd (forward 4 call1 (proc0 (module0 cpu None 2 1))).
(** The process after the second call, on [x2], handed that cache. *)
Definition proc2 : Proc :=
  Eval vm_compute in snd (forward 4 (call2 true (Some (6, 7))) proc1).

Lemma call1_run :
  forward 4 call1 (proc0 (module0 cpu None 2 1)) = (Ok (12, Some (6, 7)), proc1).
Proof. vm_compute; reflexivity. Qed.

Lemma call2_run :
  forward 4 (call2 true (Some (6, 7))) proc1 = (Ok (25, Some (19, 20)), proc2).
Proof. vm_compute; reflexivity. Qed.




(** C10 on the second call: the two cache tensors handed in are unchanged,
    and the cache returned is made of objects that did not exist before. *)
Lemma forward_keeps_prior_cache_witness :
  heap (world proc1) !! 6 = Some (mkTensor [1; 1; 2; 2] float32 [9; 13; 25; 33]%Z) /\
  heap (world proc1) !! 7 = Some (mkTensor [1; 1; 2; 2] float32 [13; 8; 33; 20]%Z) /\
  heap (world proc2) !! 6 = Some (mkTensor [1; 1; 2; 2] float32 [9; 13; 25; 33]%Z) /\
  heap (world proc2) !! 7 = Some (mkTensor [1; 1; 2; 2] float32 [13; 8; 33; 20]%Z) /\
  exists keys values,
    Some (19, 20) = Some (keys, values) /\
    length (heap (world proc1)) <= keys /\ length (heap (world proc1)) <= values /\
    keys <> 6 /\ values <> 7.
Proof.
  destruct (forward_keeps_prior_cache (A:=Z) 4 (call2 true (Some (6, 7))) proc1 proc2
              (Ok (25, Some (19, 20))) 6 7
              (mkTensor [1; 1; 2; 2] float32 [9; 13; 25; 33]%Z)
              (mkTensor [1; 1; 2; 2] float32 [13; 8; 33; 20]%Z)
              eq_refl eq_refl eq_refl eq_refl eq_refl
              ltac:(vm_compute; lia) call2_run)
    as (Hk & Hv & Hfresh).
  destruct (Hfresh 25 (Some (19, 20)) eq_refl)
    as (keys & values & tk0 & tv0 & tk & tv & Hkv & Hlk & Hlv & Hnk & Hnv & _).
  split; [reflexivity|]. split; [reflexivity|].
  split; [exact Hk|]. split; [exact Hv|].
  exists keys, values. split; [exact Hkv|]. split; [exact Hlk|].
  split; [exact Hlv|]. split; [exact Hnk|exact Hnv].
Defined.

(** A checkpoint with the four projection weights and one more entry. *)
Definition weights_extra : gmap string (Tensor Z) :=
  list_to_map [("query.weight", x1); ("key.weight", x1); ("value.weight", x1);
               ("dense.weight", x1); ("foo.weight", x2)].
(** A checkpoint of four entries in which [foo.weight] stands where
    [dense.weight] should. *)
Definition weights_swapped : gmap string (Tensor Z) :=
  list_to_map [("query.weight", x1); ("key.weight", x1); ("value.weight", x1);
               ("foo.weight", x2)].

(** C6 on [weights_extra]: the error lists exactly [foo.weight], and the
    module is as it was. *)
Lemma load_weights_unused_witness :
  TPMultiHeadAttention.load_weights weights_extra (module0 cpu None 2 1)
  = (Raise (AttributeError {["foo.weight"]}), module0 cpu None 2 1).
Proof.
  assert (TPMultiHeadAttention.grab_weights (use_bias (module0 cpu None 2 1)) weights_extra
          = Ok ((x1, x1, x1, x1), None,
                list_to_set ["dense.weight"; "value.weight"; "key.weight"; "query.weight"]))
    as Hg by (vm_compute; reflexivity).
  assert (exists k : string,
            k ∈ dom weights_extra /\
            k ∉ (list_to_set ["dense.weight"; "value.weight"; "key.weight"; "query.weight"]
                   : gset string)) as Hex.
  { exists "foo.weight". split; apply (bool_decide_unpack _); vm_compute; exact I. }
  destruct (load_weights_unused (A:=Z) weights_extra (module0 cpu None 2 1) _ _ _ Hg Hex)
    as [Hrun _].
  rewrite Hrun. vm_compute. reflexivity.
Defined.

(** C6 as stated fails on [weights_swapped]: the mapping holds an entry that
    is no recognized parameter, it has no more than four entries, and the
    error raised is not the unused-weights error. *)
Lemma load_weights_counterexample :
  "foo.weight" ∈ dom weights_swapped /\
  ~ recognized false "foo.weight" /\
  fst (TPMultiHeadAttention.load_weights weights_swapped (module0 cpu None 2 1))
  = Raise (ValueError "Weight not found").
Proof.
  split; [apply (bool_decide_unpack _); vm_compute; exact I|].
  split; [|by vm_compute].
  intros Hr. apply (bool_decide_pack _) in Hr. by vm_compute in Hr.
Qed.

(** Two workers, each handed [x1] in its own process. *)
Definition workers2 : list (Proc * Args) :=
  [(proc0 (module0 cpu None 2 1), call1); (proc0 (module0 cpu None 2 1), call1)].
(** A worker's process after the local call. *)
Definition proc_par : Proc :=
  Eval vm_compute in
    snd (TPMultiHeadAttention.forward_par 4 call1 (proc0 (module0 cpu None 2 1))).
Definition results2 : list (Res (loc * option (loc * loc)) * Proc) :=
  Eval vm_compute in
    match TPMultiHeadAttention.group_forward 4 workers2 with
    | Ok rs => rs
    | _ => []
    end.

(** C9 on two workers: worker 0 returns the sum of the two local outputs
    and its own cache, objects 9 and 10 of its process. *)
Lemma tp_forward_reduces_output_witness :
  TPMultiHeadAttention.group_forward 4 workers2 = Ok results2 /\
  TPMultiHeadAttention.forward_par 4 call1 (proc0 (module0 cpu None 2 1))
    = (Ok (15, Some (9, 10)), proc_par) /\
  exists contributed own,
    Forall2 (fun w t => TPMultiHeadAttention.contribution 4 w = Ok t) workers2 contributed /\
    heap (world proc_par) !! 15 = Some own /\ contributed !! 0 = Some own /\
    results2 !! 0 =
      Some (match TPMultiHeadAttention.all_reduce_sum contributed with
            | Ok total => (Ok (length (heap (world proc_par)), Some (9, 10)),
                           push total proc_par)
            | Raise e => (Raise e, proc_par)
            | OutOfFuel => (OutOfFuel, proc_par)
            end).
Proof.
  assert (TPMultiHeadAttention.group_forward 4 workers2 = Ok results2) as Hg
    by (vm_compute; reflexivity).
  assert (TPMultiHeadAttention.forward_par 4 call1 (proc0 (module0 cpu None 2 1))
          = (Ok (15, Some (9, 10)), proc_par)) as Hp by (vm_compute; reflexivity).
  split; [exact Hg|]. split; [exact Hp|].
  destruct (tp_forward_reduces_output (A:=Z) 4 workers2 results2 0
              (proc0 (module0 cpu None 2 1)) proc_par call1 15 (Some (9, 10))
              Hg eq_refl Hp)
    as (contributed & own & Hall & Hown & Hc & Hres & _).
  exists contributed, own. split; [exact Hall|]. split; [exact Hown|].
  split; [exact Hc|exact Hres].
Defined.

End RunFacts.

(** * Further concrete runs *)

Module MoreRuns.
Import MultiHeadAttention IntTorch Runs.

(** A rotary embedding of dimension 4 with the two frequencies 1 and 3,
    before its tables are generated. *)
Definition rotary_blank : GaudiRotaryEmbedding.obj Z :=
  GaudiRotaryEmbedding.mkRotary 1 4 4 10000 (mkTensor [2] float32 [1; 3]%Z) 0
    (mkTensor [0] float32 []) (mkTensor [0] float32 []).
Definition rotary_two : GaudiRotaryEmbedding.obj Z :=
  Eval vm_compute in snd (GaudiRotaryEmbedding._set_cos_sin_cache 4 float32 rotary_blank).

(** A [sharded_copy] that checks the shape of what it is given. *)
Definition checked_copy : TPModule Z := {|
  sharded_copy := fun _ param tval _ _ _ =>
    if decide (shape param = shape tval) then Ok tval
    else Raise (RuntimeError "shape mismatch")
|}.

(** A wrapper on one worker, and a checkpoint whose query weight fits and
    whose key weight does not. *)
Definition module_tp : obj Z :=
  TPMultiHeadAttention.setup_tp 2 1 0 1 (module0 cpu None 2 1).
Definition query_new : Tensor Z := mkTensor [4; 4] float32 (replicate 16 5%Z).
Definition weights_misfit : gmap string (Tensor Z) :=
  list_to_map [("query.weight", query_new); ("key.weight", x1); ("value.weight", x1);
               ("dense.weight", x1)].

(** A process whose first tensor object is two-dimensional. *)
Definition proc_flat : Proc :=
  mkProc (module0 cpu None 2 1)
    (mkWorld [mkTensor [2; 4] float32 [1; 2; 3; 4; 5; 6; 7; 8]%Z; x1] 7
       (mkSdpFlags true true true) float32 true).

(** Cross-attention on [x1], caching, no cache yet. *)
Definition cross1 : Args := mkArgs 0 0 0 None None None None true false false.
(** The process after that call on the fused path: the cache is in objects
    6 and 7. *)
Definition proc_h1 : Proc :=
  Eval vm_compute in snd (forward 4 cross1 (proc0 (module0 hpu None 2 1))).
Definition proc_h2 : Proc :=
  Eval vm_compute in snd (forward 4 (call2 false (Some (6, 7))) proc_h1).
(** The second call handed the cache without [use_cache]. *)
Definition call_stale (self_attn : bool) : Args :=
  mkArgs 1 1 1 None None None (Some (6, 7)) false self_attn false.

(** A process whose kernel switches differ from the ones recorded on the
    instance, and a call that names an algorithm. *)
Definition proc_sw : Proc :=
  mkProc (module0 cpu None 2 1)
    (mkWorld [x1; x2] 7 (mkSdpFlags false true true) float32 true).
Definition call_math : Args := mkArgs 0 0 0 None None (Some "math") None false true false.
Definition proc_sw1 : Proc := Eval vm_compute in snd (forward 4 call_math proc_sw).

(** An input of five positions, on the fused path with a position encoder;
    the rotary tables of the instance cover four. *)
Definition x5 : Tensor Z := mkTensor [1; 5; 4] float32 (map Z.of_nat (seq 1 20)).
Definition proc_rot : Proc :=
  mkProc (module0 hpu (Some identity_encoder) 2 1)
    (mkWorld [x5] 7 (mkSdpFlags true true true) float32 true).
Definition proc_rot1 : Proc := Eval vm_compute in snd (forward 4 call1 proc_rot).

(** A group of one worker: the reduction hands back the worker's tensor. *)
Definition lone_worker : Collective Z := {|
  reduce_from_tensor_model_parallel_region := fun t => Ok t
|}.
Definition proc_lone : Proc :=
  Eval vm_compute in
    snd (@TPMultiHeadAttention.forward Z _ lone_worker 4 call1
           (proc0 (module0 cpu None 2 1))).

End MoreRuns.

Section MoreRunFacts.
Import MultiHeadAttention IntTorch Runs MoreRuns.

(** X2 on [rotary_blank] for 4 positions: row 2 holds the cosines of
    2 * 1 and 2 * 3 twice, and rows are 4 wide. *)
Lemma rotary_table_entries_witness :
  shape (GaudiRotaryEmbedding._cos_cached rotary_two) = [4; 4] /\
  data (GaudiRotaryEmbedding._cos_cached rotary_two) !! 9 = Some (sc_cos 6%Z) /\
  data (GaudiRotaryEmbedding._cos_cached rotary_two) !! 11 = Some (sc_cos 6%Z) /\
  data (GaudiRotaryEmbedding._sin_cached rotary_two) !! 9 = Some (sc_sin 6%Z) /\
  data (GaudiRotaryEmbedding._sin_cached rotary_two) !! 11 = Some (sc_sin 6%Z).
Proof.
  assert (GaudiRotaryEmbedding._set_cos_sin_cache 4 float32 rotary_blank
          = (Ok tt, rotary_two)) as Hrun by (vm_compute; reflexivity).
  destruct (rotary_table_entries (A:=Z) rotary_blank rotary_two 4 float32 2 1 3%Z
              Hrun ltac:(lia) eq_refl)
    as (Hs & _ & H1 & H2 & H3 & H4).
  split; [exact Hs|]. split; [exact H1|]. split; [exact H2|]. split; [exact H3|exact H4].
Defined.

(** X4 on a two-dimensional [q]. *)
Lemma forward_rejects_bad_rank_witness :
  exists msg,
    forward 4 (mkArgs 0 1 1 None None None None false true false) proc_flat
    = (Raise (ValueError msg), proc_flat).
Proof.
  destruct (forward_rejects_bad_rank (A:=Z) 4
              (mkArgs 0 1 1 None None None None false true false) proc_flat
              (mkTensor [2; 4] float32 [1; 2; 3; 4; 5; 6; 7; 8]%Z) x1 eq_refl eq_refl)
    as [H _].
  apply H. vm_compute. lia.
Defined.

(** X5 on [x1], one batch entry of two positions, split into two heads of
    size 2: head 1 at position 0 is the features 3, 4 of row 0. *)
Lemma split_heads_layout_witness :
  exists t,
    (u <~ view [1; 2; 2; 2] x1 ;; transpose_2_1 u) = Ok t /\
    shape t = [1; 2; 2; 2] /\
    res_bind (res_bind (select 0 t) (select 1)) (select 0)
    = Ok (mkTensor [2] float32 [3; 4]%Z).
Proof.
  destruct (split_heads_layout x1 1 2 2 2 eq_refl eq_refl) as (t & Hrun & Hs & _ & Hh).
  exists t. split; [exact Hrun|]. split; [exact Hs|].
  destruct (Hh 0 1 0 ltac:(lia) ltac:(lia) ltac:(lia)) as (row & Hrow & _ & Hhead).
  injection Hrow as <-. exact Hhead.
Defined.

(** X6 on [x1]. *)
Lemma merge_heads_inverts_split_witness :
  (u <~ view [1; 2; 2; 2] x1 ;; t <~ transpose_2_1 u ;;
   u' <~ transpose_2_1 t ;; view [1; 2; 4] u') = Ok x1.
Proof. exact (merge_heads_inverts_split x1 1 2 2 2 eq_refl eq_refl). Defined.

(** X7 on the first call on [x1], on an instance of two query heads and one
    KV head: the cache has one head and two positions. *)
Lemma first_call_cache_shape_witness :
  forward 4 call1 (proc0 (module0 cpu None 2 1)) = (Ok (12, Some (6, 7)), proc1) /\
  exists keys values tkeys tvalues,
    Some (6, 7) = Some (keys, values) /\
    heap (world proc1) !! keys = Some tkeys /\ heap (world proc1) !! values = Some tvalues /\
    shape tkeys = [1; 1; 2; 2] /\ shape tvalues = [1; 1; 2; 2].
Proof.
  split; [exact call1_run|].
  exact (first_call_cache_shape (A:=Z) 4 call1 (proc0 (module0 cpu None 2 1)) proc1
           12 (Some (6, 7)) x1 x1 1 2 4 2 int_rope_keeps_shape I eq_refl eq_refl
           eq_refl eq_refl eq_refl eq_refl call1_run).
Defined.

(** X8 on the first call. *)
Lemma forward_is_self_irrelevant_witness :
  forward 4 (with_is_self false call1) (proc0 (module0 cpu None 2 1))
  = forward 4 call1 (proc0 (module0 cpu None 2 1)).
Proof. exact (forward_is_self_irrelevant (A:=Z) 4 call1 false _ eq_refl). Defined.

(** X9 on the second self-attention call, handed the cache of the first
    without [use_cache]. *)
Lemma forward_ignores_unused_cache_witness :
  forward 4 (without_cache (call_stale true)) proc1 = forward 4 (call_stale true) proc1.
Proof.
  exact (forward_ignores_unused_cache (A:=Z) 4 (call_stale true) proc1 eq_refl eq_refl eq_refl).
Defined.

Lemma cross1_hpu_run :
  forward 4 cross1 (proc0 (module0 hpu None 2 1)) = (Ok (12, Some (6, 7)), proc_h1).
Proof. vm_compute; reflexivity. Qed.

Lemma cross2_hpu_run :
  forward 4 (call2 false (Some (6, 7))) proc_h1 = (Ok (19, Some (6, 7)), proc_h2).
Proof. vm_compute; reflexivity. Qed.

(** X10 on the fused path: the second cross-attention call returns the
    cache of the first, objects 6 and 7, unchanged. *)
Lemma cross_attention_cached_hpu_witness :
  forward 4 cross1 (proc0 (module0 hpu None 2 1)) = (Ok (12, Some (6, 7)), proc_h1) /\
  forward 4 (call2 false (Some (6, 7))) proc_h1 = (Ok (19, Some (6, 7)), proc_h2) /\
  heap (world proc_h2) !! 6 = Some (mkTensor [1; 1; 2; 2] float32 [9; 13; 25; 33]%Z) /\
  heap (world proc_h2) !! 7 = Some (mkTensor [1; 1; 2; 2] float32 [13; 8; 33; 20]%Z).
Proof.
  split; [exact cross1_hpu_run|]. split; [exact cross2_hpu_run|].
  assert (0 < numel (mkTensor [1; 1; 2; 2] float32 [9; 13; 25; 33]%Z)) as Hnum
    by (vm_compute; lia).
  destruct (cross_attention_cached_hpu (A:=Z) 4 (call2 false (Some (6, 7))) proc_h1 proc_h2
              19 (Some (6, 7)) 6 7
              (mkTensor [1; 1; 2; 2] float32 [9; 13; 25; 33]%Z)
              (mkTensor [1; 1; 2; 2] float32 [13; 8; 33; 20]%Z)
              eq_refl eq_refl eq_refl eq_refl eq_refl eq_refl Hnum cross2_hpu_run)
    as (_ & Hk & Hv).
  split; [exact Hk|exact Hv].
Defined.

(** X11 on the fused path: the same second call without [use_cache] raises. *)
Lemma cross_attention_unused_cache_hpu_witness :
  fst (forward 4 (call_stale false) proc_h1) = Raise (UnboundLocalError "keys") /\
  is_ok (fst (forward 4 (call_stale false) proc_h1)) = false.
Proof.
  split; [vm_compute; reflexivity|].
  eapply (cross_attention_unused_cache_hpu (A:=Z) 4 (call_stale false) proc_h1 _ _ 6 7
            (mkTensor [1; 1; 2; 2] float32 [9; 13; 25; 33]%Z)
            eq_refl eq_refl eq_refl eq_refl (or_introl eq_refl)).
  apply surjective_pairing.
Defined.

(** X12 on an instance of two query heads and no KV head. *)
Lemma forward_kvheads_zero_witness :
  fst (forward 4 call1 (proc0 (module0 cpu None 2 0))) = Raise ZeroDivisionError /\
  is_ok (fst (forward 4 call1 (proc0 (module0 cpu None 2 0)))) = false.
Proof.
  split; [vm_compute; reflexivity|].
  eapply (forward_kvheads_zero (A:=Z) 4 call1 (proc0 (module0 cpu None 2 0)) _ _ eq_refl).
  apply surjective_pairing.
Defined.

Lemma call_math_run : forward 4 call_math proc_sw = (Ok (12, None), proc_sw1).
Proof. vm_compute; reflexivity. Qed.

(** X13 on a process that had the flash kernel switched off after the
    instance was constructed: the call with [attn_algorithm="math"] leaves
    the recorded switches, flash on. *)
Lemma forward_kernel_switches_witness :
  forward 4 call_math proc_sw = (Ok (12, None), proc_sw1) /\
  backends (world proc_sw) = mkSdpFlags false true true /\
  backends (world proc_sw1) = mkSdpFlags true true true.
Proof.
  split; [exact call_math_run|]. split; [reflexivity|].
  destruct (forward_kernel_switches (A:=Z) 4 call_math proc_sw proc_sw1 _ call_math_run)
    as [_ H].
  assert (device (self proc_sw) <> hpu) as Hdev by (vm_compute; discriminate).
  destruct (H Hdev eq_refl) as [Hok _].
  exact (Hok eq_refl).
Defined.

(** X14 on the second self-attention call: the input [x1] and the instance
    are as before, and the output is a new object. *)
Lemma forward_leaves_module_witness :
  forward 4 (call2 true (Some (6, 7))) proc1 = (Ok (25, Some (19, 20)), proc2) /\
  heap (world proc2) !! 0 = Some x1 /\ self proc2 = self proc1 /\
  length (heap (world proc1)) <= 25 < length (heap (world proc2)).
Proof.
  split; [exact call2_run|].
  destruct (forward_leaves_module (A:=Z) 4 (call2 true (Some (6, 7))) proc1 proc2 _ call2_run)
    as (Hheap & _ & Hself & Hout).
  split; [exact (Hheap 0 x1 eq_refl)|]. split; [apply Hself; left; vm_compute; discriminate|].
  exact (proj1 (Hout 25 (Some (19, 20)) eq_refl)).
Defined.

Lemma call_rot_run : forward 4 call1 proc_rot = (Ok (17, Some (12, 6)), proc_rot1).
Proof. vm_compute; reflexivity. Qed.

(** X15 on five positions, with tables that cover four: after the call they
    cover five. *)
Lemma forward_grows_rotary_cache_witness :
  forward 4 call1 proc_rot = (Ok (17, Some (12, 6)), proc_rot1) /\
  GaudiRotaryEmbedding.max_seq_len_cached (rotary_emb (self proc_rot)) = 4 /\
  GaudiRotaryEmbedding.max_seq_len_cached (rotary_emb (self proc_rot1)) = 5.
Proof.
  split; [exact call_rot_run|]. split; [reflexivity|].
  exact (forward_grows_rotary_cache (A:=Z) 4 call1 proc_rot proc_rot1 17 (Some (12, 6))
           identity_encoder x5 5 eq_refl eq_refl (or_introl eq_refl) eq_refl eq_refl
           call_rot_run).
Defined.

(** X17 at 8 query heads and 4 KV heads on 2 workers: 4 and 2 locally, the
    expansion factor 2 as before. *)
Lemma tp_init_head_grouping_witness :
  exists o w',
    TPMultiHeadAttention.__init__ 16 2 2 8 4 None false None (mkGroup 1 2) world0
    = (Ok o, w') /\
    Nat.divide (kvheads o) (nheads o) /\ nheads o / kvheads o = 8 / 4.
Proof.
  destruct (tp_init_head_grouping (A:=Z) 16 2 2 8 4 None false None (mkGroup 1 2) world0
              eq_refl ltac:(simpl; lia) ltac:(lia) ltac:(lia) I
              (conj (ex_intro _ 4 eq_refl) (or_introl (ex_intro _ 2 eq_refl)))
              (ex_intro _ 2 eq_refl))
    as (o & w' & Hrun & _ & _ & Hd & He & _).
  exists o, w'. split; [exact Hrun|]. split; [exact Hd|]. apply He. simpl. lia.
Defined.

(** X18 at embedding size 16 and 8 heads on 2 workers: the rotary dimension
    of a worker is 4, twice the 2 of the unsharded module. *)
Lemma tp_init_rotary_dimension_witness :
  exists o w',
    TPMultiHeadAttention.__init__ 16 2 2 8 4 None false None (mkGroup 1 2) world0
    = (Ok o, w') /\
    GaudiRotaryEmbedding.dim (rotary_emb o) = 2 * (16 / 8).
Proof.
  destruct (tp_init_rotary_dimension (A:=Z) 16 2 2 8 4 None false None (mkGroup 1 2) world0
              eq_refl ltac:(simpl; lia) ltac:(lia) ltac:(lia) I
              (conj (ex_intro _ 4 eq_refl) (or_introl (ex_intro _ 2 eq_refl))))
    as (o & w' & Hrun & _ & _ & Hd).
  exists o, w'. split; [exact Hrun|]. apply Hd. by exists 2.
Defined.

(** X19 on an instance of 4 query heads and 2 KV heads, on 2 workers. *)
Lemma to_tp_fresh_sharded_module_witness :
  exists o g,
    TPMultiHeadAttention.to_tp (module0 cpu None 4 2) (mkGroup 1 2) world0
    = (Ok o, set_rng g world0) /\
    nheads o = 2 /\ kvheads o = 1 /\ tp o = Some (mkTPAttrs 4 2 1 2) /\
    query o = fst (new_linear 4 4 false 0).
Proof.
  assert (0 <= p_dropout (module0 cpu None 4 2))%Q as Hp0 by (vm_compute; discriminate).
  assert (p_dropout (module0 cpu None 4 2) <= 1)%Q as Hp1 by (vm_compute; discriminate).
  destruct (to_tp_fresh_sharded_module (A:=Z) (module0 cpu None 4 2) (mkGroup 1 2) world0
              eq_refl ltac:(simpl; lia) ltac:(simpl; lia) ltac:(simpl; lia) Hp0 Hp1
              (conj (ex_intro _ 2 eq_refl) (or_introl (ex_intro _ 1 eq_refl))))
    as (o & q & k & v & d & g & Hrun & Hd & Hq & _ & _ & _ & Hn & Hk & _ & _ & _ & _ & _ & _ & Ht).
  exists o, g. split; [exact Hrun|]. split; [exact Hn|]. split; [exact Hk|].
  split; [exact Ht|]. rewrite Hq. by injection Hd as <- _ _ _ _.
Defined.

(** X20 on [weights_misfit]: the query weight has been replaced when the
    copy into the key weight raises. *)
Lemma load_weights_partial_update_witness :
  @TPMultiHeadAttention.load_weights Z checked_copy weights_misfit module_tp
  = (Raise (RuntimeError "shape mismatch"),
     TPMultiHeadAttention.set_query (mkLinear query_new None) module_tp).
Proof.
  assert (TPMultiHeadAttention.grab_weights (use_bias module_tp) weights_misfit
          = Ok ((query_new, x1, x1, x1), None,
                list_to_set ["dense.weight"; "value.weight"; "key.weight"; "query.weight"]))
    as Hg by (vm_compute; reflexivity).
  assert (size weights_misfit <= (if use_bias module_tp then 8 else 4)) as Hsz
    by (vm_compute; lia).
  exact (@load_weights_partial_update Z checked_copy weights_misfit module_tp
           (mkTPAttrs 2 1 0 1) query_new x1 x1 x1 None _
           query_new (RuntimeError "shape mismatch")
           eq_refl Hg Hsz eq_refl eq_refl).
Defined.

Lemma lone_worker_run :
  @TPMultiHeadAttention.forward Z _ lone_worker 4 call1 (proc0 (module0 cpu None 2 1))
  = (Ok (16, Some (9, 10)), proc_lone).
Proof. vm_compute; reflexivity. Qed.

(** X22 on a group of one worker. *)
Lemma tp_forward_frame_witness :
  @TPMultiHeadAttention.forward Z _ lone_worker 4 call1 (proc0 (module0 cpu None 2 1))
  = (Ok (16, Some (9, 10)), proc_lone) /\
  heap (world proc_lone) !! 0 = Some x1 /\
  length (heap (world (proc0 (module0 cpu None 2 1)))) <= 16 < length (heap (world proc_lone)).
Proof.
  split; [exact lone_worker_run|].
  destruct (@tp_forward_frame Z _ lone_worker 4 call1 (proc0 (module0 cpu None 2 1))
              proc_lone _ lone_worker_run) as (Hheap & _ & _ & Hout).
  split; [exact (Hheap 0 x1 eq_refl)|]. exact (proj1 (Hout 16 (Some (9, 10)) eq_refl)).
Defined.

End MoreRunFacts.

Module ResetRuns.
Import MultiHeadAttention IntTorch Runs.

(** An initialiser that fills a tensor with the state of the generator. *)
Definition int_init : TorchInit Z := {|
  trunc_normal_ := fun t _ _ g =>
    (mkTensor (shape t) (dtype t) (map (fun _ => Z.of_nat g) (data t)), S g)
|}.

(** The module of [module0] with bias terms. *)
Definition module_bias : obj Z :=
  mkMHA 2 1 4 2 2 0 true
    (fst (new_linear 4 4 true 0)) (fst (new_linear 4 2 true 1))
    (fst (new_linear 4 2 true 2)) (fst (new_linear 4 4 true 3))
    None None true true true rotary0 true cpu None.

End ResetRuns.

Section ResetRunFacts.
Import MultiHeadAttention IntTorch Runs ResetRuns.

(** X23 on [module_bias], with the generator at 7: the weights are filled
    with 7, 8, 9 and 10 in the order query, key, value, dense, the biases are
    zero, and the tensor objects of the process are as before. *)
Lemma reset_parameters_effect_witness :
  exists p',
    @TPMultiHeadAttention.reset_parameters Z _ int_init (proc0 module_bias) = (Ok tt, p') /\
    data (weight (query (self p'))) = replicate 16 7%Z /\
    data (weight (key (self p'))) = replicate 8 8%Z /\
    data (weight (value (self p'))) = replicate 8 9%Z /\
    data (weight (dense (self p'))) = replicate 16 10%Z /\
    bias (query (self p')) = Some (mkTensor [4] float32 [0; 0; 0; 0]%Z) /\
    heap (world p') = [x1; x2].
Proof.
  assert (biases_present module_bias) as Hb.
  { intros _. split_and!; by eexists. }
  destruct (@reset_parameters_effect Z _ int_init (proc0 module_bias) Hb)
    as (q' & k' & v' & d' & g1 & g2 & g3 & g4 & E1 & E2 & E3 & E4 & Hrun & _).
  eexists. split; [exact Hrun|].
  vm_compute in E1. injection E1 as <- <-.
  vm_compute in E2. injection E2 as <- <-.
  vm_compute in E3. injection E3 as <- <-.
  vm_compute in E4. injection E4 as <- <-.
  split_and!; reflexivity.
Defined.

End ResetRunFacts.

(** * Runs with the cache *)

Section CacheRunFacts.
Import MultiHeadAttention IntTorch Runs.

(** X24 on [x1] (two positions) and [x2] (one position), two heads of
    size 2: in both orders, head 0 is 1 2, 5 6, 1 0 and head 1 is 3 4, 7 8,
    1 0. *)
Lemma cache_concat_matches_split_witness :
  (exists t,
     (t1 <~ split_heads 1 2 2 2 x1 ;; t2 <~ split_heads 1 1 2 2 x2 ;; cat 2 t1 t2) = Ok t /\
     (y <~ cat 1 x1 x2 ;; split_heads 1 (2 + 1) 2 2 y) = Ok t /\
     shape t = [1; 2; 2 + 1; 2] /\ wf_tensor t) /\
  (y <~ cat 1 x1 x2 ;; split_heads 1 (2 + 1) 2 2 y)
  = Ok (mkTensor [1; 2; 3; 2] float32 [1; 2; 5; 6; 1; 0; 3; 4; 7; 8; 1; 0]%Z).
Proof.
  split; [|vm_compute; reflexivity].
  exact (cache_concat_matches_split x1 x2 1 2 1 2 2 eq_refl eq_refl eq_refl eq_refl).
Defined.

End CacheRunFacts.

Module WholeRuns.
Import MultiHeadAttention IntTorch Runs.

(** [x1] followed by [x2] along the sequence axis, as one input. *)
Definition x12 : Tensor Z :=
  mkTensor [1; 3; 4] float32 [1; 2; 3; 4; 5; 6; 7; 8; 1; 0; 1; 0]%Z.
Definition proc_whole : Proc :=
  mkProc (module0 cpu None 2 1) (mkWorld [x12] 7 (mkSdpFlags true true true) float32 true).
Definition proc_whole1 : Proc := Eval vm_compute in snd (forward 4 call1 proc_whole).

End WholeRuns.

Section WholeRunFacts.
Import MultiHeadAttention IntTorch Runs WholeRuns.

Lemma whole_run : forward 4 call1 proc_whole = (Ok (11, Some (5, 6)), proc_whole1).
Proof. vm_compute; reflexivity. Qed.

(** X25 on the two calls above and one call on [x12]: the keys the second
    call returns (object 19) and the keys of the single call (object 5) hold
    the same tensor. *)
Lemma cached_keys_match_recomputation_witness :
  forward 4 call1 (proc0 (module0 cpu None 2 1)) = (Ok (12, Some (6, 7)), proc1) /\
  forward 4 (call2 true (Some (6, 7))) proc1 = (Ok (25, Some (19, 20)), proc2) /\
  forward 4 call1 proc_whole = (Ok (11, Some (5, 6)), proc_whole1) /\
  exists k2 v2 k3 v3 t,
    Some (19, 20) = Some (k2, v2) /\ Some (5, 6) = Some (k3, v3) /\
    heap (world proc2) !! k2 = Some t /\ heap (world proc_whole1) !! k3 = Some t.
Proof.
  split; [exact call1_run|]. split; [exact call2_run|]. split; [exact whole_run|].
  assert (forall y1 y2 : Tensor Z,
     nn_Linear_call (key (self (proc0 (module0 cpu None 2 1)))) x1 = Ok y1 ->
     nn_Linear_call (key (self (proc0 (module0 cpu None 2 1)))) x2 = Ok y2 ->
     shape y1 = [1; 2; kvheads (self (proc0 (module0 cpu None 2 1)))
                       * emb_kq_per_head (self (proc0 (module0 cpu None 2 1)))] /\
     wf_tensor y1 /\
     shape y2 = [1; 1; kvheads (self (proc0 (module0 cpu None 2 1)))
                       * emb_kq_per_head (self (proc0 (module0 cpu None 2 1)))] /\
     wf_tensor y2 /\
     nn_Linear_call (key (self (proc0 (module0 cpu None 2 1)))) x12 = cat 1 y1 y2) as Hlin.
  { intros y1 y2 H1 H2. vm_compute in H1, H2.
    injection H1 as <-. injection H2 as <-. vm_compute. done. }
  exact (cached_keys_match_recomputation (A:=Z) 4 call1 (call2 true (Some (6, 7))) call1
           (proc0 (module0 cpu None 2 1)) proc1 proc2 proc_whole proc_whole1
           12 (Some (6, 7)) 25 (Some (19, 20)) 11 (Some (5, 6))
           x1 x2 x12 x1 x2 x12 1 2 1 3 4 4 4 4 2 1
           eq_refl eq_refl eq_refl eq_refl eq_refl eq_refl eq_refl eq_refl eq_refl eq_refl
           eq_refl eq_refl eq_refl eq_refl eq_refl eq_refl eq_refl eq_refl eq_refl eq_refl
           eq_refl eq_refl eq_refl (le_n 1) (Nat.lt_0_succ 1) (le_n 1) (Nat.lt_0_succ 1)
           Hlin call1_run call2_run whole_run).
Defined.

End WholeRunFacts.

(** * Runs of the rotary cache *)

Module RotaryRuns.
Import IntTorch Runs.


End RotaryRuns.

Section RotaryRunFacts.
Import GaudiRotaryEmbedding IntTorch Runs RotaryRuns.



End RotaryRunFacts.

(** * Runs through the kernel call and the mask loop *)

Module KernelRuns.
Import MultiHeadAttention IntTorch Runs.

(** A process holding the input [x1] (at 0) and the five-dimensional mask
    (at 1), and a self-attention call on [x1] under that mask. *)
Definition proc_mask5 : Proc :=
  mkProc (module0 cpu None 2 1)
    (mkWorld [x1; mask5] 7 (mkSdpFlags true true true) float32 true).
Definition call_mask5 : Args := mkArgs 0 0 0 (Some 1) None None None false true false.

(** The process after a first caching call on [x1] of a module with 8 query
    heads and 2 KV heads. *)
Definition proc_gqa1 : Proc :=
  Eval vm_compute in snd (forward 4 call1 (proc0 (module0 cpu None 8 2))).

End KernelRuns.

Section KernelRunFacts.
Import MultiHeadAttention IntTorch Runs KernelRuns.

(** C8 on a mask of shape 1 x 1 x 1 x 2 x 2: the projections succeed, and
    the call does not end, whatever the number of iterations allowed. *)
Lemma forward_mask_loop_never_ends_witness :
  heap (world proc_mask5) !! 1 = Some mask5 /\ 4 < ndim mask5 /\
  forall fuel, fst (forward fuel call_mask5 proc_mask5) = OutOfFuel.
Proof.
  assert (heap (world proc_mask5) !! 1 = Some mask5) as Hm by reflexivity.
  assert (4 < ndim mask5) as Hn by (vm_compute; lia).
  split; [exact Hm|]. split; [exact Hn|].
  destruct (forward_mask_loop_never_ends (A:=Z) call_mask5 proc_mask5 1 mask5 eq_refl Hm Hn)
    as (_ & r & _ & Hall).
  intros fuel. rewrite Hall, <- (Hall 0). vm_compute. reflexivity.
Defined.

Lemma call_gqa_run :
  forward 4 call1 (proc0 (module0 cpu None 8 2)) = (Ok (12, Some (6, 7)), proc_gqa1).
Proof. vm_compute; reflexivity. Qed.

(** C3 at nheads = 8, kvheads = 2, on a first caching call on [x1]: the
    kernel is handed keys and values of 8 heads, of which heads 0..3 are KV
    head 0 and heads 4..7 are KV head 1 of the keys and values the call
    returns (objects 6 and 7). *)
Lemma forward_gqa_expansion_witness :
  exists keys_e values_e (tk tv tke tve : Tensor Z),
    heap (world proc_gqa1) !! 6 = Some tk /\ heap (world proc_gqa1) !! 7 = Some tv /\
    heap (world proc_gqa1) !! keys_e = Some tke /\
    heap (world proc_gqa1) !! values_e = Some tve /\
    shape tk = [1; 2; 2; 2] /\ shape tke = [1; 8; 2; 2] /\
    heads_repeated 4 tk tke /\ heads_repeated 4 tv tve.
Proof.
  assert (0 < kvheads (self (proc0 (module0 cpu None 8 2)))) as Hkv by (vm_compute; lia).
  assert (kvheads (self (proc0 (module0 cpu None 8 2)))
          < nheads (self (proc0 (module0 cpu None 8 2)))) as Hnh by (vm_compute; lia).
  assert (Forall wf_tensor (heap (world proc_gqa1))) as Hwf
    by (vm_compute; repeat constructor).
  pose proof (forward_gqa_expansion (A:=Z) 4 call1 (proc0 (module0 cpu None 8 2)) proc_gqa1
                12 (Some (6, 7)) Hkv Hnh Hwf call_gqa_run) as H.
  cbv zeta in H.
  destruct H as (keys & values & ke & ve & qs & tk & tv & tke & tve & tq & w & tm & g & r
                 & b & ql & tout & Hc & Hk & Hv & Hke & Hve & _ & _ & _ & _ & Hrep & _).
  specialize (Hc eq_refl). injection Hc as <- <-.
  destruct Hrep as [Hrk Hrv]; [vm_compute; lia|].
  exists ke, ve, tk, tv, tke, tve. split_and!; try done.
  - vm_compute in Hk. by injection Hk as <-.
  - destruct Hrk as (b' & h' & l' & d' & Hs & Hse & _).
    vm_compute in Hk. injection Hk as <-. simpl in Hs. by injection Hs as <- <- <- <-.
Defined.

End KernelRunFacts.
